(** * AI video generator backend (src/main.py): a shallow embedding

    The FastAPI backend keeps one process-wide dictionary,
    [generation_status], from generation ids to status records (themselves
    dictionaries), and runs one background coroutine per accepted request.
    The coroutine tries the configured providers in order (Luma, Replicate,
    Hugging Face) and falls back to a keyword-driven mock.

    Modelling choices.
    - Python values (JSON payloads, dictionary entries) are the inductive
      [pyval]; dictionaries are stdpp [gmap]s keyed by strings.
    - Python [str] is modelled by [string], each character read as a code
      point below 256 (Latin-1); [lower], [strip] and [in] follow Python on
      that range.
    - [time.time()] readings and their arithmetic are exact rationals.
    - Coroutines are terms of a free monad [Prog] over the effects the source
      performs: writes to [generation_status], HTTP exchanges, [asyncio.sleep]
      and clock reads.  [run] executes a coroutine alone against an
      environment of scripted replies; [sys_step] interleaves the coroutines
      of several generations with the synchronous endpoints.
    - Exceptions are the [Exception] subclasses the source can meet
      ([except Exception] catches every one of them).  [print] calls and the
      set-up and tear-down of [httpx.AsyncClient] are left out. *)

From Stdlib Require Import ZArith QArith Lqa String Ascii List Lia Sorted.
From stdpp Require Import base option list gmap strings.

Open Scope string_scope.
Open Scope list_scope.
Open Scope Z_scope.

(** ** Python strings *)

Module PyStr.

(** [c.isspace()] for a code point below 256. *)
Definition isspace (c : ascii) : bool :=
  let n := N_of_ascii c in
  ((9 <=? n) && (n <=? 13) || (28 <=? n) && (n <=? 32)
   || (n =? 133) || (n =? 160))%N.

(** [c.lower()] for a code point below 256: A-Z, and the Latin-1 capitals
    U+00C0..U+00DE except the multiplication sign U+00D7. *)
Definition lower_char (c : ascii) : ascii :=
  let n := N_of_ascii c in
  if ((65 <=? n) && (n <=? 90)
      || (192 <=? n) && (n <=? 222) && negb (n =? 215))%N
  then ascii_of_N (n + 32) else c.

Fixpoint lower (s : string) : string :=
  match s with
  | EmptyString => EmptyString
  | String c s' => String (lower_char c) (lower s')
  end.

Fixpoint lstrip (s : string) : string :=
  match s with
  | EmptyString => EmptyString
  | String c s' => if isspace c then lstrip s' else s
  end.

Fixpoint rstrip (s : string) : string :=
  match s with
  | EmptyString => EmptyString
  | String c s' =>
      match rstrip s' with
      | EmptyString => if isspace c then EmptyString else String c EmptyString
      | t => String c t
      end
  end.

(** [s.strip()] *)
Definition strip (s : string) : string := rstrip (lstrip s).

(** [w in s]: [w] occurs in [s] as a contiguous substring. *)
Fixpoint contains (w s : string) : bool :=
  String.prefix w s
  || match s with
     | EmptyString => false
     | String _ s' => contains w s'
     end.

(** [len(s)] *)
Definition len (s : string) : Z := Z.of_nat (String.length s).

(** Truth value of a string: non-empty. *)
Definition truthy (s : string) : bool :=
  match s with EmptyString => false | _ => true end.

(** The string is empty or made of whitespace only. *)
Fixpoint blank (s : string) : bool :=
  match s with
  | EmptyString => true
  | String c s' => isspace c && blank s'
  end.

End PyStr.

(** ** Python values and exceptions *)

#[warnings="-register-all"]
Inductive pyval : Type :=
| PNone
| PBool (b : bool)
| PInt (z : Z)
| PFloat (q : Q)
| PStr (s : string)
| PList (l : list pyval)
| PDict (d : gmap string pyval).

(** A Python dictionary with string keys. *)
Abbreviation pydict := (gmap string pyval).

Inductive Exn : Type :=
| KeyError (key : string)
| AttributeError (msg : string)
| TypeError (msg : string)
| OtherError (msg : string).   (* raised by the outside world: httpx, json *)

(** [str(e)] *)
Definition exn_str (e : Exn) : string :=
  match e with
  | KeyError k => "'" +:+ k +:+ "'"
  | AttributeError m | TypeError m | OtherError m => m
  end.

(** What evaluating an expression or awaiting a call yields. *)
Inductive outcome (A : Type) : Type :=
| Ok (a : A)
| Exc (e : Exn).
Arguments Ok {A} a.
Arguments Exc {A} e.

Module Py.

(** Truth value of a Python object ([if v:], [not v]). *)
Definition truthy (v : pyval) : bool :=
  match v with
  | PNone => false
  | PBool b => b
  | PInt z => negb (z =? 0)%Z
  | PFloat q => negb (Qnum q =? 0)%Z
  | PStr s => PyStr.truthy s
  | PList l => match l with [] => false | _ => true end
  | PDict d => negb (Nat.eqb (size d) 0)
  end.

(** [v == s] for a string literal [s]. *)
Definition eq_str (v : pyval) (s : string) : bool :=
  match v with
  | PStr s' => String.eqb s' s
  | _ => false
  end.

(** [v.get(key, default)]: only dictionaries have [get]. *)
Definition get (v : pyval) (key : string) (default : pyval) : outcome pyval :=
  match v with
  | PDict d => Ok (from_option id default (d !! key))
  | _ => Exc (AttributeError "object has no attribute 'get'")
  end.

End Py.

(** ** Configuration, requests and the status store *)

(** The module-level settings read from the process environment.
    [os.getenv] yields [None] for an unset variable. *)
Record Config : Type := {
  LUMA_API_KEY : option string;
  REPLICATE_API_TOKEN : option string;
  HUGGINGFACE_API_KEY : option string;
  MAX_PROMPT_LENGTH : Z;
  VIDEO_TIMEOUT : Z
}.

(** [if KEY:] on an optional string: set and non-empty. *)
Definition configured (key : option string) : bool :=
  match key with
  | Some k => PyStr.truthy k
  | None => false
  end.

(** The request model of POST /generate-video, after validation. *)
Record VideoPrompt : Type := {
  prompt : string;
  duration : option Z;
  style : option string
}.

(** An outgoing HTTP request.  The f-string URLs of the polling calls are
    kept in two parts: the literal prefix and the interpolated job id. *)
Record Request : Type := {
  req_method : string;
  req_url : string;
  req_url_arg : option pyval;
  req_authorization : string;
  req_json : option pyval;
  req_timeout : Z
}.

(** The parts of an [httpx.Response] the source reads; [json] is what
    [response.json()] returns or raises. *)
Record Response : Type := {
  status_code : Z;
  content : list Byte.byte;
  json : outcome pyval
}.

(** [generation_status]: generation id to status record. *)
Abbreviation Store := (gmap string pydict).

(** [d.update({k1: v1, ...})] *)
Definition dict_update (d : pydict) (kvs : list (string * pyval)) : pydict :=
  foldl (fun acc kv => <[kv.1 := kv.2]> acc) d kvs.

(** ** Effects and coroutines *)

Inductive Adapter : Type := Luma | Replicate | HuggingFace | Mock.

(** Bookkeeping marks left in the trace when the orchestrator awaits an
    adapter coroutine and when that coroutine hands back its value. *)
Inductive Mark : Type :=
| Called (a : Adapter)
| Returned (a : Adapter) (v : pyval).

Inductive Eff : Type -> Type :=
| SetItem (gid key : string) (v : pyval) : Eff unit
    (* generation_status[gid][key] = v *)
| Update (gid : string) (kvs : list (string * pyval)) : Eff unit
    (* generation_status[gid].update({...}) *)
| Http (req : Request) : Eff Response
    (* await client.post(...) / await client.get(...) *)
| Sleep (secs : Z) : Eff unit
    (* await asyncio.sleep(secs) *)
| TimeTime : Eff Q
    (* time.time() *)
| Note (m : Mark) : Eff unit.

(** A coroutine: it returns, raises, or performs an effect and goes on with
    the effect's outcome. *)
Inductive Prog (A : Type) : Type :=
| Ret (a : A)
| Raise (e : Exn)
| Vis {X : Type} (e : Eff X) (k : outcome X -> Prog A).
Arguments Ret {A} a.
Arguments Raise {A} e.
Arguments Vis {A X} e k.

Fixpoint bind {A B} (m : Prog A) (f : A -> Prog B) : Prog B :=
  match m with
  | Ret a => f a
  | Raise e => Raise e
  | Vis e k => Vis e (fun r => bind (k r) f)
  end.

(** [try: body / except Exception as e: handler e] *)
Fixpoint try_except {A} (body : Prog A) (handler : Exn -> Prog A) : Prog A :=
  match body with
  | Ret a => Ret a
  | Raise e => handler e
  | Vis e k => Vis e (fun r => try_except (k r) handler)
  end.

Definition perform {X} (e : Eff X) : Prog X :=
  Vis e (fun r => match r with Ok x => Ret x | Exc e => Raise e end).

(** An expression without effects that may raise. *)
Definition lift {A} (o : outcome A) : Prog A :=
  match o with Ok a => Ret a | Exc e => Raise e end.

Notation "x <- m ;; k" := (bind m (fun x => k))
  (at level 99, m at next level, right associativity).
Notation "m >> k" := (bind m (fun _ => k))
  (at level 99, right associativity).

(** ** Semantics of one effect *)

Inductive Event : Type :=
| EvStore (gid : string) (after : option pydict)
    (* a write to the record of [gid]: the record after it, or [None] when
       the id was absent and the write raised KeyError *)
| EvHttp (req : Request) (r : outcome Response)
| EvSleep (secs : Z) (r : outcome unit)
| EvTime (t : Q)
| EvMark (m : Mark).

(** What the outside world answers at a suspension point or clock read. *)
Record Choice : Type := {
  ch_http : outcome Response;
  ch_sleep : outcome unit;
  ch_time : Q
}.

Definition store_write (gid : string) (f : pydict -> pydict) (s : Store)
  : outcome unit * Store * Event :=
  match s !! gid with
  | Some r => (Ok tt, <[gid := f r]> s, EvStore gid (Some (f r)))
  | None => (Exc (KeyError gid), s, EvStore gid None)
  end.

Definition handle {X} (e : Eff X) (c : Choice) (s : Store)
  : outcome X * Store * Event :=
  match e in Eff X return outcome X * Store * Event with
  | SetItem gid key v => store_write gid (fun r => <[key := v]> r) s
  | Update gid kvs => store_write gid (fun r => dict_update r kvs) s
  | Http req => (ch_http c, s, EvHttp req (ch_http c))
  | Sleep secs => (ch_sleep c, s, EvSleep secs (ch_sleep c))
  | TimeTime => (Ok (ch_time c), s, EvTime (ch_time c))
  | Note m => (Ok tt, s, EvMark m)
  end.

(** ** Running one coroutine alone *)

(** Scripted replies of the outside world: the n-th HTTP exchange, the n-th
    sleep and the n-th clock read of the run. *)
Record Env : Type := {
  env_http : nat -> outcome Response;
  env_sleep : nat -> outcome unit;
  env_time : nat -> Q
}.

Record World : Type := {
  store : Store;
  n_http : nat;
  n_sleep : nat;
  n_time : nat
}.

Definition choice_at (env : Env) (w : World) : Choice :=
  {| ch_http := env_http env (n_http w);
     ch_sleep := env_sleep env (n_sleep w);
     ch_time := env_time env (n_time w) |}.

Definition advance {X} (e : Eff X) (s' : Store) (w : World) : World :=
  match e with
  | Http _ => {| store := s'; n_http := S (n_http w);
                 n_sleep := n_sleep w; n_time := n_time w |}
  | Sleep _ => {| store := s'; n_http := n_http w;
                  n_sleep := S (n_sleep w); n_time := n_time w |}
  | TimeTime => {| store := s'; n_http := n_http w;
                   n_sleep := n_sleep w; n_time := S (n_time w) |}
  | _ => {| store := s'; n_http := n_http w;
            n_sleep := n_sleep w; n_time := n_time w |}
  end.

Fixpoint run {A} (env : Env) (p : Prog A) (w : World)
  : outcome A * World * list Event :=
  match p with
  | Ret a => (Ok a, w, [])
  | Raise e => (Exc e, w, [])
  | Vis e k =>
      let '(r, s', ev) := handle e (choice_at env w) (store w) in
      let '(res, w', tr) := run env (k r) (advance e s' w) in
      (res, w', ev :: tr)
  end.

(** ** The adapters and the orchestrator *)

Definition set_progress (gid : string) (z : Z) : Prog unit :=
  perform (SetItem gid "progress" (PInt z)).

Definition bearer (key : option string) : string :=
  "Bearer " +:+ default "None" key.

Definition token (key : option string) : string :=
  "Token " +:+ default "None" key.

Definition post (url auth : string) (payload : pyval) (timeout : Z)
  : Prog Response :=
  perform (Http {| req_method := "POST"; req_url := url; req_url_arg := None;
                   req_authorization := auth; req_json := Some payload;
                   req_timeout := timeout |}).

Definition get (url : string) (arg : pyval) (auth : string) (timeout : Z)
  : Prog Response :=
  perform (Http {| req_method := "GET"; req_url := url;
                   req_url_arg := Some arg; req_authorization := auth;
                   req_json := None; req_timeout := timeout |}).

Definition luma_url : string :=
  "https://api.lumalabs.ai/dream-machine/v1/generations".
Definition replicate_url : string :=
  "https://api.replicate.com/v1/predictions".
Definition huggingface_url : string :=
  "https://api-inference.huggingface.co/models/damo-vilab/text-to-video-ms-1.7b".
Definition huggingface_placeholder : string :=
  "https://huggingface.co/generated-video-placeholder.mp4".

Section Adapters.

Variable cfg : Config.
Variable generation_id : string.
Variable prompt_data : VideoPrompt.

(** The polling loop of the Luma adapter, [for _ in range(n)].  [Some v]
    is a [return v] executed inside the loop; [None] means the loop ran
    out. *)
Fixpoint luma_poll (n : nat) (auth : string) (generation_id_luma : pyval)
  : Prog (option pyval) :=
  match n with
  | O => Ret None
  | S n' =>
      perform (Sleep 10) >>
      status_response <- get (luma_url +:+ "/") generation_id_luma auth 30 ;;
      if status_code status_response =? 200 then
        status_data <- lift (json status_response) ;;
        state <- lift (Py.get status_data "state" PNone) ;;
        if Py.eq_str state "completed" then
          set_progress generation_id 90 >>
          assets <- lift (Py.get status_data "assets" (PDict ∅)) ;;
          video_url <- lift (Py.get assets "video" PNone) ;;
          if Py.truthy video_url then Ret (Some video_url)
          else luma_poll n' auth generation_id_luma
        else if Py.eq_str state "failed" then Ret (Some PNone)
        else luma_poll n' auth generation_id_luma
      else luma_poll n' auth generation_id_luma
  end.

Definition luma_payload : pyval :=
  PDict (list_to_map [("prompt", PStr (prompt prompt_data));
                      ("aspect_ratio", PStr "16:9");
                      ("loop", PBool false)]).

Definition generate_with_luma_dream_machine : Prog pyval :=
  if negb (configured (LUMA_API_KEY cfg)) then Ret PNone
  else
    r <- try_except
           (set_progress generation_id 25 >>
            let auth := bearer (LUMA_API_KEY cfg) in
            set_progress generation_id 50 >>
            response <- post luma_url auth luma_payload 30 ;;
            if status_code response =? 201 then
              result <- lift (json response) ;;
              generation_id_luma <- lift (Py.get result "id" PNone) ;;
              set_progress generation_id 75 >>
              luma_poll 30 auth generation_id_luma
            else Ret None)
           (fun _ => Ret None) ;;
    Ret (default PNone r).

(** [output and isinstance(output, list) and len(output) > 0], then
    [output[0]]: the first element of a non-empty list. *)
Definition first_of_list (output : pyval) : option pyval :=
  match output with
  | PList (x :: _) => Some x
  | _ => None
  end.

Fixpoint replicate_poll (n : nat) (auth : string) (prediction_id : pyval)
  : Prog (option pyval) :=
  match n with
  | O => Ret None
  | S n' =>
      perform (Sleep 10) >>
      status_response <- get (replicate_url +:+ "/") prediction_id auth 30 ;;
      if status_code status_response =? 200 then
        status_data <- lift (json status_response) ;;
        st <- lift (Py.get status_data "status" PNone) ;;
        if Py.eq_str st "succeeded" then
          set_progress generation_id 90 >>
          output <- lift (Py.get status_data "output" PNone) ;;
          match first_of_list output with
          | Some video_url => Ret (Some video_url)
          | None => replicate_poll n' auth prediction_id
          end
        else if Py.eq_str st "failed" then Ret (Some PNone)
        else replicate_poll n' auth prediction_id
      else replicate_poll n' auth prediction_id
  end.

Definition replicate_payload : pyval :=
  PDict (list_to_map
    [("version", PStr "1531004ee4c98894ab11f0e46d69cb9d3a4b65c9");
     ("input", PDict (list_to_map
        [("prompt", PStr (prompt prompt_data));
         ("num_frames", PInt 16);
         ("guidance_scale", PFloat (15 # 2));
         ("num_inference_steps", PInt 25)]))]).

Definition generate_with_replicate : Prog pyval :=
  if negb (configured (REPLICATE_API_TOKEN cfg)) then Ret PNone
  else
    r <- try_except
           (set_progress generation_id 35 >>
            let auth := token (REPLICATE_API_TOKEN cfg) in
            set_progress generation_id 55 >>
            response <- post replicate_url auth replicate_payload 30 ;;
            if status_code response =? 201 then
              result <- lift (json response) ;;
              prediction_id <- lift (Py.get result "id" PNone) ;;
              set_progress generation_id 75 >>
              replicate_poll 20 auth prediction_id
            else Ret None)
           (fun _ => Ret None) ;;
    Ret (default PNone r).

Definition huggingface_payload : pyval :=
  PDict (list_to_map
    [("inputs", PStr (prompt prompt_data));
     ("parameters", PDict (list_to_map
        [("num_frames", PInt 16); ("guidance_scale", PFloat (9 # 1))]))]).

Definition generate_with_huggingface : Prog pyval :=
  if negb (configured (HUGGINGFACE_API_KEY cfg)) then Ret PNone
  else
    r <- try_except
           (set_progress generation_id 40 >>
            let auth := bearer (HUGGINGFACE_API_KEY cfg) in
            set_progress generation_id 65 >>
            response <- post huggingface_url auth huggingface_payload 60 ;;
            set_progress generation_id 85 >>
            if status_code response =? 200 then
              let video_bytes := content response in
              if Z.of_nat (length video_bytes) >? 1000
              then Ret (Some (PStr huggingface_placeholder))
              else Ret None
            else Ret None)
           (fun _ => Ret None) ;;
    Ret (default PNone r).

(** [any(word in prompt_lower for word in words)] *)
Definition any_word_in (words : list string) (prompt_lower : string) : bool :=
  existsb (fun word => PyStr.contains word prompt_lower) words.

(** The keyword rule of the mock, a function of the prompt text. *)
Definition mock_video_url (text : string) : string :=
  let prompt_lower := PyStr.lower text in
  if any_word_in ["cat"; "kitten"; "pet"] prompt_lower then
    "https://sample-videos.com/zip/10/mp4/480/SampleVideo_480x270_1mb.mp4"
  else if any_word_in ["ocean"; "wave"; "water"; "sea"] prompt_lower then
    "https://www.learningcontainer.com/wp-content/uploads/2020/05/sample-mp4-file.mp4"
  else if any_word_in ["nature"; "forest"; "tree"; "landscape"] prompt_lower then
    "https://commondatastorage.googleapis.com/gtv-videos-bucket/sample/ForBiggerEscapes.mp4"
  else if any_word_in ["city"; "urban"; "building"; "street"] prompt_lower then
    "https://commondatastorage.googleapis.com/gtv-videos-bucket/sample/ForBiggerJoyrides.mp4"
  else
    "https://commondatastorage.googleapis.com/gtv-videos-bucket/sample/BigBuckBunny.mp4".

Definition generate_enhanced_mock_video : Prog pyval :=
  set_progress generation_id 60 >>
  perform (Sleep 2) >>
  set_progress generation_id 80 >>
  perform (Sleep 2) >>
  Ret (PStr (mock_video_url (prompt prompt_data))).

(** [video_url = await adapter(...)], with the call and its result marked
    in the trace. *)
Definition await (a : Adapter) (m : Prog pyval) : Prog pyval :=
  perform (Note (Called a)) >>
  v <- m ;;
  perform (Note (Returned a v)) >>
  Ret v.

(** The [try] block of the background task.  The clock is read before
    the last write; the write itself fails first in Python when the id is
    gone, which differs only in whether that clock read happens. *)
Definition process_body : Prog unit :=
  perform (Update generation_id
             [("status", PStr "processing"); ("progress", PInt 10)]) >>
  let video_url := PNone in
  video_url <-
    (if configured (LUMA_API_KEY cfg)
     then await Luma generate_with_luma_dream_machine
     else Ret video_url) ;;
  video_url <-
    (if negb (Py.truthy video_url) && configured (REPLICATE_API_TOKEN cfg)
     then await Replicate generate_with_replicate
     else Ret video_url) ;;
  video_url <-
    (if negb (Py.truthy video_url) && configured (HUGGINGFACE_API_KEY cfg)
     then await HuggingFace generate_with_huggingface
     else Ret video_url) ;;
  video_url <-
    (if negb (Py.truthy video_url)
     then await Mock generate_enhanced_mock_video
     else Ret video_url) ;;
  now <- perform TimeTime ;;
  perform (Update generation_id
             [("status", PStr "completed"); ("progress", PInt 100);
              ("video_url", video_url); ("completed_at", PFloat now)]).

Definition process_video_generation : Prog unit :=
  try_except process_body
    (fun e =>
       perform (Update generation_id
                  [("status", PStr "failed"); ("progress", PInt 0);
                   ("error", PStr (exn_str e))])).

End Adapters.

(** ** The synchronous endpoints *)

(** What an endpoint answers: a 200 payload, or an error status with its
    detail.  An exception that escapes an endpoint is a 500. *)
Inductive HttpResult (A : Type) : Type :=
| Http200 (a : A)
| HttpError (code : Z) (detail : string).
Arguments Http200 {A} a.
Arguments HttpError {A} code detail.

(** The JSON body of POST /generate-video as the client sent it; an absent
    optional field is [None]. *)
Record Body : Type := {
  body_prompt : string;
  body_duration : option Z;
  body_style : option string
}.

(** Validation of the body against the [VideoPrompt] model (the [Field]
    constraints: [min_length=1], [max_length=MAX_PROMPT_LENGTH], [ge=5],
    [le=10], and the defaults).  The framework answers a body that fails it
    with status 422 and never calls the endpoint function. *)
Definition validate (cfg : Config) (b : Body) : option VideoPrompt :=
  if (1 <=? PyStr.len (body_prompt b))
     && (PyStr.len (body_prompt b) <=? MAX_PROMPT_LENGTH cfg)
     && match body_duration b with
        | Some d => (5 <=? d) && (d <=? 10)
        | None => true
        end
  then Some {| prompt := body_prompt b;
               duration := Some (default 7 (body_duration b));
               style := Some (default "cinematic" (body_style b)) |}
  else None.

Record VideoResponse : Type := {
  vr_status : string;
  vr_generation_id : string;
  vr_message : string;
  vr_video_url : option string;
  vr_processing_time : option Q
}.

Definition new_record (now : Q) (text : string) : pydict :=
  list_to_map [("status", PStr "queued"); ("progress", PInt 0);
               ("created_at", PFloat now); ("prompt", PStr text)].

(** POST /generate-video.  [uuid] is the value of [str(uuid.uuid4())] and
    [now] the clock reading, both used only when the request is accepted.
    The third component is the background task handed to
    [background_tasks.add_task], if any. *)
Definition generate_video (cfg : Config) (b : Body) (uuid : string) (now : Q)
    (s : Store) : HttpResult VideoResponse * Store * option (Prog unit) :=
  match validate cfg b with
  | None => (HttpError 422 "Unprocessable Entity", s, None)
  | Some prompt_data =>
      if negb (PyStr.truthy (PyStr.strip (prompt prompt_data)))
      then (HttpError 400 "Prompt cannot be empty", s, None)
      else
        (Http200 {| vr_status := "queued";
                    vr_generation_id := uuid;
                    vr_message := "Video generation started using free AI APIs. Check status for progress.";
                    vr_video_url := None;
                    vr_processing_time := None |},
         <[uuid := new_record now (prompt prompt_data)]> s,
         Some (process_video_generation cfg uuid prompt_data))
  end.

(** The fields of a status answer, as read from the record (the response
    model's own type checks are not modelled). *)
Record StatusResponse : Type := {
  status : pyval;
  progress : pyval;
  video_url : pyval;
  error : pyval
}.

(** GET /status/{generation_id} *)
Definition get_generation_status (generation_id : string) (s : Store)
  : HttpResult StatusResponse :=
  match s !! generation_id with
  | None => HttpError 404 "Generation ID not found"
  | Some status_data =>
      match status_data !! "status" with
      | None => HttpError 500 (exn_str (KeyError "status"))
      | Some st =>
          Http200 {| status := st;
                     progress := default (PInt 0) (status_data !! "progress");
                     video_url := default PNone (status_data !! "video_url");
                     error := default PNone (status_data !! "error") |}
      end
  end.

(** [g["status"] in ["queued", "processing"]] *)
Definition is_active (g : pydict) : outcome bool :=
  match g !! "status" with
  | Some st => Ok (Py.eq_str st "queued" || Py.eq_str st "processing")
  | None => Exc (KeyError "status")
  end.

(** A list comprehension with a filter that may raise: the kept elements,
    or the first exception. *)
Fixpoint filter_raising {A} (f : A -> outcome bool) (l : list A)
  : outcome (list A) :=
  match l with
  | [] => Ok []
  | x :: l' =>
      match f x with
      | Exc e => Exc e
      | Ok b =>
          match filter_raising f l' with
          | Exc e => Exc e
          | Ok kept => Ok (if b then x :: kept else kept)
          end
      end
  end.

Record HealthResponse : Type := {
  health_status : string;
  timestamp : Q;
  apis_available : list (string * bool);
  active_generations : Z
}.

(** GET /health *)
Definition health_check (cfg : Config) (now : Q) (s : Store)
  : HttpResult HealthResponse :=
  match filter_raising (fun kv => is_active kv.2) (map_to_list s) with
  | Exc e => HttpError 500 (exn_str e)
  | Ok active =>
      Http200 {| health_status := "healthy";
                 timestamp := now;
                 apis_available :=
                   [("luma_dream_machine", configured (LUMA_API_KEY cfg));
                    ("replicate", configured (REPLICATE_API_TOKEN cfg));
                    ("huggingface", configured (HUGGINGFACE_API_KEY cfg));
                    ("mock_fallback", true)];
                 active_generations := Z.of_nat (length active) |}
  end.

Definition Qltb (x y : Q) : bool := negb (Qle_bool y x).

(** [v < cutoff] for a float [cutoff]: numbers compare by value, anything
    else raises TypeError. *)
Definition lt_float (v : pyval) (cutoff : Q) : outcome bool :=
  match v with
  | PInt z => Ok (Qltb (inject_Z z) cutoff)
  | PFloat q => Ok (Qltb q cutoff)
  | PBool b => Ok (Qltb (inject_Z (if b then 1 else 0)) cutoff)
  | _ => Exc (TypeError "'<' not supported between instances")
  end.

Record CleanupResponse : Type := {
  cleaned : Z;
  remaining : Z
}.

(** DELETE /cleanup, at clock reading [current_time]. *)
Definition cleanup_old_generations (current_time : Q) (s : Store)
  : HttpResult CleanupResponse * Store :=
  let cutoff_time := (current_time - inject_Z (24 * 60 * 60))%Q in
  match filter_raising
          (fun kv => lt_float (default (PInt 0) (kv.2 !! "created_at")) cutoff_time)
          (map_to_list s) with
  | Exc e => (HttpError 500 (exn_str e), s)
  | Ok old =>
      let to_delete := map fst old in
      let s' := foldl (fun acc gen_id => delete gen_id acc) s to_delete in
      (Http200 {| cleaned := Z.of_nat (length to_delete);
                  remaining := Z.of_nat (size s') |}, s')
  end.

(** ** The whole service: endpoints and background tasks interleaved *)

Record Sys : Type := {
  sys_store : Store;
  sys_tasks : gmap string (Prog unit);   (* what is left of each task *)
  sys_issued : gset string               (* ids [uuid4] has produced *)
}.

Definition sys_init : Sys :=
  {| sys_store := ∅; sys_tasks := ∅; sys_issued := ∅ |}.

Inductive Op : Type :=
| OpGenerate (b : Body) (uuid : string) (now : Q)
| OpStatus (gid : string)
| OpHealth (now : Q)
| OpCleanup (now : Q)
| OpResume (gid : string) (c : Choice).
    (* the task of [gid] performs its next effect, answered by [c] *)

(** One step of the service.  [None]: the step cannot happen ([uuid4]
    never repeats an id; a finished task has no next effect).  A task is
    resumed one effect at a time, which is finer than the event loop, where
    a task runs from one [await] to the next; every interleaving of the
    event loop is one of these. *)
Definition sys_step (cfg : Config) (op : Op) (x : Sys) : option Sys :=
  match op with
  | OpGenerate b uuid now =>
      match generate_video cfg b uuid now (sys_store x) with
      | (_, s', Some task) =>
          if decide (uuid ∈ sys_issued x) then None
          else Some {| sys_store := s';
                       sys_tasks := <[uuid := task]> (sys_tasks x);
                       sys_issued := {[uuid]} ∪ sys_issued x |}
      | (_, _, None) => Some x
      end
  | OpStatus _ | OpHealth _ => Some x
  | OpCleanup now =>
      Some {| sys_store := (cleanup_old_generations now (sys_store x)).2;
              sys_tasks := sys_tasks x;
              sys_issued := sys_issued x |}
  | OpResume gid c =>
      match sys_tasks x !! gid with
      | Some (Vis e k) =>
          let '(r, s', _) := handle e c (sys_store x) in
          Some {| sys_store := s';
                  sys_tasks := <[gid := k r]> (sys_tasks x);
                  sys_issued := sys_issued x |}
      | _ => None
      end
  end.

Fixpoint sys_run (cfg : Config) (ops : list Op) (x : Sys) : option Sys :=
  match ops with
  | [] => Some x
  | op :: ops' =>
      match sys_step cfg op x with
      | Some x' => sys_run cfg ops' x'
      | None => None
      end
  end.

Definition reachable (cfg : Config) (x : Sys) : Prop :=
  exists ops, sys_run cfg ops sys_init = Some x.

(** ** Observations on traces and records *)

Definition marks (tr : list Event) : list Mark :=
  omap (fun ev => match ev with EvMark m => Some m | _ => None end) tr.

(** The adapters awaited, in order. *)
Definition calls (tr : list Event) : list Adapter :=
  omap (fun ev => match ev with EvMark (Called a) => Some a | _ => None end) tr.

(** The successive values of the record, one per write that happened. *)
Definition snapshots (tr : list Event) : list pydict :=
  omap (fun ev => match ev with EvStore _ (Some r) => Some r | _ => None end) tr.

(** The HTTP responses received. *)
Definition responses (tr : list Event) : list Response :=
  omap (fun ev => match ev with EvHttp _ (Ok resp) => Some resp | _ => None end) tr.

(** The sleeps and what came of them. *)
Definition sleeps (tr : list Event) : list (outcome unit) :=
  omap (fun ev => match ev with EvSleep _ r => Some r | _ => None end) tr.

(** [r.get("progress", 0)] as an integer. *)
Definition progress_int (r : pydict) : Z :=
  match r !! "progress" with
  | Some (PInt z) => z
  | _ => 0
  end.

Definition has_status (st : string) (r : pydict) : bool :=
  match r !! "status" with
  | Some v => Py.eq_str v st
  | None => false
  end.

(** Terminal state: [completed] or [failed]. *)
Definition terminal (r : pydict) : bool :=
  has_status "completed" r || has_status "failed" r.

(** The progress field holds an integer between 0 and 100. *)
Definition progress_in_range (r : pydict) : Prop :=
  exists z, r !! "progress" = Some (PInt z) /\ 0 <= z <= 100.

(** Every record of [rs] has the status entry [st], and progress climbs from at least
    [lo] without ever exceeding [hi]. *)
Fixpoint climb (st : option pyval) (lo : Z) (rs : list pydict) (hi : Z) : Prop :=
  match rs with
  | [] => lo <= hi
  | r :: rs' =>
      exists z, r !! "progress" = Some (PInt z)
                /\ r !! "status" = st
                /\ lo <= z /\ climb st z rs' hi
  end.

(** The record of [gid], if there is one, has the status entry [st]. *)
Definition rec_status (gid : string) (st : option pyval) (s : Store) : Prop :=
  forall r, s !! gid = Some r -> r !! "status" = st.

(** ** A weakest-precondition calculus for coroutines run alone

    [wp p s Q]: whatever the outside world answers, running [p] from store
    [s] ends in an outcome, a store and a trace that satisfy [Q]. *)
Fixpoint wp {A} (p : Prog A) (s : Store)
    (Q : outcome A -> Store -> list Event -> Prop) : Prop :=
  match p with
  | Ret a => Q (Ok a) s []
  | Raise e => Q (Exc e) s []
  | Vis e k =>
      forall c : Choice,
        wp (k (handle e c s).1.1) (handle e c s).1.2
           (fun o s' tr => Q o s' ((handle e c s).2 :: tr))
  end.

(** The providers whose credential is set, in priority order. *)
Definition providers (cfg : Config) : list Adapter :=
  (if configured (LUMA_API_KEY cfg) then [Luma] else [])
  ++ (if configured (REPLICATE_API_TOKEN cfg) then [Replicate] else [])
  ++ (if configured (HUGGINGFACE_API_KEY cfg) then [HuggingFace] else []).

(** The fallback chain in the spec's words: the configured providers are
    called in order; each call returns; the first true result ends the
    chain; when every provider came back empty-handed the mock is called
    (and returns unless it raised). *)
Inductive fallback_chain : list Adapter -> list Mark -> Prop :=
| chain_hit a v rest :
    Py.truthy v = true ->
    fallback_chain (a :: rest) [Called a; Returned a v]
| chain_miss a v rest ms :
    Py.truthy v = false ->
    fallback_chain rest ms ->
    fallback_chain (a :: rest) (Called a :: Returned a v :: ms)
| chain_mock v :
    fallback_chain [] [Called Mock; Returned Mock v]
| chain_mock_raised :
    fallback_chain [] [Called Mock].

(** ** What the adapters promise *)

Definition luma_reported (resp : Response) : option pyval :=
  if status_code resp =? 200 then
    match json resp with
    | Ok (PDict d) =>
        if Py.eq_str (default PNone (d !! "state")) "completed" then
          match d !! "assets" with
          | Some (PDict assets) => assets !! "video"
          | _ => None
          end
        else None
    | _ => None
    end
  else None.

Definition replicate_reported (resp : Response) : option pyval :=
  if status_code resp =? 200 then
    match json resp with
    | Ok (PDict d) =>
        if Py.eq_str (default PNone (d !! "status")) "succeeded" then
          match d !! "output" with
          | Some output => first_of_list output
          | None => None
          end
        else None
    | _ => None
    end
  else None.

Definition huggingface_accepted (resp : Response) : Prop :=
  status_code resp = 200 /\ 1000 < Z.of_nat (length (content resp)).

(** A result other than [None] was reported by one of the responses. *)
Definition reported_in (reported : Response -> option pyval)
    (v : pyval) (tr : list Event) : Prop :=
  v <> PNone -> exists resp, resp ∈ responses tr /\ reported resp = Some v.

Definition placeholder_in (v : pyval) (tr : list Event) : Prop :=
  v <> PNone ->
  v = PStr huggingface_placeholder
  /\ exists resp, resp ∈ responses tr /\ huggingface_accepted resp.

(** The [try] block of an adapter: no marks, status untouched, progress
    climbing from [lo] to at most 90, and a value returned inside the block
    satisfies [R]. *)
Definition seg_post (gid : string) (st : option pyval) (lo : Z) (R : pyval -> list Event -> Prop)
    (o : outcome (option pyval)) (s' : Store) (tr : list Event) : Prop :=
  marks tr = [] /\ rec_status gid st s' /\ climb st lo (snapshots tr) 90
  /\ match o with
     | Ok (Some v) => R v tr
     | _ => True
     end.

(** An adapter as a whole: as its block, and it returns. *)
Definition adapter_post (gid : string) (st : option pyval) (lo : Z) (R : pyval -> list Event -> Prop)
    (o : outcome pyval) (s' : Store) (tr : list Event) : Prop :=
  marks tr = [] /\ rec_status gid st s' /\ climb st lo (snapshots tr) 90
  /\ exists v, o = Ok v /\ R v tr.

Definition grows (R : pyval -> list Event -> Prop) : Prop :=
  forall v ev tr, R v tr -> R v (ev :: tr).

(** The mock: progress 60 then 80, and whatever it returns is the keyword
    rule's URL for the prompt. *)
Definition mock_post (gid : string) (st : option pyval) (text : string)
    (o : outcome pyval) (s' : Store) (tr : list Event) : Prop :=
  marks tr = [] /\ rec_status gid st s' /\ climb st 60 (snapshots tr) 90
  /\ forall v, o = Ok v -> v = PStr (mock_video_url text).

(** ** The orchestrator's chain *)

(** Progress never goes down along [rs], starting from at least [lo]. *)
Fixpoint rising (lo : Z) (rs : list pydict) : Prop :=
  match rs with
  | [] => True
  | r :: rs' => lo <= progress_int r /\ rising (progress_int r) rs'
  end.

Definition not_failed (r : pydict) : Prop := has_status "failed" r = false.

(** What is left of the chain once the current result is [v]: nothing
    when [v] is true, else the fallback chain over the providers [ps]. *)
Definition chain_from (ps : list Adapter) (v : pyval) (ms : list Mark) : Prop :=
  if Py.truthy v then ms = [] else fallback_chain ps ms.

Definition body_post (ps : list Adapter) (v : pyval)
    (o : outcome unit) (s' : Store) (tr : list Event) : Prop :=
  chain_from ps v (marks tr)
  /\ Forall progress_in_range (snapshots tr)
  /\ Forall not_failed (snapshots tr)
  /\ (Py.truthy v = false -> calls tr <> [])
  /\ (calls tr = [] -> forall lo, lo <= 100 -> rising lo (snapshots tr))
  /\ ((length (calls tr) <= 1)%nat -> rising 10 (snapshots tr)).

#[global] Instance not_failed_dec r : Decision (not_failed r).
Proof. unfold not_failed. apply _. Defined.

(** What every run of the background task satisfies, when the record is
    there at dispatch. *)
Definition task_post (cfg : Config)
    (o : outcome unit) (s' : Store) (tr : list Event) : Prop :=
  fallback_chain (providers cfg) (marks tr)
  /\ Forall progress_in_range (snapshots tr)
  /\ ((length (calls tr) <= 1)%nat -> rising 10 (filter not_failed (snapshots tr))).

(** ** The discipline of the background task and the invariant of the service *)

(** The keys a background task may write. *)
Definition touched : list string :=
  ["status"; "progress"; "video_url"; "error"; "completed_at"].

(** The four states of the state machine. *)
Definition states : list string :=
  ["queued"; "processing"; "completed"; "failed"].

(** A well-formed status record: the creation fields are there, the status
    is one of the four states, progress is in range, and only a completed
    record carries a video URL. *)
Definition record_ok (r : pydict) : Prop :=
  (exists t, r !! "created_at" = Some (PFloat t))
  /\ (exists text, r !! "prompt" = Some (PStr text))
  /\ (exists st, r !! "status" = Some (PStr st) /\ st ∈ states)
  /\ progress_in_range r
  /\ (r !! "video_url" <> None -> has_status "completed" r = true).

(** The write an effect makes to the store, if it is one: the id it
    addresses and what it does to the record. *)
Definition write_fun {X} (e : Eff X) : option (string * (pydict -> pydict)) :=
  match e with
  | SetItem gid key v => Some (gid, fun r => <[key := v]> r)
  | Update gid kvs => Some (gid, fun r => dict_update r kvs)
  | _ => None
  end.

Definition frame (f : pydict -> pydict) : Prop :=
  forall r key, key ∉ touched -> f r !! key = r !! key.

Definition nonterminal_write (f : pydict -> pydict) : Prop :=
  forall r, record_ok r -> terminal r = false ->
            record_ok (f r) /\ terminal (f r) = false.

Definition terminal_write (f : pydict -> pydict) : Prop :=
  forall r, record_ok r -> terminal r = false ->
            record_ok (f r) /\ terminal (f r) = true.

(** Where a coroutine stands with respect to the terminal write.
    [Mild]: it makes no terminal write.  [InTry]: inside the [try] block, it
    may make one and then only returns.  [Top]: the whole task, it may make
    one and then writes no more.  [Strict]: no write and no raise.
    [Quiet]: no write. *)
Inductive Phase : Type := Mild | InTry | Top | Strict | Quiet.

Definition may_write (ph : Phase) : Prop :=
  ph = Mild \/ ph = InTry \/ ph = Top.

Definition after_terminal (ph : Phase) : option Phase :=
  match ph with
  | InTry => Some Strict
  | Top => Some Quiet
  | _ => None
  end.

(** [disciplined gid ph p]: on every path, whatever the replies, [p] writes
    only to the record of [gid], only the touched keys, and respects the
    phase [ph]. *)
Fixpoint disciplined {A} (gid : string) (ph : Phase) (p : Prog A) : Prop :=
  match p with
  | Ret _ => True
  | Raise _ => ph <> Strict
  | Vis e k =>
      match write_fun e with
      | None => forall r, disciplined gid ph (k r)
      | Some (g, f) =>
          g = gid /\ frame f /\ may_write ph
          /\ (forall ex, disciplined gid ph (k (Exc ex)))
          /\ ((nonterminal_write f /\ forall x, disciplined gid ph (k (Ok x)))
              \/ (terminal_write f
                  /\ exists ph', after_terminal ph = Some ph'
                                 /\ forall x, disciplined gid ph' (k (Ok x))))
      end
  end.

(** The invariant of the service: ids in use were issued; every record is
    well formed; every task is disciplined, and has no write left once its
    record is terminal. *)
Definition sys_inv (x : Sys) : Prop :=
  dom (sys_store x) ⊆ sys_issued x
  /\ dom (sys_tasks x) ⊆ sys_issued x
  /\ (forall gid r, sys_store x !! gid = Some r -> record_ok r)
  /\ (forall gid p, sys_tasks x !! gid = Some p ->
        disciplined gid Top p
        /\ forall r, sys_store x !! gid = Some r -> terminal r = true ->
                     disciplined gid Quiet p).

Definition is_cleanup (op : Op) : Prop :=
  match op with OpCleanup _ => True | _ => False end.

(** What one step may do to a record that exists: leave it, rewrite
    touched keys of a record that is not terminal, or (cleanup only) delete
    it. *)
Definition record_step (op : Op) (r : pydict) (after : option pydict) : Prop :=
  match after with
  | None => is_cleanup op
  | Some r' =>
      (forall key, key ∉ touched -> r' !! key = r !! key)
      /\ (terminal r = true -> r' = r)
  end.

(** ** Concrete inputs and the notions the claims are stated with *)

(** The claim of C7 read on one response: [v] is what the response reports
    as the finished video in the format of Luma or of Replicate, or the
    text of [v] stands in the raw body. *)
Definition reported_by (resp : Response) (v : pyval) : Prop :=
  luma_reported resp = Some v
  \/ replicate_reported resp = Some v
  \/ exists s a b, v = PStr s
                   /\ content resp = a ++ list_byte_of_string s ++ b.

(** A configuration with the Hugging Face credential only. *)
Definition cfg_hf : Config :=
  {| LUMA_API_KEY := None; REPLICATE_API_TOKEN := None;
     HUGGINGFACE_API_KEY := Some "hf_key";
     MAX_PROMPT_LENGTH := 500; VIDEO_TIMEOUT := 180 |}.

Definition pd_cat : VideoPrompt :=
  {| prompt := "CAT video"; duration := Some 7; style := Some "cinematic" |}.

(** A 200 answer whose body is 1001 zero bytes and no JSON. *)
Definition resp_bytes : Response :=
  {| status_code := 200; content := repeat Byte.x00 1001;
     json := Exc (OtherError "not JSON") |}.

Definition env_bytes : Env :=
  {| env_http := fun _ => Ok resp_bytes;
     env_sleep := fun _ => Ok tt;
     env_time := fun _ => 100%Q |}.

(** A store holding the fresh record of generation "g". *)
Definition w_g : World :=
  {| store := <["g" := new_record 5 "CAT video"]> ∅;
     n_http := 0; n_sleep := 0; n_time := 0 |}.

(** The coroutine of each adapter. *)
Definition adapter_prog (cfg : Config) (gid : string) (pd : VideoPrompt)
    (a : Adapter) : Prog pyval :=
  match a with
  | Luma => generate_with_luma_dream_machine cfg gid pd
  | Replicate => generate_with_replicate cfg gid pd
  | HuggingFace => generate_with_huggingface cfg gid pd
  | Mock => generate_enhanced_mock_video gid pd
  end.

(** A configuration with the Luma and Replicate credentials. *)
Definition cfg_lr : Config :=
  {| LUMA_API_KEY := Some "luma_key"; REPLICATE_API_TOKEN := Some "r8_token";
     HUGGINGFACE_API_KEY := None;
     MAX_PROMPT_LENGTH := 500; VIDEO_TIMEOUT := 180 |}.

Definition resp_500 : Response :=
  {| status_code := 500; content := []; json := Exc (OtherError "not JSON") |}.

(** Every provider answers 500. *)
Definition env_500 : Env :=
  {| env_http := fun _ => Ok resp_500;
     env_sleep := fun _ => Ok tt;
     env_time := fun _ => 100%Q |}.

(** No provider credential at all. *)
Definition cfg_none : Config :=
  {| LUMA_API_KEY := None; REPLICATE_API_TOKEN := None;
     HUGGINGFACE_API_KEY := None;
     MAX_PROMPT_LENGTH := 500; VIDEO_TIMEOUT := 180 |}.

(** The record a generation ends with on the mock path. *)
Definition mock_final (r0 : pydict) (text : string) (now : Q) : pydict :=
  dict_update
    (<["progress" := PInt 80]>
       (<["progress" := PInt 60]>
          (dict_update r0 [("status", PStr "processing"); ("progress", PInt 10)])))
    [("status", PStr "completed"); ("progress", PInt 100);
     ("video_url", PStr (mock_video_url text)); ("completed_at", PFloat now)].

Definition body_cat : Body :=
  {| body_prompt := "CAT video"; body_duration := None; body_style := None |}.

Definition body_spaces : Body :=
  {| body_prompt := "   "; body_duration := None; body_style := None |}.

Definition body_empty : Body :=
  {| body_prompt := ""; body_duration := None; body_style := None |}.

(** [w] occurs in [text] as a substring, letter case aside. *)
Definition mentions (w text : string) : Prop :=
  exists a b, PyStr.lower text = a +:+ w +:+ b.

Definition cat_words : list string := ["cat"; "kitten"; "pet"].
Definition ocean_words : list string := ["ocean"; "wave"; "water"; "sea"].
Definition nature_words : list string := ["nature"; "forest"; "tree"; "landscape"].
Definition city_words : list string := ["city"; "urban"; "building"; "street"].

Definition cat_url : string :=
  "https://sample-videos.com/zip/10/mp4/480/SampleVideo_480x270_1mb.mp4".
Definition ocean_url : string :=
  "https://www.learningcontainer.com/wp-content/uploads/2020/05/sample-mp4-file.mp4".
Definition nature_url : string :=
  "https://commondatastorage.googleapis.com/gtv-videos-bucket/sample/ForBiggerEscapes.mp4".
Definition city_url : string :=
  "https://commondatastorage.googleapis.com/gtv-videos-bucket/sample/ForBiggerJoyrides.mp4".
Definition default_url : string :=
  "https://commondatastorage.googleapis.com/gtv-videos-bucket/sample/BigBuckBunny.mp4".

(** No word of [ws] occurs in [text]. *)
Definition none_of (ws : list string) (text : string) : Prop :=
  forall w, w ∈ ws -> ~ mentions w text.

(** ** Cleanup and concrete histories of the service *)

(** Every record carries a float creation time. *)
Definition store_typed (s : Store) : Prop :=
  forall gid r, s !! gid = Some r -> exists t, r !! "created_at" = Some (PFloat t).

Definition old_flag (cutoff_time : Q) (kv : string * pydict) : bool :=
  match kv.2 !! "created_at" with
  | Some (PFloat t) => Qltb t cutoff_time
  | _ => false
  end.

(** The outside world at its most obliging. *)
Definition ch_ok : Choice :=
  {| ch_http := Ok resp_500; ch_sleep := Ok tt; ch_time := 100%Q |}.

(** Generation "g" is accepted at time 5 and its task runs to the end on
    the mock path (nine effects). *)
Definition ops_complete_g : list Op :=
  OpGenerate body_cat "g" 5 :: repeat (OpResume "g" ch_ok) 9.

Definition record_g : pydict :=
  mock_final (new_record 5 "CAT video") "CAT video" 100.

Definition x_done : Sys :=
  {| sys_store := <["g" := record_g]> ∅;
     sys_tasks := <["g" := Ret tt]> ∅;
     sys_issued := {["g"]} |}.

Definition body_dog : Body :=
  {| body_prompt := "a dog in the street"; body_duration := Some 5;
     body_style := None |}.

(** After "g" is done, "h" is accepted at time 90000. *)
Definition ops_two : list Op :=
  ops_complete_g ++ [OpGenerate body_dog "h" 90000].

Definition x_two : Sys := default sys_init (sys_run cfg_none ops_two sys_init).

(** The first sleep of the mock raises. *)
Definition ch_sleep_fails : Choice :=
  {| ch_http := Ok resp_500; ch_sleep := Exc (OtherError "sleep interrupted");
     ch_time := 100%Q |}.

(** Luma accepts the job and reports it finished at the first poll. *)
Definition luma_video : string := "https://cdn.example/v.mp4".

Definition resp_created : Response :=
  {| status_code := 201; content := [];
     json := Ok (PDict (list_to_map [("id", PStr "job-1")])) |}.

Definition resp_completed : Response :=
  {| status_code := 200; content := [];
     json := Ok (PDict (list_to_map
               [("state", PStr "completed");
                ("assets", PDict (list_to_map [("video", PStr luma_video)]))])) |}.

Definition resp_pending : Response :=
  {| status_code := 200; content := [];
     json := Ok (PDict (list_to_map [("state", PStr "dreaming")])) |}.

Definition env_luma_ok : Env :=
  {| env_http := fun n => match n with O => Ok resp_created | _ => Ok resp_completed end;
     env_sleep := fun _ => Ok tt;
     env_time := fun _ => 100%Q |}.

(** Luma accepts the job and never finishes it. *)
Definition env_luma_pending : Env :=
  {| env_http := fun n => match n with O => Ok resp_created | _ => Ok resp_pending end;
     env_sleep := fun _ => Ok tt;
     env_time := fun _ => 100%Q |}.

(** ** Effects on every path, and budgets *)

(** [every_effect P p]: on every path, whatever the replies, each effect
    that [p] performs satisfies [P]. *)
Fixpoint every_effect {A} (P : forall X, Eff X -> Prop) (p : Prog A) : Prop :=
  match p with
  | Vis e k => P _ e /\ forall r, every_effect P (k r)
  | _ => True
  end.

(** [within cost n p]: on every path the costs of the effects of [p] add up
    to at most [n]. *)
Fixpoint within {A} (cost : forall X, Eff X -> Z) (n : Z) (p : Prog A) : Prop :=
  match p with
  | Vis e k => forall r, within cost (n - cost _ e) (k r)
  | _ => 0 <= n
  end.

(** One for each HTTP exchange. *)
Definition http_cost (X : Type) (e : Eff X) : Z :=
  match e with Http _ => 1 | _ => 0 end.

(** The seconds asked of [asyncio.sleep]. *)
Definition sleep_cost (X : Type) (e : Eff X) : Z :=
  match e with Sleep secs => secs | _ => 0 end.

(** The HTTP requests sent, in order. *)
Definition requests (tr : list Event) : list Request :=
  omap (fun ev => match ev with EvHttp req _ => Some req | _ => None end) tr.

(** The seconds of sleep asked for. *)
Definition slept (tr : list Event) : Z :=
  foldr (fun ev acc => match ev with EvSleep secs _ => secs + acc | _ => acc end) 0 tr.

(** The cost of a trace, event by event. *)
Definition spent (cost : Event -> Z) (tr : list Event) : Z :=
  foldr (fun ev acc => cost ev + acc) 0 tr.

Definition http_event_cost (ev : Event) : Z :=
  match ev with EvHttp _ _ => 1 | _ => 0 end.

Definition sleep_event_cost (ev : Event) : Z :=
  match ev with EvSleep secs _ => secs | _ => 0 end.

(** ** The requests an adapter may send *)

(** Luma's adapter: the submission of the prompt, or the poll of a job,
    each with Luma's credential and a 30 second timeout. *)
Definition luma_request (cfg : Config) (pd : VideoPrompt) (req : Request) : Prop :=
  req_authorization req = bearer (LUMA_API_KEY cfg) /\ req_timeout req = 30
  /\ ((req_method req = "POST" /\ req_url req = luma_url
       /\ req_url_arg req = None /\ req_json req = Some (luma_payload pd))
      \/ (req_method req = "GET" /\ req_url req = luma_url +:+ "/"
          /\ req_url_arg req <> None /\ req_json req = None)).

Definition replicate_request (cfg : Config) (pd : VideoPrompt) (req : Request) : Prop :=
  req_authorization req = token (REPLICATE_API_TOKEN cfg) /\ req_timeout req = 30
  /\ ((req_method req = "POST" /\ req_url req = replicate_url
       /\ req_url_arg req = None /\ req_json req = Some (replicate_payload pd))
      \/ (req_method req = "GET" /\ req_url req = replicate_url +:+ "/"
          /\ req_url_arg req <> None /\ req_json req = None)).

Definition huggingface_request (cfg : Config) (pd : VideoPrompt) (req : Request) : Prop :=
  req_authorization req = bearer (HUGGINGFACE_API_KEY cfg) /\ req_timeout req = 60
  /\ req_method req = "POST" /\ req_url req = huggingface_url
  /\ req_url_arg req = None /\ req_json req = Some (huggingface_payload pd).

(** Every request of the coroutine satisfies [R]. *)
Definition sends (R : Request -> Prop) (X : Type) (e : Eff X) : Prop :=
  match e with Http req => R req | _ => True end.

(** The HTTP exchanges of a run: each request with what came back. *)
Definition exchanges (tr : list Event) : list (Request * outcome Response) :=
  omap (fun ev => match ev with EvHttp req r => Some (req, r) | _ => None end) tr.

(** A poll: a GET for the job [job]. *)
Definition polls_job (job : pyval) (req : Request) : Prop :=
  req_method req = "GET" /\ req_url_arg req = Some job.

(** The polls of a run go to the job the submission created: there are
    polls only when the first exchange, the submission, was answered 201
    with a JSON object, and then each of them asks for the [id] of that
    object ([None] when it has none). *)
Definition polls_created_job (xs : list (Request * outcome Response)) : Prop :=
  match xs with
  | [] => True
  | (submission, answer) :: polls =>
      req_method submission = "POST"
      /\ (polls <> [] ->
          exists resp d,
            answer = Ok resp /\ status_code resp = 201 /\ json resp = Ok (PDict d)
            /\ Forall (fun x => polls_job (default PNone (d !! "id")) x.1) polls)
  end.

(** ** How a generation ends *)

(** Where the result [v] of adapter [a] comes from: a response that
    reported it (Luma, Replicate), the placeholder after an accepted answer
    (Hugging Face), or the keyword rule (mock). *)
Definition url_source (pd : VideoPrompt) (a : Adapter) (v : pyval)
    (tr : list Event) : Prop :=
  match a with
  | Luma => exists resp, resp ∈ responses tr /\ luma_reported resp = Some v
  | Replicate => exists resp, resp ∈ responses tr /\ replicate_reported resp = Some v
  | HuggingFace =>
      v = PStr huggingface_placeholder
      /\ exists resp, resp ∈ responses tr /\ huggingface_accepted resp
  | Mock => v = PStr (mock_video_url (prompt pd))
  end.

(** The record of a generation that failed with exception [e]. *)
Definition failed_with (e : Exn) (r : pydict) : Prop :=
  r !! "status" = Some (PStr "failed")
  /\ r !! "progress" = Some (PInt 0)
  /\ r !! "error" = Some (PStr (exn_str e)).

(** The record of a generation that completed with video URL [v] at clock
    reading [t]. *)
Definition completed_with (v : pyval) (t : Q) (r : pydict) : Prop :=
  r !! "status" = Some (PStr "completed")
  /\ r !! "progress" = Some (PInt 100)
  /\ r !! "video_url" = Some v
  /\ r !! "completed_at" = Some (PFloat t).

(** One of the two-second sleeps (those of the mock) raised [e]. *)
Definition interrupted (e : Exn) (tr : list Event) : Prop :=
  EvSleep 2 (Exc e) ∈ tr.

(** How the background task ends when its record is there: it returns, and
    either a sleep of the mock raised and the record is failed with that
    exception, or none did and the record is completed with the true result
    of the last adapter awaited. *)
Definition task_outcome (pd : VideoPrompt) (gid : string)
    (o : outcome unit) (s' : Store) (tr : list Event) : Prop :=
  o = Ok tt
  /\ exists r', s' !! gid = Some r'
     /\ ((exists e, interrupted e tr /\ failed_with e r')
         \/ ((forall e, ~ interrupted e tr)
             /\ exists a v t,
                  last (marks tr) = Some (Returned a v)
                  /\ Py.truthy v = true
                  /\ url_source pd a v tr
                  /\ EvTime t ∈ tr
                  /\ completed_with v t r')).

(** What the [try] block of the task has established after the events
    [pre], the current result being [v0]. *)
Definition chain_so_far (pd : VideoPrompt) (gid : string) (v0 : pyval)
    (pre : list Event) (s : Store) : Prop :=
  is_Some (s !! gid)
  /\ rec_status gid (Some (PStr "processing")) s
  /\ (forall e, ~ interrupted e pre)
  /\ (Py.truthy v0 = true ->
      exists a, last (marks pre) = Some (Returned a v0) /\ url_source pd a v0 pre).

(** How the [try] block ends. *)
Definition body_outcome (pd : VideoPrompt) (gid : string)
    (o : outcome unit) (s' : Store) (tr : list Event) : Prop :=
  match o with
  | Ok _ =>
      (forall e, ~ interrupted e tr)
      /\ exists r' a v t,
           s' !! gid = Some r'
           /\ last (marks tr) = Some (Returned a v)
           /\ Py.truthy v = true
           /\ url_source pd a v tr
           /\ EvTime t ∈ tr
           /\ completed_with v t r'
  | Exc e => is_Some (s' !! gid) /\ interrupted e tr
  end.

(** Every sleep asked for is one of ten seconds, as in the provider
    adapters. *)
Definition long_sleep (X : Type) (e : Eff X) : Prop :=
  match e with Sleep secs => secs = 10 | _ => True end.

(** What the chain needs of a provider adapter. *)
Definition provider_post (pd : VideoPrompt) (gid : string) (a : Adapter) (s : Store)
    (o : outcome pyval) (s' : Store) (tr : list Event) : Prop :=
  marks tr = []
  /\ rec_status gid (Some (PStr "processing")) s'
  /\ (is_Some (s' !! gid) <-> is_Some (s !! gid))
  /\ (forall e, ~ interrupted e tr)
  /\ exists v, o = Ok v /\ (Py.truthy v = true -> url_source pd a v tr).

(** No answer of the outside world reports a finished video to any
    provider adapter. *)
Definition reports_nothing (resp : Response) : Prop :=
  luma_reported resp = None /\ replicate_reported resp = None
  /\ ~ huggingface_accepted resp.

(** No provider can be reached: every HTTP exchange raises. *)
Definition env_down : Env :=
  {| env_http := fun _ => Exc (OtherError "connection refused");
     env_sleep := fun _ => Ok tt;
     env_time := fun _ => 100%Q |}.

(** All three credentials set. *)
Definition cfg_all : Config :=
  {| LUMA_API_KEY := Some "luma_key"; REPLICATE_API_TOKEN := Some "r8_token";
     HUGGINGFACE_API_KEY := Some "hf_key";
     MAX_PROMPT_LENGTH := 500; VIDEO_TIMEOUT := 180 |}.

(** A store without the record of generation "g". *)
Definition w_empty : World :=
  {| store := ∅; n_http := 0; n_sleep := 0; n_time := 0 |}.

(** The record of "g" after Luma reported [luma_video] at the first poll. *)
Definition luma_done : pydict :=
  dict_update
    (<["progress" := PInt 90]>
       (<["progress" := PInt 75]>
          (<["progress" := PInt 50]>
             (<["progress" := PInt 25]>
                (dict_update (new_record 5 "CAT video")
                   [("status", PStr "processing"); ("progress", PInt 10)])))))
    [("status", PStr "completed"); ("progress", PInt 100);
     ("video_url", PStr luma_video); ("completed_at", PFloat 100)].

(** ** The polling loops, answer by answer *)

(** A poll answer on which Luma's adapter keeps polling: a status other than
    200, or a job that is neither completed nor failed. *)
Definition luma_waiting (resp : Response) : bool :=
  if status_code resp =? 200 then
    match json resp with
    | Ok (PDict d) =>
        negb (Py.eq_str (default PNone (d !! "state")) "completed")
        && negb (Py.eq_str (default PNone (d !! "state")) "failed")
    | _ => false
    end
  else true.

(** A poll answer that ends Luma's adapter, with what the adapter then
    returns: the true video of a completed job, or [None] for a failed job,
    for a completed job whose [assets] is not an object, and for a 200 answer
    whose body is not a JSON object. *)
Definition luma_decides (resp : Response) : option pyval :=
  if status_code resp =? 200 then
    match json resp with
    | Ok (PDict d) =>
        if Py.eq_str (default PNone (d !! "state")) "completed" then
          match d !! "assets" with
          | Some (PDict assets) =>
              match assets !! "video" with
              | Some v => if Py.truthy v then Some v else None
              | None => None
              end
          | Some _ => Some PNone
          | None => None
          end
        else if Py.eq_str (default PNone (d !! "state")) "failed" then Some PNone
        else None
    | _ => Some PNone
    end
  else None.

Definition replicate_waiting (resp : Response) : bool :=
  if status_code resp =? 200 then
    match json resp with
    | Ok (PDict d) =>
        negb (Py.eq_str (default PNone (d !! "status")) "succeeded")
        && negb (Py.eq_str (default PNone (d !! "status")) "failed")
    | _ => false
    end
  else true.

(** As for Luma; the video is the first element of a non-empty [output]
    list, whatever it is. *)
Definition replicate_decides (resp : Response) : option pyval :=
  if status_code resp =? 200 then
    match json resp with
    | Ok (PDict d) =>
        if Py.eq_str (default PNone (d !! "status")) "succeeded" then
          first_of_list (default PNone (d !! "output"))
        else if Py.eq_str (default PNone (d !! "status")) "failed" then Some PNone
        else None
    | _ => Some PNone
    end
  else None.

(** The world after [k] polls that changed nothing. *)
Definition after_polls (k : nat) (w : World) : World :=
  {| store := store w; n_http := n_http w + k; n_sleep := n_sleep w + k;
     n_time := n_time w |}.

(** The [k] polls that start at exchange [h] and sleep [z] are slept
    through and answered [waiting]. *)
Definition polls_wait (waiting : Response -> bool) (env : Env) (h z : nat)
    (k : nat) : Prop :=
  forall i, (i < k)%nat ->
    env_sleep env (z + i) = Ok tt
    /\ exists resp, env_http env (h + i) = Ok resp /\ waiting resp = true.

(** What a polling adapter returns once its block has ended with [o]. *)
Definition block_result (o : outcome (option pyval)) : pyval :=
  match o with
  | Ok r => default PNone r
  | Exc _ => PNone
  end.

(** Luma accepts the job, answers two polls with a job in progress and the
    third with the finished video. *)
Definition env_luma_third : Env :=
  {| env_http := fun n =>
       match n with
       | O => Ok resp_created
       | 1%nat | 2%nat => Ok resp_pending
       | _ => Ok resp_completed
       end;
     env_sleep := fun _ => Ok tt;
     env_time := fun _ => 100%Q |}.

(** Replicate reports the prediction succeeded, with an empty string as
    first output. *)
Definition resp_succeeded_empty : Response :=
  {| status_code := 200; content := [];
     json := Ok (PDict (list_to_map
               [("status", PStr "succeeded");
                ("output", PList [PStr ""; PStr "https://cdn.example/second.mp4"])])) |}.

Definition resp_starting : Response :=
  {| status_code := 200; content := [];
     json := Ok (PDict (list_to_map [("status", PStr "starting")])) |}.

(** Replicate accepts the prediction, reports it starting at the first poll
    and succeeded at the second. *)
Definition env_replicate_second : Env :=
  {| env_http := fun n =>
       match n with
       | O => Ok resp_created
       | 1%nat => Ok resp_starting
       | _ => Ok resp_succeeded_empty
       end;
     env_sleep := fun _ => Ok tt;
     env_time := fun _ => 100%Q |}.

(** A 200 answer of exactly 1000 bytes. *)
Definition resp_1000 : Response :=
  {| status_code := 200; content := repeat Byte.x00 1000;
     json := Exc (OtherError "not JSON") |}.

Definition env_1000 : Env :=
  {| env_http := fun _ => Ok resp_1000;
     env_sleep := fun _ => Ok tt;
     env_time := fun _ => 100%Q |}.

(** A store with the records of two generations. *)
Definition w_gh : World :=
  {| store := <["h" := new_record 7 "a dog in the street"]>
                (<["g" := new_record 5 "CAT video"]> ∅);
     n_http := 0; n_sleep := 0; n_time := 0 |}.

(** ** What a status record says, state by state *)

(** How far a record is in the state machine: queued, then processing,
    then one of the terminal states. *)
Definition rank (r : pydict) : nat :=
  if terminal r then 2
  else if has_status "processing" r then 1
  else 0.

(** The fields agree with the state: an unfinished record has neither
    video URL nor error; a completed one has progress 100, a true video
    URL, a completion time and no error; a failed one has progress 0, an
    error text and no video URL. *)
Definition record_full (r : pydict) : Prop :=
  (terminal r = false -> r !! "video_url" = None /\ r !! "error" = None)
  /\ (has_status "completed" r = true ->
      r !! "progress" = Some (PInt 100)
      /\ (exists v, r !! "video_url" = Some v /\ Py.truthy v = true)
      /\ (exists t, r !! "completed_at" = Some (PFloat t))
      /\ r !! "error" = None)
  /\ (has_status "failed" r = true ->
      r !! "progress" = Some (PInt 0)
      /\ (exists msg, r !! "error" = Some (PStr msg))
      /\ r !! "video_url" = None).

(** A write that, on a record that is not terminal, keeps the fields in
    agreement with the state and does not move the state backwards. *)
Definition write_ok (f : pydict -> pydict) : Prop :=
  forall r, record_ok r -> terminal r = false -> record_full r ->
            record_full (f r) /\ (rank r <= rank (f r))%nat.

Definition writes_ok (X : Type) (e : Eff X) : Prop :=
  match write_fun e with
  | Some (_, f) => write_ok f
  | None => True
  end.

(** [returns R p]: whatever [p] returns satisfies [R]. *)
Fixpoint returns {A} (R : A -> Prop) (p : Prog A) : Prop :=
  match p with
  | Ret a => R a
  | Raise _ => True
  | Vis e k => forall r, returns R (k r)
  end.

(** The invariant of the service, continued: every record has its fields
    in agreement with its state, and every write a task has left is a
    [write_ok] one. *)
Definition sys_full (x : Sys) : Prop :=
  sys_inv x
  /\ (forall gid r, sys_store x !! gid = Some r -> record_full r)
  /\ (forall gid p, sys_tasks x !! gid = Some p -> every_effect writes_ok p).


(** The record is queued or processing. *)
Definition unfinished (kv : string * pydict) : bool := negb (terminal kv.2).

(** Generation "g" is accepted at time 5, its task makes three steps, and
    DELETE /cleanup at time 90000 removes its record under it. *)
Definition ops_orphan : list Op :=
  OpGenerate body_cat "g" 5 :: repeat (OpResume "g" ch_ok) 3 ++ [OpCleanup 90000].

Definition x_orphan : Sys := default sys_init (sys_run cfg_none ops_orphan sys_init).

(** Generation "g" is accepted at time 5 and its task makes three steps. *)
Definition ops_started : list Op :=
  OpGenerate body_cat "g" 5 :: repeat (OpResume "g" ch_ok) 3.

Definition x_started : Sys := default sys_init (sys_run cfg_none ops_started sys_init).

(** The answer of GET /health with [n] active generations. *)
Definition health_answer (cfg : Config) (now : Q) (n : Z) : HealthResponse :=
  {| health_status := "healthy";
     timestamp := now;
     apis_available :=
       [("luma_dream_machine", configured (LUMA_API_KEY cfg));
        ("replicate", configured (REPLICATE_API_TOKEN cfg));
        ("huggingface", configured (HUGGINGFACE_API_KEY cfg));
        ("mock_fallback", true)];
     active_generations := n |}.

(** The answer of POST /generate-video to an accepted request. *)
Definition queued_answer (uuid : string) : VideoResponse :=
  {| vr_status := "queued";
     vr_generation_id := uuid;
     vr_message := "Video generation started using free AI APIs. Check status for progress.";
     vr_video_url := None;
     vr_processing_time := None |}.

(** ** GET /api-info *)

Record ApiInfo : Type := {
  description : string;
  free_tier : string;
  signup : string;
  available : bool
}.

(** The [free_apis] object of the answer, entry by entry. *)
Definition get_api_info (cfg : Config) : list (string * ApiInfo) :=
  [("luma_dream_machine",
    {| description := "High-quality text-to-video generation";
       free_tier := "30 generations per month";
       signup := "https://lumalabs.ai";
       available := configured (LUMA_API_KEY cfg) |});
   ("replicate",
    {| description := "Open-source models including AnimateDiff";
       free_tier := "Free credits for new users";
       signup := "https://replicate.com";
       available := configured (REPLICATE_API_TOKEN cfg) |});
   ("huggingface",
    {| description := "ModelScope and other text-to-video models";
       free_tier := "Rate-limited free inference";
       signup := "https://huggingface.co";
       available := configured (HUGGINGFACE_API_KEY cfg) |})].

(** The name under which /health and /api-info list an adapter. *)
Definition adapter_name (a : Adapter) : string :=
  match a with
  | Luma => "luma_dream_machine"
  | Replicate => "replicate"
  | HuggingFace => "huggingface"
  | Mock => "mock_fallback"
  end.

(** /api-info lists the API [name] as available. *)
Definition advertised (cfg : Config) (name : string) : Prop :=
  exists info, (name, info) ∈ get_api_info cfg /\ available info = true.

(** Every adapter the coroutine awaits satisfies [R]. *)
Definition awaits (R : Adapter -> Prop) (X : Type) (e : Eff X) : Prop :=
  match e with Note (Called a) => R a | _ => True end.

(** ** DELETE /cleanup on stores the service cannot reach *)

(** A record whose creation time is a string, beside an old record. *)
Definition s_bad_time : Store :=
  <["b" := <["created_at" := PStr "yesterday"]> (new_record 5 "x")]>
    (<["g" := new_record 5 "CAT video"]> ∅).

(** A record without creation time. *)
Definition s_no_time : Store :=
  <["n" := delete "created_at" (new_record 5 "x")]> ∅.

(** ** A task does not end before its record is terminal *)

(** [closes p]: on every path on which its writes succeed, [p] makes a
    terminal write before it returns or raises.  [closes_or_raises p]: the
    same, except that [p] may also raise first. *)
Fixpoint closes_or_raises {A} (p : Prog A) : Prop :=
  match p with
  | Ret _ => False
  | Raise _ => True
  | Vis e k =>
      match write_fun e with
      | Some (_, f) => terminal_write f \/ forall x, closes_or_raises (k (Ok x))
      | None => forall r, closes_or_raises (k r)
      end
  end.

Fixpoint closes {A} (p : Prog A) : Prop :=
  match p with
  | Ret _ | Raise _ => False
  | Vis e k =>
      match write_fun e with
      | Some (_, f) => terminal_write f \/ forall x, closes (k (Ok x))
      | None => forall r, closes (k r)
      end
  end.

(** Every record came with a task, and the task of a record that is not
    terminal has a terminal write ahead. *)
Definition sys_live (x : Sys) : Prop :=
  sys_inv x
  /\ dom (sys_store x) ⊆ dom (sys_tasks x)
  /\ (forall gid r p,
        sys_store x !! gid = Some r -> sys_tasks x !! gid = Some p ->
        terminal r = false -> closes p).

(** ** A task ends with its terminal write *)

(** [last_write p]: on every path, a terminal write of [p] that succeeds is
    the last thing [p] does before it returns.  [last_write_in_try p]: the
    same for the [try] block, whose handler then has nothing to catch. *)
Fixpoint last_write {A} (p : Prog A) : Prop :=
  match p with
  | Vis e k =>
      match write_fun e with
      | Some (_, f) =>
          (forall ex, last_write (k (Exc ex)))
          /\ ((nonterminal_write f /\ forall x, last_write (k (Ok x)))
              \/ (terminal_write f /\ forall x, exists a, k (Ok x) = Ret a))
      | None => forall r, last_write (k r)
      end
  | _ => True
  end.

(** Every write of [p] leaves a record that is not terminal as it is in
    that respect. *)
Fixpoint no_terminal_write {A} (p : Prog A) : Prop :=
  match p with
  | Vis e k =>
      match write_fun e with
      | Some (_, f) => nonterminal_write f /\ forall r, no_terminal_write (k r)
      | None => forall r, no_terminal_write (k r)
      end
  | _ => True
  end.

(** The task of a record that is terminal has returned. *)
Definition sys_done (x : Sys) : Prop :=
  sys_inv x
  /\ (forall gid p, sys_tasks x !! gid = Some p -> last_write p)
  /\ (forall gid r p,
        sys_store x !! gid = Some r -> sys_tasks x !! gid = Some p ->
        terminal r = true -> exists a, p = Ret a).

(** Two requests that differ in duration and style only. *)
Definition pd_cat_long : VideoPrompt :=
  {| prompt := "CAT video"; duration := Some 10; style := Some "anime" |}.

(** ** Lemmas on the calculus *)

Lemma wp_mono {A} (p : Prog A) s (Q Q' : outcome A -> Store -> list Event -> Prop) :
  (forall o s' tr, Q o s' tr -> Q' o s' tr) -> wp p s Q -> wp p s Q'.
Proof.
  revert s Q Q'. induction p as [a|e|X e k IH]; simpl; intros s Q Q' HQ Hwp; auto.
  intros c. eapply IH; [|apply Hwp]. simpl. auto.
Qed.

Lemma wp_bind {A B} (m : Prog A) (f : A -> Prog B) s Q :
  wp m s (fun o s1 tr1 =>
            match o with
            | Ok a => wp (f a) s1 (fun o' s2 tr2 => Q o' s2 (tr1 ++ tr2))
            | Exc e => Q (Exc e) s1 tr1
            end) ->
  wp (bind m f) s Q.
Proof.
  revert s Q. induction m as [a|e|X e k IH]; simpl; intros s Q Hwp.
  - eapply wp_mono; [|apply Hwp]. auto.
  - exact Hwp.
  - intros c. apply IH. eapply wp_mono; [|apply Hwp]. simpl.
    intros [a|e'] s' tr H; [|exact H].
    eapply wp_mono; [|apply H]. auto.
Qed.

Lemma wp_try_except {A} (body : Prog A) (handler : Exn -> Prog A) s Q :
  wp body s (fun o s1 tr1 =>
               match o with
               | Ok a => Q (Ok a) s1 tr1
               | Exc e => wp (handler e) s1 (fun o' s2 tr2 => Q o' s2 (tr1 ++ tr2))
               end) ->
  wp (try_except body handler) s Q.
Proof.
  revert s Q. induction body as [a|e|X e k IH]; simpl; intros s Q Hwp.
  - exact Hwp.
  - eapply wp_mono; [|apply Hwp]. auto.
  - intros c. apply IH. eapply wp_mono; [|apply Hwp]. simpl.
    intros [a|e'] s' tr H; [exact H|].
    eapply wp_mono; [|apply H]. auto.
Qed.

(** Adequacy: what [wp] promises holds of every run. *)
Lemma wp_run {A} (p : Prog A) (env : Env) (w : World) Q :
  wp p (store w) Q ->
  Q (run env p w).1.1 (store (run env p w).1.2) (run env p w).2.
Proof.
  revert w Q. induction p as [a|e|X e k IH]; simpl; intros w Q Hwp; auto.
  specialize (Hwp (choice_at env w)).
  destruct (handle e (choice_at env w) (store w)) as [[r s'] ev] eqn:Hh.
  simpl in Hwp.
  assert (Hs : store (advance e s' w) = s') by (destruct e; reflexivity).
  rewrite <- Hs in Hwp. apply IH in Hwp.
  destruct (run env (k r) (advance e s' w)) as [[res w'] tr]. exact Hwp.
Qed.

(** ** The adapters *)

Lemma wp_perform {X} (e : Eff X) s (Q : outcome X -> Store -> list Event -> Prop) :
  (forall c, Q (handle e c s).1.1 (handle e c s).1.2 [(handle e c s).2]) ->
  wp (perform e) s Q.
Proof. intros H c. simpl. specialize (H c). destruct (handle e c s) as [[[x|ex] s'] ev]; exact H. Qed.

Lemma wp_lift {A} (o : outcome A) s (Q : outcome A -> Store -> list Event -> Prop) :
  Q o s [] -> wp (lift o) s Q.
Proof. destruct o; simpl; auto. Qed.

Lemma wp_set_progress gid z s (Q : outcome unit -> Store -> list Event -> Prop) :
  (forall r, s !! gid = Some r ->
     Q (Ok tt) (<[gid := <["progress" := PInt z]> r]> s)
       [EvStore gid (Some (<["progress" := PInt z]> r))]) ->
  (s !! gid = None -> Q (Exc (KeyError gid)) s [EvStore gid None]) ->
  wp (set_progress gid z) s Q.
Proof.
  intros H1 H2. apply wp_perform. intros c. simpl. unfold store_write.
  destruct (s !! gid) as [r|] eqn:E; simpl; auto.
Qed.

Lemma marks_app tr1 tr2 : marks (tr1 ++ tr2) = marks tr1 ++ marks tr2.
Proof. apply omap_app. Qed.
Lemma snapshots_app tr1 tr2 : snapshots (tr1 ++ tr2) = snapshots tr1 ++ snapshots tr2.
Proof. apply omap_app. Qed.
Lemma responses_app tr1 tr2 : responses (tr1 ++ tr2) = responses tr1 ++ responses tr2.
Proof. apply omap_app. Qed.

Lemma climb_weaken st lo lo' rs hi hi' :
  lo' <= lo -> hi <= hi' -> climb st lo rs hi -> climb st lo' rs hi'.
Proof.
  revert lo lo'. induction rs as [|r rs IH]; simpl; intros lo lo' H1 H2 H; [lia|].
  destruct H as (z & Hp & Hs & Hz & Hc). exists z. repeat split; auto; [lia|].
  eapply IH; [| |exact Hc]; lia.
Qed.

Lemma climb_app st lo rs1 mid rs2 hi :
  climb st lo rs1 mid -> climb st mid rs2 hi -> climb st lo (rs1 ++ rs2) hi.
Proof.
  revert lo. induction rs1 as [|r rs IH]; simpl; intros lo H1 H2.
  - eapply climb_weaken; [| |exact H2]; lia.
  - destruct H1 as (z & Hp & Hs & Hz & Hc). exists z. repeat split; auto.
Qed.

Lemma climb_bounds st lo rs hi : climb st lo rs hi -> lo <= hi.
Proof.
  revert lo. induction rs as [|r rs IH]; simpl; intros lo H; [lia|].
  destruct H as (z & _ & _ & Hz & Hc). apply IH in Hc. lia.
Qed.

Lemma rec_status_set gid st z r s :
  rec_status gid st s -> s !! gid = Some r ->
  rec_status gid st (<[gid := <["progress" := PInt z]> r]> s)
  /\ (<["progress" := PInt z]> r : pydict) !! "status" = st
  /\ (<["progress" := PInt z]> r : pydict) !! "progress" = Some (PInt z).
Proof.
  intros H Hr. split; [|split].
  - intros r'. rewrite lookup_insert_eq. intros [= <-].
    rewrite lookup_insert_ne by discriminate. auto.
  - rewrite lookup_insert_ne by discriminate. auto.
  - apply lookup_insert_eq.
Qed.

Lemma reported_in_grows rep : grows (reported_in rep).
Proof.
  intros v ev tr H Hv. destruct (H Hv) as (resp & Hin & Hrep).
  exists resp. split; auto. unfold responses in *. simpl.
  destruct ev as [| ? [?|?] | | |]; simpl; auto. by apply list_elem_of_further.
Qed.

Lemma placeholder_in_grows : grows placeholder_in.
Proof.
  intros v ev tr H Hv. destruct (H Hv) as (-> & resp & Hin & Hacc).
  split; auto. exists resp. split; auto. unfold responses in *. simpl.
  destruct ev as [| ? [?|?] | | |]; simpl; auto. by apply list_elem_of_further.
Qed.

Lemma seg_post_cons gid st lo lo' R ev o s' tr :
  grows R -> marks [ev] = [] -> climb st lo (snapshots [ev]) lo' ->
  seg_post gid st lo' R o s' tr -> seg_post gid st lo R o s' (ev :: tr).
Proof.
  intros HR Hm Hc (Hm' & Hs & Hc' & Hr). unfold seg_post.
  change (ev :: tr) with ([ev] ++ tr).
  rewrite marks_app, snapshots_app, Hm, Hm'. split_and!; auto.
  - eapply climb_app; eauto.
  - destruct o as [[v|]|]; auto. by apply HR.
Qed.

Lemma seg_post_weaken gid st lo lo' R o s' tr :
  lo <= lo' -> seg_post gid st lo' R o s' tr -> seg_post gid st lo R o s' tr.
Proof.
  intros Hle (Hm & Hs & Hc & Hr). unfold seg_post. split_and!; auto.
  eapply climb_weaken; [| |exact Hc]; lia.
Qed.

Ltac climb_here :=
  simpl;
  first [ apply Z.le_refl
        | lia
        | eexists; split_and!;
          [eassumption|eassumption|lia|first [apply Z.le_refl|lia]] ].

Ltac climb_all :=
  simpl; repeat (eexists; split_and!; [eassumption|eassumption|lia|]); lia.

Ltac seg_done :=
  unfold seg_post; simpl; split_and!; auto; try congruence; try climb_all.

Ltac seg_again IH :=
  eapply wp_mono; [|apply IH; auto];
  intros ? ? ? ?; simpl;
  repeat (eapply seg_post_cons;
          [auto using reported_in_grows, placeholder_in_grows
          |reflexivity|climb_here|]);
  (eapply seg_post_weaken; [|eassumption]); lia.

Lemma luma_poll_wp gid n auth idl st s :
  rec_status gid st s ->
  wp (luma_poll gid n auth idl) s (seg_post gid st 90 (reported_in luma_reported)).
Proof.
  revert s. induction n as [|n IH]; intros s Hst.
  - simpl. seg_done.
  - cbn [luma_poll].
    apply wp_bind, wp_perform. intros c. cbn [handle fst snd].
    destruct (ch_sleep c) as [[]|e]; [|seg_done].
    apply wp_bind, wp_perform. intros c'. cbn [handle fst snd].
    destruct (ch_http c') as [resp|e]; [|seg_done].
    destruct (status_code resp =? 200) eqn:Hcode; [|seg_again IH].
    apply wp_bind, wp_lift.
    destruct (json resp) as [status_data|e] eqn:Hjson; [|seg_done].
    apply wp_bind, wp_lift.
    destruct (Py.get status_data "state" PNone) as [state|e] eqn:Hstate; [|seg_done].
    destruct status_data as [| | | | | |d]; try discriminate.
    simpl in Hstate. injection Hstate as <-.
    destruct (Py.eq_str _ "completed") eqn:Hcompleted.
    2:{ destruct (Py.eq_str _ "failed"); [seg_done|seg_again IH]. }
    apply wp_bind, wp_set_progress; [|intros _; seg_done].
    intros r Hr. destruct (rec_status_set gid st 90 r s Hst Hr) as (Hst' & Hs90 & Hp90).
    apply wp_bind, wp_lift. simpl Py.get.
    apply wp_bind, wp_lift.
    destruct (Py.get _ "video" PNone) as [video_url|e] eqn:Hvideo; [|seg_done].
    destruct (Py.truthy video_url) eqn:Htruthy; [|seg_again IH].
    seg_done.
    intros _. exists resp. split; [apply list_elem_of_here|].
    unfold luma_reported. rewrite Hcode, Hjson, Hcompleted.
    destruct (d !! "assets") as [assets|]; simpl in Hvideo.
    + destruct assets; try discriminate. simpl in Hvideo.
      injection Hvideo as <-. destruct (d0 !! "video"); [done|discriminate].
    + injection Hvideo as <-. rewrite lookup_empty in Htruthy. discriminate.
Qed.

Lemma replicate_poll_wp gid n auth pid st s :
  rec_status gid st s ->
  wp (replicate_poll gid n auth pid) s (seg_post gid st 90 (reported_in replicate_reported)).
Proof.
  revert s. induction n as [|n IH]; intros s Hst.
  - simpl. seg_done.
  - cbn [replicate_poll].
    apply wp_bind, wp_perform. intros c. cbn [handle fst snd].
    destruct (ch_sleep c) as [[]|e]; [|seg_done].
    apply wp_bind, wp_perform. intros c'. cbn [handle fst snd].
    destruct (ch_http c') as [resp|e]; [|seg_done].
    destruct (status_code resp =? 200) eqn:Hcode; [|seg_again IH].
    apply wp_bind, wp_lift.
    destruct (json resp) as [status_data|e] eqn:Hjson; [|seg_done].
    apply wp_bind, wp_lift.
    destruct (Py.get status_data "status" PNone) as [state|e] eqn:Hstate; [|seg_done].
    destruct status_data as [| | | | | |d]; try discriminate.
    simpl in Hstate. injection Hstate as <-.
    destruct (Py.eq_str _ "succeeded") eqn:Hcompleted.
    2:{ destruct (Py.eq_str _ "failed"); [seg_done|seg_again IH]. }
    apply wp_bind, wp_set_progress; [|intros _; seg_done].
    intros r Hr. destruct (rec_status_set gid st 90 r s Hst Hr) as (Hst' & Hs90 & Hp90).
    apply wp_bind, wp_lift. cbn [Py.get].
    destruct (first_of_list (from_option id PNone (d !! "output")))
      as [video_url|] eqn:Hfirst; [|seg_again IH].
    seg_done.
    intros _. exists resp. split; [apply list_elem_of_here|].
    unfold replicate_reported. rewrite Hcode, Hjson, Hcompleted.
    destruct (d !! "output") as [output|]; simpl in Hfirst; [done|discriminate].
Qed.

Lemma wp_guarded gid st lo (R : pyval -> list Event -> Prop)
    (body : Prog (option pyval)) s :
  (forall tr, R PNone tr) ->
  wp body s (seg_post gid st lo R) ->
  wp (r <- try_except body (fun _ => Ret None) ;; Ret (default PNone r)) s
     (adapter_post gid st lo R).
Proof.
  intros HR H. apply wp_bind, wp_try_except. eapply wp_mono; [|exact H].
  intros o s1 tr (Hm & Hs & Hc & Hr).
  destruct o as [[v|]|e]; simpl; rewrite ?app_nil_r;
    unfold adapter_post; split_and!; eauto.
Qed.

Lemma reported_in_none rep tr : reported_in rep PNone tr.
Proof. intros H. congruence. Qed.

Lemma placeholder_in_none tr : placeholder_in PNone tr.
Proof. intros H. congruence. Qed.

Lemma adapter_post_skip gid st lo R s :
  lo <= 90 -> (forall tr, R PNone tr) -> rec_status gid st s ->
  adapter_post gid st lo R (Ok PNone) s [].
Proof. intros. unfold adapter_post. simpl. split_and!; eauto. Qed.

Lemma luma_wp cfg gid pd st s :
  rec_status gid st s ->
  wp (generate_with_luma_dream_machine cfg gid pd) s
     (adapter_post gid st 25 (reported_in luma_reported)).
Proof.
  intros Hst. unfold generate_with_luma_dream_machine.
  destruct (negb _).
  { simpl. apply adapter_post_skip; auto using reported_in_none. lia. }
  apply wp_guarded; [apply reported_in_none|].
  apply wp_bind, wp_set_progress; [|intros _; seg_done].
  intros r25 Hr25.
  destruct (rec_status_set gid st 25 _ _ Hst Hr25) as (Hst25 & Hs25 & Hp25).
  apply wp_bind, wp_set_progress;
    [|rewrite lookup_insert_eq; discriminate].
  intros r50 Hr50.
  destruct (rec_status_set gid st 50 _ _ Hst25 Hr50) as (Hst50 & Hs50 & Hp50).
  apply wp_bind, wp_perform. intros c. cbn [handle fst snd].
  destruct (ch_http c) as [response|e]; [|seg_done].
  destruct (status_code response =? 201); [|seg_done].
  apply wp_bind, wp_lift. destruct (json response) as [result|e]; [|seg_done].
  apply wp_bind, wp_lift.
  destruct (Py.get result "id" PNone) as [generation_id_luma|e]; [|seg_done].
  apply wp_bind, wp_set_progress;
    [|rewrite lookup_insert_eq; discriminate].
  intros r75 Hr75.
  destruct (rec_status_set gid st 75 _ _ Hst50 Hr75) as (Hst75 & Hs75 & Hp75).
  seg_again (luma_poll_wp gid 30%nat (bearer (LUMA_API_KEY cfg))
               generation_id_luma st).
Qed.

Lemma replicate_wp cfg gid pd st s :
  rec_status gid st s ->
  wp (generate_with_replicate cfg gid pd) s
     (adapter_post gid st 35 (reported_in replicate_reported)).
Proof.
  intros Hst. unfold generate_with_replicate.
  destruct (negb _).
  { simpl. apply adapter_post_skip; auto using reported_in_none. lia. }
  apply wp_guarded; [apply reported_in_none|].
  apply wp_bind, wp_set_progress; [|intros _; seg_done].
  intros r35 Hr35.
  destruct (rec_status_set gid st 35 _ _ Hst Hr35) as (Hst35 & Hs35 & Hp35).
  apply wp_bind, wp_set_progress;
    [|rewrite lookup_insert_eq; discriminate].
  intros r55 Hr55.
  destruct (rec_status_set gid st 55 _ _ Hst35 Hr55) as (Hst55 & Hs55 & Hp55).
  apply wp_bind, wp_perform. intros c. cbn [handle fst snd].
  destruct (ch_http c) as [response|e]; [|seg_done].
  destruct (status_code response =? 201); [|seg_done].
  apply wp_bind, wp_lift. destruct (json response) as [result|e]; [|seg_done].
  apply wp_bind, wp_lift.
  destruct (Py.get result "id" PNone) as [prediction_id|e]; [|seg_done].
  apply wp_bind, wp_set_progress;
    [|rewrite lookup_insert_eq; discriminate].
  intros r75 Hr75.
  destruct (rec_status_set gid st 75 _ _ Hst55 Hr75) as (Hst75 & Hs75 & Hp75).
  seg_again (replicate_poll_wp gid 20%nat (token (REPLICATE_API_TOKEN cfg))
               prediction_id st).
Qed.

Lemma huggingface_wp cfg gid pd st s :
  rec_status gid st s ->
  wp (generate_with_huggingface cfg gid pd) s
     (adapter_post gid st 40 placeholder_in).
Proof.
  intros Hst. unfold generate_with_huggingface.
  destruct (negb _).
  { simpl. apply adapter_post_skip; auto using placeholder_in_none. lia. }
  apply wp_guarded; [apply placeholder_in_none|].
  apply wp_bind, wp_set_progress; [|intros _; seg_done].
  intros r40 Hr40.
  destruct (rec_status_set gid st 40 _ _ Hst Hr40) as (Hst40 & Hs40 & Hp40).
  apply wp_bind, wp_set_progress;
    [|rewrite lookup_insert_eq; discriminate].
  intros r65 Hr65.
  destruct (rec_status_set gid st 65 _ _ Hst40 Hr65) as (Hst65 & Hs65 & Hp65).
  apply wp_bind, wp_perform. intros c. cbn [handle fst snd].
  destruct (ch_http c) as [response|e]; [|seg_done].
  apply wp_bind, wp_set_progress;
    [|rewrite lookup_insert_eq; discriminate].
  intros r85 Hr85.
  destruct (rec_status_set gid st 85 _ _ Hst65 Hr85) as (Hst85 & Hs85 & Hp85).
  destruct (status_code response =? 200) eqn:Hcode; [|seg_done].
  destruct (Z.of_nat (length (content response)) >? 1000) eqn:Hlen; [|seg_done].
  seg_done. intros _. split; [reflexivity|].
  exists response. split; [apply list_elem_of_here|].
  split; [by apply Z.eqb_eq|]. by apply Z.gtb_lt.
Qed.

Lemma mock_wp gid pd st s :
  rec_status gid st s ->
  wp (generate_enhanced_mock_video gid pd) s (mock_post gid st (prompt pd)).
Proof.
  intros Hst. unfold generate_enhanced_mock_video.
  apply wp_bind, wp_set_progress;
    [|intros _; unfold mock_post; simpl; split_and!; auto; [lia|congruence]].
  intros r60 Hr60.
  destruct (rec_status_set gid st 60 _ _ Hst Hr60) as (Hst60 & Hs60 & Hp60).
  apply wp_bind, wp_perform. intros c. cbn [handle fst snd].
  destruct (ch_sleep c) as [[]|e];
    [|unfold mock_post; simpl; split_and!; auto; [climb_all|congruence]].
  apply wp_bind, wp_set_progress;
    [|rewrite lookup_insert_eq; discriminate].
  intros r80 Hr80.
  destruct (rec_status_set gid st 80 _ _ Hst60 Hr80) as (Hst80 & Hs80 & Hp80).
  apply wp_bind, wp_perform. intros c'. cbn [handle fst snd].
  destruct (ch_sleep c') as [[]|e];
    unfold mock_post; simpl; split_and!; auto; try climb_all; congruence.
Qed.

(** ** The orchestrator *)

Lemma calls_app tr1 tr2 : calls (tr1 ++ tr2) = calls tr1 ++ calls tr2.
Proof. apply omap_app. Qed.

Lemma calls_no_marks tr : marks tr = [] -> calls tr = [].
Proof.
  induction tr as [|ev tr IH]; [done|].
  destruct ev as [| | | |m]; simpl; auto. discriminate.
Qed.

Lemma rising_weaken lo lo' rs : lo' <= lo -> rising lo rs -> rising lo' rs.
Proof. destruct rs; simpl; [done|]. intros ? [? ?]. split; [lia|done]. Qed.

Lemma climb_rising st lo rs hi rs2 :
  climb st lo rs hi -> rising hi rs2 -> rising lo (rs ++ rs2).
Proof.
  revert lo. induction rs as [|r rs IH]; simpl; intros lo H H2.
  - eapply rising_weaken; [exact H|exact H2].
  - destruct H as (z & Hp & _ & Hz & Hc). unfold progress_int at 1 2. rewrite Hp.
    split; [done|]. by apply IH.
Qed.

Lemma climb_in_range st lo rs hi :
  0 <= lo -> hi <= 100 -> climb st lo rs hi -> Forall progress_in_range rs.
Proof.
  revert lo. induction rs as [|r rs IH]; simpl; intros lo Hlo Hhi H; [constructor|].
  destruct H as (z & Hp & _ & Hz & Hc). pose proof (climb_bounds _ _ _ _ Hc).
  constructor; [exists z; split; [done|lia]|]. eapply IH; [| |exact Hc]; lia.
Qed.

Lemma climb_not_failed lo rs hi :
  climb (Some (PStr "processing")) lo rs hi -> Forall not_failed rs.
Proof.
  revert lo. induction rs as [|r rs IH]; simpl; intros lo H; [constructor|].
  destruct H as (z & _ & Hs & _ & Hc). constructor; [|by eapply IH].
  unfold not_failed, has_status. by rewrite Hs.
Qed.

Lemma wp_await a (m : Prog pyval) s (Q : outcome pyval -> Store -> list Event -> Prop) :
  wp m s (fun o s1 tr1 =>
            match o with
            | Ok v => Q (Ok v) s1
                        (EvMark (Called a) :: tr1 ++ [EvMark (Returned a v)])
            | Exc e => Q (Exc e) s1 (EvMark (Called a) :: tr1)
            end) ->
  wp (await a m) s Q.
Proof.
  intros H. unfold await. apply wp_bind, wp_perform. intros c. cbn [handle fst snd].
  apply wp_bind. eapply wp_mono; [|exact H]. intros [v|e] s1 tr1 HQ; [|exact HQ].
  apply wp_bind, wp_perform. intros c'. cbn [handle fst snd]. simpl.
  exact HQ.
Qed.

Lemma rec_status_update gid (r : pydict) kvs st s :
  s !! gid = Some r -> dict_update r kvs !! "status" = st ->
  rec_status gid st (<[gid := dict_update r kvs]> s).
Proof. intros _ H r'. rewrite lookup_insert_eq. by intros [= <-]. Qed.

(** The last two statements of the [try] block. *)
Lemma finish_wp gid v s :
  wp (now <- perform TimeTime ;;
      perform (Update gid [("status", PStr "completed"); ("progress", PInt 100);
                           ("video_url", v); ("completed_at", PFloat now)])) s
     (fun o s' tr =>
        marks tr = []
        /\ Forall progress_in_range (snapshots tr)
        /\ Forall not_failed (snapshots tr)
        /\ forall lo, lo <= 100 -> rising lo (snapshots tr)).
Proof.
  apply wp_bind, wp_perform. intros c. cbn [handle fst snd].
  apply wp_perform. intros c'. cbn [handle]. unfold store_write.
  destruct (s !! gid) as [r|]; simpl.
  - split_and!; auto.
    + constructor; [|constructor]. exists 100. split; [|lia].
      by rewrite lookup_insert_ne, lookup_insert_ne, lookup_insert_eq.
    + constructor; [|constructor]. unfold not_failed, has_status.
      by rewrite lookup_insert_ne, lookup_insert_ne, lookup_insert_ne, lookup_insert_eq.
    + intros lo Hlo. split; [|done]. unfold progress_int.
      by rewrite lookup_insert_ne, lookup_insert_ne, lookup_insert_eq.
  - split_and!; auto.
Qed.

Lemma body_post_called a ps v0 v o s' tr1 tr2 lo :
  Py.truthy v0 = false -> 10 <= lo ->
  marks tr1 = [] -> climb (Some (PStr "processing")) lo (snapshots tr1) 90 ->
  body_post ps v o s' tr2 ->
  body_post (a :: ps) v0 o s'
    ((EvMark (Called a) :: tr1 ++ [EvMark (Returned a v)]) ++ tr2).
Proof.
  intros Hv0 Hlo Hm Hc (Hchain & Hrange & Hnf & Hcalled & Hnone & Hone).
  pose proof (climb_bounds _ _ _ _ Hc) as Hb.
  assert (Hcalls : calls ((EvMark (Called a) :: tr1 ++ [EvMark (Returned a v)]) ++ tr2)
                   = a :: calls tr2).
  { simpl. rewrite !calls_app, (calls_no_marks tr1) by done. reflexivity. }
  assert (Hsnaps : snapshots ((EvMark (Called a) :: tr1 ++ [EvMark (Returned a v)]) ++ tr2)
                   = snapshots tr1 ++ snapshots tr2).
  { simpl. rewrite !snapshots_app. simpl. by rewrite app_nil_r. }
  unfold body_post. rewrite Hcalls, Hsnaps. split_and!.
  - unfold chain_from in *. rewrite Hv0. simpl.
    rewrite !marks_app, Hm. simpl.
    destruct (Py.truthy v) eqn:Hv.
    + rewrite Hchain. by apply chain_hit.
    + by apply chain_miss.
  - apply Forall_app. split; [|done]. eapply climb_in_range; [| |exact Hc]; lia.
  - apply Forall_app. split; [|done]. by eapply climb_not_failed.
  - done.
  - done.
  - simpl. intros Hlen. assert (Hnil : calls tr2 = []).
    { destruct (calls tr2); [done|simpl in Hlen; lia]. }
    eapply rising_weaken; [exact Hlo|]. eapply climb_rising; [exact Hc|].
    apply Hnone; [done|lia].
Qed.

Lemma body_post_skip ps ps' v o s' tr :
  (Py.truthy v = false -> ps' = ps) ->
  body_post ps v o s' tr -> body_post ps' v o s' tr.
Proof.
  intros Hps (Hchain & H). split; [|exact H].
  unfold chain_from in *. destruct (Py.truthy v); [done|]. by rewrite Hps.
Qed.

Lemma stage_wp gid (key_ok : bool) a (m : Prog pyval) lo R v0
    (rest : pyval -> Prog unit) ps s :
  10 <= lo ->
  (forall s', rec_status gid (Some (PStr "processing")) s' ->
              wp m s' (adapter_post gid (Some (PStr "processing")) lo R)) ->
  (forall v s', rec_status gid (Some (PStr "processing")) s' -> wp (rest v) s' (body_post ps v)) ->
  rec_status gid (Some (PStr "processing")) s ->
  wp (v <- (if negb (Py.truthy v0) && key_ok then await a m else Ret v0) ;; rest v) s
     (body_post ((if key_ok then [a] else []) ++ ps) v0).
Proof.
  intros Hlo Hm Hrest Hst. apply wp_bind.
  destruct (Py.truthy v0) eqn:Hv0; simpl negb; cbn [andb].
  { simpl. eapply wp_mono; [|by apply Hrest]. intros o s' tr.
    apply body_post_skip. congruence. }
  destruct key_ok.
  2:{ simpl. eapply wp_mono; [|by apply Hrest]. intros o s' tr. done. }
  apply wp_await. eapply wp_mono; [|by apply Hm].
  intros o s1 tr1 (Hmarks & Hst1 & Hclimb & v & -> & _).
  eapply wp_mono; [|by apply Hrest]. intros o s2 tr2 Hpost.
  by eapply body_post_called.
Qed.

Lemma wp_ret {A} (a : A) s (Q : outcome A -> Store -> list Event -> Prop) :
  Q (Ok a) s [] -> wp (Ret a) s Q.
Proof. done. Qed.

Lemma tail_wp gid pd v0 s :
  rec_status gid (Some (PStr "processing")) s ->
  wp (video_url <- (if negb (Py.truthy v0)
                    then await Mock (generate_enhanced_mock_video gid pd)
                    else Ret v0) ;;
      now <- perform TimeTime ;;
      perform (Update gid [("status", PStr "completed"); ("progress", PInt 100);
                           ("video_url", video_url); ("completed_at", PFloat now)])) s
     (body_post [] v0).
Proof.
  intros Hst. apply wp_bind. destruct (Py.truthy v0) eqn:Hv0; simpl negb; cbv iota.
  { apply wp_ret. eapply wp_mono; [|apply finish_wp].
    intros o s' tr (Hm & Hrange & Hnf & Hrise). simpl.
    unfold body_post, chain_from. rewrite Hv0, (calls_no_marks tr) by done.
    split_and!; auto. intros _. apply Hrise. lia. }
  apply wp_await. eapply wp_mono; [|by apply mock_wp].
  intros o s1 tr1 (Hmarks & Hst1 & Hclimb & Hv).
  assert (Hcl := climb_weaken _ _ 60 _ _ 90 (Z.le_refl _) (Z.le_refl _) Hclimb).
  destruct o as [v|e].
  - eapply wp_mono; [|apply finish_wp].
    intros o s2 tr2 (Hm & Hrange & Hnf & Hrise).
    assert (Hcalls : calls ((EvMark (Called Mock) :: tr1 ++ [EvMark (Returned Mock v)]) ++ tr2)
                     = [Mock]).
    { simpl. rewrite !calls_app, (calls_no_marks tr1), (calls_no_marks tr2) by done.
      reflexivity. }
    assert (Hsnaps : snapshots ((EvMark (Called Mock) :: tr1 ++ [EvMark (Returned Mock v)]) ++ tr2)
                     = snapshots tr1 ++ snapshots tr2).
    { simpl. rewrite !snapshots_app. simpl. by rewrite app_nil_r. }
    unfold body_post. rewrite Hcalls, Hsnaps. split_and!; try done.
    + unfold chain_from. rewrite Hv0. simpl. rewrite !marks_app, Hmarks, Hm. simpl.
      apply chain_mock.
    + apply Forall_app. split; [|done]. eapply climb_in_range; [| |exact Hclimb]; lia.
    + apply Forall_app. split; [|done]. by eapply climb_not_failed.
    + intros _. eapply rising_weaken with (lo := 60); [lia|].
      eapply climb_rising; [exact Hclimb|]. apply Hrise. lia.
  - assert (Hcalls : calls (EvMark (Called Mock) :: tr1) = [Mock]).
    { simpl. by rewrite (calls_no_marks tr1). }
    unfold body_post. rewrite Hcalls. change (snapshots (EvMark (Called Mock) :: tr1))
      with (snapshots tr1). split_and!; try done.
    + unfold chain_from. rewrite Hv0. simpl. rewrite Hmarks. apply chain_mock_raised.
    + eapply climb_in_range; [| |exact Hclimb]; lia.
    + by eapply climb_not_failed.
    + intros _. eapply rising_weaken with (lo := 60); [lia|].
      rewrite <- (app_nil_r (snapshots tr1)). eapply climb_rising; [exact Hclimb|done].
Qed.

Lemma filter_all_not_failed rs : Forall not_failed rs -> filter not_failed rs = rs.
Proof.
  induction 1 as [|r rs Hr _ IH]; [done|].
  rewrite filter_cons_True by done. by rewrite IH.
Qed.

Lemma process_wp cfg gid pd s r :
  s !! gid = Some r ->
  wp (process_video_generation cfg gid pd) s (task_post cfg).
Proof.
  intros Hr. unfold process_video_generation, process_body.
  apply wp_try_except, wp_bind, wp_perform. intros c.
  cbn [handle]. unfold store_write. rewrite Hr. cbn [fst snd].
  set (r10 := dict_update r [("status", PStr "processing"); ("progress", PInt 10)]).
  assert (Hs10 : r10 !! "status" = Some (PStr "processing")).
  { unfold r10. simpl. by rewrite lookup_insert_ne, lookup_insert_eq. }
  assert (Hp10 : r10 !! "progress" = Some (PInt 10)).
  { unfold r10. simpl. by rewrite lookup_insert_eq. }
  assert (Hst : rec_status gid (Some (PStr "processing")) (<[gid := r10]> s)).
  { by apply rec_status_update. }
  change (configured (LUMA_API_KEY cfg))
    with (negb (Py.truthy PNone) && configured (LUMA_API_KEY cfg)).
  eapply wp_mono.
  2:{ eapply (stage_wp gid _ Luma _ 25); [lia|intros; by apply luma_wp| |exact Hst].
      intros v1 s1 Hs1.
      eapply (stage_wp gid _ Replicate _ 35); [lia|intros; by apply replicate_wp| |exact Hs1].
      intros v2 s2 Hs2.
      eapply (stage_wp gid _ HuggingFace _ 40); [lia|intros; by apply huggingface_wp| |exact Hs2].
      intros v3 s3 Hs3. by apply tail_wp. }
  cbv beta. rewrite app_nil_r.
  change ((if configured (LUMA_API_KEY cfg) then [Luma] else []) ++
          (if configured (REPLICATE_API_TOKEN cfg) then [Replicate] else []) ++
          (if configured (HUGGINGFACE_API_KEY cfg) then [HuggingFace] else []))
    with (providers cfg).
  intros o s' tr (Hchain & Hrange & Hnf & _ & _ & Hone).
  assert (Hr10 : progress_in_range r10) by (exists 10; split; [done|lia]).
  assert (Hnf10 : not_failed r10) by (unfold not_failed, has_status; by rewrite Hs10).
  assert (Hp : progress_int r10 = 10) by (unfold progress_int; by rewrite Hp10).
  destruct o as [[]|e].
  - unfold task_post. simpl. split_and!; auto.
    intros Hlen. rewrite filter_cons_True, filter_all_not_failed by done.
    simpl. rewrite Hp. split; [lia|]. by apply Hone.
  - apply wp_perform. intros c'. cbn [handle]. unfold store_write.
    destruct (s' !! gid) as [r'|]; cbn [fst snd].
    + unfold task_post. simpl.
      rewrite marks_app, snapshots_app, calls_app. simpl. rewrite !app_nil_r.
      split_and!; auto.
      * constructor; [done|]. apply Forall_app. split; [done|].
        constructor; [|constructor]. exists 0. split; [|lia].
        by rewrite lookup_insert_ne, lookup_insert_eq.
      * intros Hlen. rewrite filter_cons_True, filter_app, filter_all_not_failed by done.
        rewrite filter_cons_False, filter_nil, app_nil_r.
        { simpl. rewrite Hp. split; [lia|]. by apply Hone. }
        unfold not_failed, has_status.
        by rewrite lookup_insert_ne, lookup_insert_ne, lookup_insert_eq.
    + unfold task_post. simpl.
      rewrite marks_app, snapshots_app, calls_app. simpl. rewrite !app_nil_r.
      split_and!; auto.
      intros Hlen. rewrite filter_cons_True, filter_all_not_failed by done.
      simpl. rewrite Hp. split; [lia|]. by apply Hone.
Qed.

(** ** Discipline and invariant *)

Lemma disciplined_bind {A B} gid ph (m : Prog A) (f : A -> Prog B) :
  may_write ph ->
  disciplined gid Mild m -> (forall a, disciplined gid ph (f a)) ->
  disciplined gid ph (bind m f).
Proof.
  intros Hph. induction m as [a|e|X e k IH]; simpl; intros Hm Hf; auto.
  - destruct Hph as [-> | [-> | ->]]; discriminate.
  - destruct (write_fun e) as [[g w]|]; [|by auto].
    destruct Hm as (-> & Hfr & _ & Hex & [[Hnt Hok]|[_ (ph' & Hph' & _)]]);
      [|discriminate].
    split_and!; auto.
Qed.

Lemma disciplined_try_mild {A} gid (b : Prog A) (h : Exn -> Prog A) :
  disciplined gid Mild b -> (forall e, disciplined gid Mild (h e)) ->
  disciplined gid Mild (try_except b h).
Proof.
  induction b as [a|e|X e k IH]; simpl; intros Hb Hh; auto.
  destruct (write_fun e) as [[g w]|]; [|by auto].
  destruct Hb as (-> & Hfr & Hw & Hex & [[Hnt Hok]|[_ (ph' & Hph' & _)]]);
    [|discriminate].
  split_and!; auto.
Qed.

Lemma strict_try_quiet {A} gid (b : Prog A) (h : Exn -> Prog A) :
  disciplined gid Strict b -> disciplined gid Quiet (try_except b h).
Proof.
  induction b as [a|e|X e k IH]; simpl; intros Hb; auto; try done.
  destruct (write_fun e) as [[g w]|]; [|by auto].
  destruct Hb as (_ & _ & [?|[?|?]] & _); discriminate.
Qed.

Lemma disciplined_try_top {A} gid (b : Prog A) (h : Exn -> Prog A) :
  disciplined gid InTry b -> (forall e, disciplined gid Top (h e)) ->
  disciplined gid Top (try_except b h).
Proof.
  induction b as [a|e|X e k IH]; simpl; intros Hb Hh; auto.
  destruct (write_fun e) as [[g w]|]; [|by auto].
  destruct Hb as (-> & Hfr & _ & Hex & [[Hnt Hok]|[Ht (ph' & Hph' & Hok)]]).
  - split_and!; auto. unfold may_write; auto.
  - injection Hph' as <-. split_and!; auto; [unfold may_write; auto|].
    right. split; [done|]. exists Quiet. split; [done|].
    intros x. by apply strict_try_quiet.
Qed.

Lemma quiet_top {A} gid (p : Prog A) :
  disciplined gid Quiet p -> disciplined gid Top p.
Proof.
  induction p as [a|e|X e k IH]; simpl; intros Hp; auto; try done.
  destruct (write_fun e) as [[g w]|]; [|by auto].
  destruct Hp as (_ & _ & [?|[?|?]] & _); discriminate.
Qed.

Lemma mild_in_try {A} gid (p : Prog A) :
  disciplined gid Mild p -> disciplined gid InTry p.
Proof.
  induction p as [a|e|X e k IH]; simpl; intros Hp; auto; try done.
  destruct (write_fun e) as [[g w]|]; [|by auto].
  destruct Hp as (-> & Hfr & _ & Hex & [[Hnt Hok]|[_ (ph' & Hph' & _)]]);
    [|discriminate].
  split_and!; auto. unfold may_write; auto.
Qed.

Lemma frame_setitem key v : key ∈ touched -> frame (fun r => <[key := v]> r).
Proof.
  intros Hk r key' Hk'. rewrite lookup_insert_ne; [done|]. by intros ->.
Qed.

Lemma frame_update kvs : Forall (fun kv => kv.1 ∈ touched) kvs -> frame (fun r => dict_update r kvs).
Proof.
  intros Hall r key Hk. unfold dict_update. revert r.
  induction Hall as [|[k v] kvs Hkv _ IH]; intros r; simpl; [done|].
  rewrite IH. simpl in Hkv. rewrite lookup_insert_ne; [done|]. by intros ->.
Qed.

Lemma record_ok_no_url (r : pydict) :
  record_ok r -> terminal r = false -> r !! "video_url" = None.
Proof.
  intros (_ & _ & _ & _ & Hurl) Ht. destruct (r !! "video_url") eqn:E; [|done].
  unfold terminal in Ht. rewrite Hurl in Ht; [discriminate|done].
Qed.

Ltac lookups :=
  repeat first [rewrite lookup_insert_eq | rewrite lookup_insert_ne by done].

Ltac in_list :=
  repeat first [apply list_elem_of_here | apply list_elem_of_further].

Lemma nonterminal_progress z :
  0 <= z <= 100 -> nonterminal_write (fun r => <["progress" := PInt z]> r).
Proof.
  intros Hz r (Hc & Hp & Hs & Hr & Hu) Ht. split.
  - unfold record_ok, progress_in_range, has_status. lookups.
    split_and!; eauto.
  - unfold terminal, has_status in *. by lookups.
Qed.

Lemma nonterminal_processing :
  nonterminal_write
    (fun r => dict_update r [("status", PStr "processing"); ("progress", PInt 10)]).
Proof.
  intros r Hok Ht. pose proof (record_ok_no_url r Hok Ht) as Hno.
  destruct Hok as (Hc & Hp & Hs & Hr & Hu). simpl. split.
  - unfold record_ok, progress_in_range, has_status. lookups.
    split_and!; eauto; try congruence;
      (eexists; split; [reflexivity|]; first [lia | unfold states; in_list]).
  - unfold terminal, has_status. by lookups.
Qed.

Lemma terminal_completed v now :
  terminal_write
    (fun r => dict_update r [("status", PStr "completed"); ("progress", PInt 100);
                             ("video_url", v); ("completed_at", PFloat now)]).
Proof.
  intros r (Hc & Hp & Hs & Hr & Hu) Ht. simpl. split.
  - unfold record_ok, progress_in_range, has_status. lookups.
    split_and!; eauto; try congruence;
      (eexists; split; [reflexivity|]; first [lia | unfold states; in_list]).
  - unfold terminal, has_status. by lookups.
Qed.

Lemma terminal_failed msg :
  terminal_write
    (fun r => dict_update r [("status", PStr "failed"); ("progress", PInt 0);
                             ("error", PStr msg)]).
Proof.
  intros r Hok Ht. pose proof (record_ok_no_url r Hok Ht) as Hno.
  destruct Hok as (Hc & Hp & Hs & Hr & Hu). simpl. split.
  - unfold record_ok, progress_in_range, has_status. lookups.
    split_and!; eauto; try congruence;
      (eexists; split; [reflexivity|]; first [lia | unfold states; in_list]).
  - unfold terminal, has_status. by lookups.
Qed.

Lemma disciplined_perform {X} gid ph (e : Eff X) :
  write_fun e = None -> ph <> Strict -> disciplined gid ph (perform e).
Proof. intros He Hph. simpl. rewrite He. intros [x|ex]; simpl; auto. Qed.

Lemma disciplined_lift {A} gid ph (o : outcome A) :
  ph <> Strict -> disciplined gid ph (lift o).
Proof. destruct o; simpl; auto. Qed.

Lemma disciplined_set_progress gid z :
  0 <= z <= 100 -> disciplined gid Mild (set_progress gid z).
Proof.
  intros Hz. simpl. split_and!; auto.
  - apply frame_setitem. unfold touched. in_list.
  - unfold may_write; auto.
  - left. split; [by apply nonterminal_progress|]. by intros [].
Qed.

Ltac mild_step :=
  first
    [ apply disciplined_bind; [unfold may_write; auto| |intros ?]
    | apply disciplined_set_progress; lia
    | apply disciplined_perform; [reflexivity|discriminate]
    | apply disciplined_lift; discriminate
    | apply disciplined_try_mild; [|intros ?]
    | match goal with
      | |- disciplined _ _ (if ?b then _ else _) => destruct b
      | |- disciplined _ _ (match ?o with Some _ => _ | None => _ end) => destruct o
      | |- disciplined _ _ (Ret _) => exact I
      end ].

Lemma luma_poll_mild gid n auth idl : disciplined gid Mild (luma_poll gid n auth idl).
Proof.
  induction n as [|n IH]; [exact I|]. cbn [luma_poll].
  repeat first [exact IH | mild_step].
Qed.

Lemma replicate_poll_mild gid n auth pid :
  disciplined gid Mild (replicate_poll gid n auth pid).
Proof.
  induction n as [|n IH]; [exact I|]. cbn [replicate_poll].
  repeat first [exact IH | mild_step].
Qed.

Lemma luma_mild cfg gid pd :
  disciplined gid Mild (generate_with_luma_dream_machine cfg gid pd).
Proof.
  unfold generate_with_luma_dream_machine, post.
  repeat first [apply luma_poll_mild | mild_step].
Qed.

Lemma replicate_mild cfg gid pd :
  disciplined gid Mild (generate_with_replicate cfg gid pd).
Proof.
  unfold generate_with_replicate, post.
  repeat first [apply replicate_poll_mild | mild_step].
Qed.

Lemma huggingface_mild cfg gid pd :
  disciplined gid Mild (generate_with_huggingface cfg gid pd).
Proof.
  unfold generate_with_huggingface, post. repeat mild_step.
Qed.

Lemma mock_mild gid pd : disciplined gid Mild (generate_enhanced_mock_video gid pd).
Proof. unfold generate_enhanced_mock_video. repeat mild_step. Qed.

Lemma await_mild gid a m :
  disciplined gid Mild m -> disciplined gid Mild (await a m).
Proof. intros Hm. unfold await. repeat first [exact Hm | mild_step]. Qed.

Lemma disciplined_update_nonterminal gid ph kvs :
  may_write ph -> Forall (fun kv => kv.1 ∈ touched) kvs ->
  nonterminal_write (fun r => dict_update r kvs) ->
  disciplined gid ph (perform (Update gid kvs)).
Proof.
  intros Hph Hkeys Hnt. simpl. split_and!; auto;
    first [ by apply frame_update
          | by (intros _; destruct Hph as [-> | [-> | ->]])
          | (left; split; [done|]; by intros []) ].
Qed.

Lemma disciplined_update_terminal gid ph ph' kvs :
  may_write ph -> after_terminal ph = Some ph' ->
  Forall (fun kv => kv.1 ∈ touched) kvs ->
  terminal_write (fun r => dict_update r kvs) ->
  disciplined gid ph (perform (Update gid kvs)).
Proof.
  intros Hph Hafter Hkeys Ht. simpl. split_and!; auto;
    first [ by apply frame_update
          | by (intros _; destruct Hph as [-> | [-> | ->]])
          | (right; split; [done|]; exists ph'; split; [done|]; by intros []) ].
Qed.

Ltac keys_touched := repeat constructor; simpl; unfold touched; in_list.

Lemma process_body_disciplined cfg gid pd :
  disciplined gid InTry (process_body cfg gid pd).
Proof.
  unfold process_body.
  apply disciplined_bind; [unfold may_write; auto| |intros _].
  { apply disciplined_update_nonterminal;
      [unfold may_write; auto|keys_touched|apply nonterminal_processing]. }
  apply disciplined_bind; [unfold may_write; auto| |intros v1].
  { destruct (configured _); [apply await_mild, luma_mild|exact I]. }
  apply disciplined_bind; [unfold may_write; auto| |intros v2].
  { destruct (_ && _); [apply await_mild, replicate_mild|exact I]. }
  apply disciplined_bind; [unfold may_write; auto| |intros v3].
  { destruct (_ && _); [apply await_mild, huggingface_mild|exact I]. }
  apply disciplined_bind; [unfold may_write; auto| |intros v4].
  { destruct (negb _); [apply await_mild, mock_mild|exact I]. }
  apply disciplined_bind; [unfold may_write; auto| |intros now].
  { apply disciplined_perform; [reflexivity|discriminate]. }
  eapply disciplined_update_terminal;
    [unfold may_write; auto|reflexivity|keys_touched|apply terminal_completed].
Qed.

Lemma process_disciplined cfg gid pd :
  disciplined gid Top (process_video_generation cfg gid pd).
Proof.
  apply disciplined_try_top; [apply process_body_disciplined|].
  intros e. eapply disciplined_update_terminal;
    [unfold may_write; auto|reflexivity|keys_touched|apply terminal_failed].
Qed.

Lemma handle_write {X} (e : Eff X) c (s : Store) g f :
  write_fun e = Some (g, f) ->
  match s !! g with
  | Some r => (handle e c s).1.2 = <[g := f r]> s
              /\ exists x, (handle e c s).1.1 = Ok x
  | None => (handle e c s).1.2 = s /\ exists ex, (handle e c s).1.1 = Exc ex
  end.
Proof.
  destruct e; simpl; try discriminate; intros [= <- <-]; unfold store_write;
    destruct (s !! gid); simpl; eauto.
Qed.

Lemma handle_nonwrite {X} (e : Eff X) c (s : Store) :
  write_fun e = None -> (handle e c s).1.2 = s.
Proof. destruct e; simpl; try discriminate; done. Qed.

Lemma foldl_delete_lookup (s : Store) (l : list string) gid :
  foldl (fun acc g => delete g acc) s l !! gid
  = if decide (gid ∈ l) then None else s !! gid.
Proof.
  revert s. induction l as [|g l IH]; intros s; cbn [foldl].
  - destruct (decide (gid ∈ [])) as [Hin|_]; [|done]. by apply not_elem_of_nil in Hin.
  - rewrite IH. destruct (decide (gid ∈ l)) as [Hin|Hnin];
      destruct (decide (gid ∈ g :: l)) as [Hin'|Hnin']; try done.
    + exfalso. apply Hnin'. by apply list_elem_of_further.
    + apply elem_of_cons in Hin' as [->|?]; [|done]. apply lookup_delete_eq.
    + apply lookup_delete_ne. intros ->. apply Hnin'. apply list_elem_of_here.
Qed.

Lemma cleanup_lookup now (s : Store) gid :
  (cleanup_old_generations now s).2 !! gid = None
  \/ (cleanup_old_generations now s).2 !! gid = s !! gid.
Proof.
  unfold cleanup_old_generations. destruct (filter_raising _ _); simpl; [|by right].
  rewrite foldl_delete_lookup. destruct (decide _); auto.
Qed.

Lemma new_record_ok now text : record_ok (new_record now text).
Proof.
  unfold record_ok, new_record, progress_in_range, has_status. simpl. lookups.
  split_and!; eauto; try done;
    (eexists; split; [reflexivity|]; first [lia | unfold states; in_list]).
Qed.

Lemma new_record_not_terminal now text : terminal (new_record now text) = false.
Proof. unfold terminal, has_status, new_record. simpl. by lookups. Qed.

Lemma generate_video_accepts cfg b uuid now s resp s' task :
  generate_video cfg b uuid now s = (resp, s', Some task) ->
  exists pd, s' = <[uuid := new_record now (prompt pd)]> s
             /\ task = process_video_generation cfg uuid pd.
Proof.
  unfold generate_video. destruct (validate cfg b) as [pd|]; [|discriminate].
  destruct (negb _); [discriminate|]. intros [= <- <- <-]. eauto.
Qed.

Lemma sys_inv_init : sys_inv sys_init.
Proof.
  unfold sys_inv, sys_init. simpl. split_and!.
  - by rewrite dom_empty_L.
  - by rewrite dom_empty_L.
  - intros gid r. by rewrite lookup_empty.
  - intros gid p. by rewrite lookup_empty.
Qed.

Lemma record_step_same op r : record_step op r (Some r).
Proof. split; auto. Qed.

Lemma sys_step_resume cfg gid c x x' :
  sys_inv x -> sys_step cfg (OpResume gid c) x = Some x' ->
  sys_inv x'
  /\ forall g r, sys_store x !! g = Some r ->
                 record_step (OpResume gid c) r (sys_store x' !! g).
Proof.
  intros (Hds & Hdt & Hrec & Htask) Hstep. simpl in Hstep.
  destruct (sys_tasks x !! gid) as [p|] eqn:Hp; [|discriminate].
  destruct p as [a|ex|X e k]; try discriminate.
  destruct (Htask _ _ Hp) as [Htop Hquiet].
  assert (Hgid : gid ∈ sys_issued x).
  { apply Hdt, elem_of_dom. eauto. }
  assert (Hdt' : dom (<[gid := k (handle e c (sys_store x)).1.1]> (sys_tasks x))
                 ⊆ sys_issued x).
  { rewrite dom_insert_L. apply union_least; [by apply singleton_subseteq_l|done]. }
  destruct (write_fun e) as [[g f]|] eqn:Hw.
  - simpl in Htop. rewrite Hw in Htop.
    destruct Htop as (-> & Hframe & _ & Hexc & Hkind).
    pose proof (handle_write e c (sys_store x) gid f Hw) as Hh.
    destruct (handle e c (sys_store x)) as [[reply s'] ev] eqn:Hhandle.
    injection Hstep as <-. cbn [fst snd sys_store sys_tasks sys_issued] in *.
    destruct (sys_store x !! gid) as [r0|] eqn:Hr0.
    + destruct Hh as [-> [x0 ->]].
      assert (Hnt : terminal r0 = false).
      { destruct (terminal r0) eqn:Ht; [|done].
        specialize (Hquiet r0 eq_refl Ht). simpl in Hquiet. rewrite Hw in Hquiet.
        destruct Hquiet as (_ & _ & [?|[?|?]] & _); discriminate. }
      pose proof (Hrec _ _ Hr0) as Hok0.
      assert (Hok' : record_ok (f r0)
                     /\ (terminal (f r0) = true -> disciplined gid Quiet (k (Ok x0)))
                     /\ disciplined gid Top (k (Ok x0))).
      { destruct Hkind as [[Hn Hk]|[Ht (ph' & [= <-] & Hk)]].
        - destruct (Hn r0 Hok0 Hnt) as [? Hf]. rewrite Hf. split_and!; auto. discriminate.
        - destruct (Ht r0 Hok0 Hnt) as [? Hf]. split_and!; auto. by apply quiet_top. }
      destruct Hok' as (Hokf & Hq & Ht).
      split; [unfold sys_inv; simpl; split_and!|].
      * rewrite dom_insert_L. apply union_least; [|done].
        apply singleton_subseteq_l, Hds, elem_of_dom. eauto.
      * done.
      * intros g r. destruct (decide (g = gid)) as [->|Hne].
        -- rewrite lookup_insert_eq. by intros [= <-].
        -- rewrite lookup_insert_ne by done. apply Hrec.
      * intros g p. destruct (decide (g = gid)) as [->|Hne].
        -- rewrite !lookup_insert_eq. intros [= <-]. split; [done|].
           intros r [= <-]. done.
        -- rewrite !lookup_insert_ne by done. apply Htask.
      * intros g r Hr. destruct (decide (g = gid)) as [->|Hne].
        -- rewrite lookup_insert_eq. rewrite Hr0 in Hr. injection Hr as <-.
           split; [intros key Hk; by apply Hframe|]. congruence.
        -- rewrite lookup_insert_ne by done. rewrite Hr. apply record_step_same.
    + destruct Hh as [-> [ex ->]].
      split; [unfold sys_inv; simpl; split_and!; auto|].
      * intros g p. destruct (decide (g = gid)) as [->|Hne].
        -- rewrite lookup_insert_eq. intros [= <-]. split; [done|].
           intros r. rewrite Hr0. discriminate.
        -- rewrite lookup_insert_ne by done. apply Htask.
      * intros g r Hr. rewrite Hr. apply record_step_same.
  - simpl in Htop. rewrite Hw in Htop.
    pose proof (handle_nonwrite e c (sys_store x) Hw) as Hh.
    destruct (handle e c (sys_store x)) as [[reply s'] ev] eqn:Hhandle.
    injection Hstep as <-. cbn [fst snd sys_store sys_tasks sys_issued] in *. subst s'.
    split; [unfold sys_inv; simpl; split_and!; auto|].
    + intros g p. destruct (decide (g = gid)) as [->|Hne].
      * rewrite lookup_insert_eq. intros [= <-]. split; [done|].
        intros r Hr Ht. specialize (Hquiet r Hr Ht). simpl in Hquiet.
        rewrite Hw in Hquiet. done.
      * rewrite lookup_insert_ne by done. apply Htask.
    + intros g r Hr. rewrite Hr. apply record_step_same.
Qed.

Lemma sys_step_inv cfg op x x' :
  sys_inv x -> sys_step cfg op x = Some x' ->
  sys_inv x'
  /\ forall g r, sys_store x !! g = Some r -> record_step op r (sys_store x' !! g).
Proof.
  intros Hinv Hstep. destruct op as [b uuid now|g0|now|now|gid c].
  - destruct Hinv as (Hds & Hdt & Hrec & Htask). simpl in Hstep.
    destruct (generate_video cfg b uuid now (sys_store x)) as [[resp s'] [task|]] eqn:Hgen.
    + destruct (decide (uuid ∈ sys_issued x)) as [|Hfresh]; [discriminate|].
      injection Hstep as <-.
      destruct (generate_video_accepts _ _ _ _ _ _ _ _ Hgen) as (pd & -> & ->).
      assert (Hnew : sys_store x !! uuid = None).
      { apply not_elem_of_dom. intros Hin. by apply Hfresh, Hds. }
      split; [unfold sys_inv; simpl; split_and!|].
      * rewrite dom_insert_L. apply union_mono_l, Hds.
      * rewrite dom_insert_L. apply union_mono_l, Hdt.
      * intros g r. destruct (decide (g = uuid)) as [->|Hne].
        -- rewrite lookup_insert_eq. intros [= <-]. apply new_record_ok.
        -- rewrite lookup_insert_ne by done. apply Hrec.
      * intros g p. destruct (decide (g = uuid)) as [->|Hne].
        -- rewrite !lookup_insert_eq. intros [= <-]. split; [apply process_disciplined|].
           intros r [= <-]. by rewrite new_record_not_terminal.
        -- rewrite !lookup_insert_ne by done. apply Htask.
      * intros g r Hr. simpl. rewrite lookup_insert_ne by congruence.
        rewrite Hr. apply record_step_same.
    + injection Hstep as <-. split; [done|]. intros g r Hr. rewrite Hr.
      apply record_step_same.
  - injection Hstep as <-. split; [done|]. intros g r Hr. rewrite Hr.
    apply record_step_same.
  - injection Hstep as <-. split; [done|]. intros g r Hr. rewrite Hr.
    apply record_step_same.
  - destruct Hinv as (Hds & Hdt & Hrec & Htask). injection Hstep as <-.
    assert (Hsub : forall g r, (cleanup_old_generations now (sys_store x)).2 !! g = Some r ->
                               sys_store x !! g = Some r).
    { intros g r Hr. destruct (cleanup_lookup now (sys_store x) g) as [H|H]; congruence. }
    split; [unfold sys_inv; simpl; split_and!|].
    + intros g [r Hr]%elem_of_dom. apply Hds, elem_of_dom. eauto.
    + done.
    + intros g r Hr. eapply Hrec; eauto.
    + intros g p Hp. destruct (Htask _ _ Hp) as [Ht Hq]. split; [done|].
      intros r Hr. apply Hq; eauto.
    + intros g r Hr. simpl.
      destruct (cleanup_lookup now (sys_store x) g) as [-> | ->]; [exact I|].
      rewrite Hr. apply record_step_same.
  - by apply (sys_step_resume cfg).
Qed.

Lemma sys_run_inv cfg ops x x' :
  sys_inv x -> sys_run cfg ops x = Some x' -> sys_inv x'.
Proof.
  revert x. induction ops as [|op ops IH]; simpl; intros x Hinv Hrun.
  - by injection Hrun as <-.
  - destruct (sys_step cfg op x) as [x1|] eqn:Hstep; [|discriminate].
    eapply IH; [|exact Hrun]. by eapply sys_step_inv.
Qed.

Lemma reachable_inv cfg x : reachable cfg x -> sys_inv x.
Proof. intros [ops Hrun]. eapply sys_run_inv; [apply sys_inv_init|exact Hrun]. Qed.

(** ** The claims on single runs *)

Lemma rec_status_any gid (s : Store) : exists st, rec_status gid st s.
Proof.
  exists (s !! gid ≫= fun r => r !! "status"). intros r Hr. by rewrite Hr.
Qed.

Lemma none_or_not (v : pyval) : v = PNone \/ v <> PNone.
Proof. destruct v; auto; right; discriminate. Qed.

(** C6: for every configuration, prompt, environment and store, each of the
    three provider adapters returns (it never raises), and it returns [None]
    unless one of the responses it received reports success: for Luma and
    Replicate a 200 poll answer in the finished state carrying a video,
    for Hugging Face a 200 answer of more than 1000 bytes.  Network errors,
    other status codes, malformed payloads, failed jobs and an exhausted
    poll budget therefore all end in [None]. *)
Theorem adapters_never_raise (cfg : Config) (gid : string) (pd : VideoPrompt)
    (env : Env) (w : World) :
  (exists v, (run env (generate_with_luma_dream_machine cfg gid pd) w).1.1 = Ok v
     /\ ((forall resp,
            resp ∈ responses (run env (generate_with_luma_dream_machine cfg gid pd) w).2 ->
            luma_reported resp = None) -> v = PNone))
  /\ (exists v, (run env (generate_with_replicate cfg gid pd) w).1.1 = Ok v
     /\ ((forall resp,
            resp ∈ responses (run env (generate_with_replicate cfg gid pd) w).2 ->
            replicate_reported resp = None) -> v = PNone))
  /\ (exists v, (run env (generate_with_huggingface cfg gid pd) w).1.1 = Ok v
     /\ ((forall resp,
            resp ∈ responses (run env (generate_with_huggingface cfg gid pd) w).2 ->
            ~ huggingface_accepted resp) -> v = PNone)).
Proof.
  destruct (rec_status_any gid (store w)) as [st Hst]. split_and!.
  - pose proof (wp_run _ env w _ (luma_wp cfg gid pd st _ Hst)) as (_ & _ & _ & v & Hv & HR).
    exists v. split; [done|]. intros Hnone.
    destruct (none_or_not v) as [|Hne]; [done|].
    destruct (HR Hne) as (resp & Hin & Hrep). rewrite (Hnone _ Hin) in Hrep. done.
  - pose proof (wp_run _ env w _ (replicate_wp cfg gid pd st _ Hst)) as (_ & _ & _ & v & Hv & HR).
    exists v. split; [done|]. intros Hnone.
    destruct (none_or_not v) as [|Hne]; [done|].
    destruct (HR Hne) as (resp & Hin & Hrep). rewrite (Hnone _ Hin) in Hrep. done.
  - pose proof (wp_run _ env w _ (huggingface_wp cfg gid pd st _ Hst)) as (_ & _ & _ & v & Hv & HR).
    exists v. split; [done|]. intros Hnone.
    destruct (none_or_not v) as [|Hne]; [done|].
    destruct (HR Hne) as (_ & resp & Hin & Hacc). by destruct (Hnone _ Hin).
Qed.

(** C7, amended: a Luma or Replicate adapter that returns something other
    than [None] returns the value one of its poll answers reported (Luma:
    [assets.video] of a 200 answer in state completed; Replicate: the first
    element of [output] of a 200 answer with status succeeded).  The Hugging
    Face adapter that returns something other than [None] returns its fixed
    placeholder URL, and does so only after the provider answered 200 with
    more than 1000 bytes. *)
Theorem adapters_report (cfg : Config) (gid : string) (pd : VideoPrompt)
    (env : Env) (w : World) (v : pyval) :
  ((run env (generate_with_luma_dream_machine cfg gid pd) w).1.1 = Ok v ->
   v <> PNone ->
   exists resp,
     resp ∈ responses (run env (generate_with_luma_dream_machine cfg gid pd) w).2
     /\ luma_reported resp = Some v)
  /\ ((run env (generate_with_replicate cfg gid pd) w).1.1 = Ok v ->
      v <> PNone ->
      exists resp,
        resp ∈ responses (run env (generate_with_replicate cfg gid pd) w).2
        /\ replicate_reported resp = Some v)
  /\ ((run env (generate_with_huggingface cfg gid pd) w).1.1 = Ok v ->
      v <> PNone ->
      v = PStr huggingface_placeholder
      /\ exists resp,
           resp ∈ responses (run env (generate_with_huggingface cfg gid pd) w).2
           /\ huggingface_accepted resp).
Proof.
  destruct (rec_status_any gid (store w)) as [st Hst]. split_and!.
  - pose proof (wp_run _ env w _ (luma_wp cfg gid pd st _ Hst)) as (_ & _ & _ & v' & Hv & HR).
    intros Hrun Hne. rewrite Hv in Hrun. injection Hrun as ->. by apply HR.
  - pose proof (wp_run _ env w _ (replicate_wp cfg gid pd st _ Hst)) as (_ & _ & _ & v' & Hv & HR).
    intros Hrun Hne. rewrite Hv in Hrun. injection Hrun as ->. by apply HR.
  - pose proof (wp_run _ env w _ (huggingface_wp cfg gid pd st _ Hst)) as (_ & _ & _ & v' & Hv & HR).
    intros Hrun Hne. rewrite Hv in Hrun. injection Hrun as ->. by apply HR.
Qed.

(** C7 fails for Hugging Face: answered with 1001 zero bytes and no JSON,
    the adapter returns its placeholder URL, which no response it received
    reports or contains. *)
Lemma huggingface_placeholder_not_reported :
  (run env_bytes (generate_with_huggingface cfg_hf "g" pd_cat) w_g).1.1
  = Ok (PStr huggingface_placeholder)
  /\ PStr huggingface_placeholder <> PNone
  /\ ~ exists resp,
         resp ∈ responses (run env_bytes (generate_with_huggingface cfg_hf "g" pd_cat) w_g).2
         /\ reported_by resp (PStr huggingface_placeholder).
Proof.
  split_and!; [vm_compute; reflexivity|discriminate|].
  assert (Hresp : responses (run env_bytes (generate_with_huggingface cfg_hf "g" pd_cat) w_g).2
                  = [resp_bytes]) by (vm_compute; reflexivity).
  rewrite Hresp. intros (resp & Hin & Hrep).
  apply list_elem_of_singleton in Hin as ->.
  destruct Hrep as [Hl|[Hr|(s & a & b & Hs & Hc)]].
  - vm_compute in Hl. discriminate.
  - vm_compute in Hr. discriminate.
  - injection Hs as <-.
    assert (Hall : Forall (fun x => x = Byte.x00) (repeat Byte.x00 1001)).
    { apply Forall_forall. intros x Hx%list_elem_of_In. by apply repeat_spec in Hx. }
    change (content resp_bytes) with (repeat Byte.x00 1001) in Hc.
    rewrite Hc in Hall. apply Forall_app in Hall as [_ Hall].
    apply Forall_app in Hall as [Hall _]. vm_compute in Hall.
    inversion Hall as [|? ? Hh _]. discriminate.
Qed.

Lemma providers_no_mock cfg : Mock ∉ providers cfg.
Proof.
  unfold providers.
  destruct (configured (LUMA_API_KEY cfg)), (configured (REPLICATE_API_TOKEN cfg)),
    (configured (HUGGINGFACE_API_KEY cfg)); simpl;
    repeat (apply not_elem_of_cons; split; [discriminate|]); apply not_elem_of_nil.
Qed.

Lemma chain_mock_iff ps ms :
  Mock ∉ ps -> fallback_chain ps ms ->
  (Called Mock ∈ ms <->
   forall a v, Returned a v ∈ ms -> a <> Mock -> Py.truthy v = false).
Proof.
  intros Hps Hchain. induction Hchain as [a v rest Hv|a v rest ms Hv Hchain IH|v|].
  - apply not_elem_of_cons in Hps as [Ha _]. split.
    + intros [H|H]%elem_of_cons; [congruence|].
      apply list_elem_of_singleton in H. discriminate.
    + intros H. rewrite (H a v) in Hv; [discriminate| |congruence].
      apply list_elem_of_further, list_elem_of_here.
  - apply not_elem_of_cons in Hps as [Ha Hrest]. specialize (IH Hrest). split.
    + intros [H|H]%elem_of_cons; [congruence|].
      apply elem_of_cons in H as [H|H]; [discriminate|].
      intros a' v' [H'|H']%elem_of_cons; [discriminate|].
      apply elem_of_cons in H' as [[= -> ->]|H']; [done|].
      by apply IH.
    + intros H. do 2 apply list_elem_of_further. apply IH.
      intros a' v' H'. apply H. by do 2 apply list_elem_of_further.
  - split; [|intros _; apply list_elem_of_here].
    intros _ a' v' [H'|H']%elem_of_cons; [discriminate|].
    apply list_elem_of_singleton in H'. injection H' as -> _. done.
  - split; [|intros _; apply list_elem_of_here].
    intros _ a' v' H'%list_elem_of_singleton. discriminate.
Qed.

(** C5: when the record is there at dispatch, the adapters the task awaits
    form the fallback chain over the configured providers in the order Luma,
    Replicate, Hugging Face: each one called returns, a true result ends the
    chain, and the mock is called exactly when every provider called came
    back with a false result (none configured included). *)
Theorem fallback_order (cfg : Config) (gid : string) (pd : VideoPrompt)
    (env : Env) (w : World) (r : pydict) :
  store w !! gid = Some r ->
  fallback_chain (providers cfg)
    (marks (run env (process_video_generation cfg gid pd) w).2)
  /\ (Called Mock ∈ marks (run env (process_video_generation cfg gid pd) w).2 <->
      forall a v,
        Returned a v ∈ marks (run env (process_video_generation cfg gid pd) w).2 ->
        a <> Mock -> Py.truthy v = false).
Proof.
  intros Hr.
  pose proof (wp_run _ env w _ (process_wp cfg gid pd _ r Hr)) as (Hchain & _).
  split; [done|]. eapply chain_mock_iff; [apply providers_no_mock|done].
Qed.

(** [fallback_order] with Luma and Replicate configured and every provider
    answering 500. *)
Lemma fallback_order_witness :
  store w_g !! "g" = Some (new_record 5 "CAT video")
  /\ fallback_chain (providers cfg_lr)
       (marks (run env_500 (process_video_generation cfg_lr "g" pd_cat) w_g).2)
  /\ (Called Mock ∈ marks (run env_500 (process_video_generation cfg_lr "g" pd_cat) w_g).2 <->
      forall a v,
        Returned a v ∈ marks (run env_500 (process_video_generation cfg_lr "g" pd_cat) w_g).2 ->
        a <> Mock -> Py.truthy v = false).
Proof.
  split; [reflexivity|].
  apply (fallback_order cfg_lr "g" pd_cat env_500 w_g (new_record 5 "CAT video")).
  reflexivity.
Defined.

Lemma rising_sorted lo rs : rising lo rs -> Sorted Z.le (lo :: map progress_int rs).
Proof.
  revert lo. induction rs as [|r rs IH]; simpl; intros lo H.
  - repeat constructor.
  - destruct H as [Hlo H]. constructor; [by apply IH|by constructor].
Qed.

Lemma climb_sorted st lo rs hi :
  climb st lo rs hi -> Sorted Z.le (map progress_int rs).
Proof.
  intros H. assert (Hr : rising lo (rs ++ [])) by (by eapply climb_rising).
  rewrite app_nil_r in Hr. apply rising_sorted in Hr. by inversion Hr.
Qed.

(** C1, amended: after every update of a run the progress field is an
    integer between 0 and 100; when at most one adapter is awaited (no
    provider configured, or the first configured one returns a URL)
    progress never decreases from creation through the updates up to
    completion (the update to failed resets it to 0); and within the run of
    any single adapter progress never decreases. *)
Theorem progress_range_and_rise (cfg : Config) (gid : string) (pd : VideoPrompt)
    (env : Env) (w : World) (now : Q) (text : string) :
  store w !! gid = Some (new_record now text) ->
  Forall progress_in_range
    (new_record now text
       :: snapshots (run env (process_video_generation cfg gid pd) w).2)
  /\ ((length (calls (run env (process_video_generation cfg gid pd) w).2) <= 1)%nat ->
      Sorted Z.le
        (map progress_int
           (new_record now text
              :: filter not_failed
                   (snapshots (run env (process_video_generation cfg gid pd) w).2))))
  /\ forall a env' w',
       Sorted Z.le
         (map progress_int (snapshots (run env' (adapter_prog cfg gid pd a) w').2)).
Proof.
  intros Hr.
  pose proof (wp_run _ env w _ (process_wp cfg gid pd _ _ Hr)) as (_ & Hrange & Hrise).
  split_and!.
  - constructor; [|done]. exists 0. split; [reflexivity|lia].
  - intros Hlen. specialize (Hrise Hlen).
    change (map progress_int (new_record now text :: ?l))
      with (0 :: map progress_int l).
    apply rising_sorted. eapply rising_weaken; [|exact Hrise]. lia.
  - intros a env' w'. destruct (rec_status_any gid (store w')) as [st Hst].
    destruct a; simpl.
    + pose proof (wp_run _ env' w' _ (luma_wp cfg gid pd st _ Hst)) as (_ & _ & Hc & _).
      by eapply climb_sorted.
    + pose proof (wp_run _ env' w' _ (replicate_wp cfg gid pd st _ Hst)) as (_ & _ & Hc & _).
      by eapply climb_sorted.
    + pose proof (wp_run _ env' w' _ (huggingface_wp cfg gid pd st _ Hst)) as (_ & _ & Hc & _).
      by eapply climb_sorted.
    + pose proof (wp_run _ env' w' _ (mock_wp gid pd st _ Hst)) as (_ & _ & Hc & _).
      by eapply climb_sorted.
Qed.

(** [progress_range_and_rise] on the mock path. *)
Lemma progress_range_and_rise_witness :
  store w_g !! "g" = Some (new_record 5 "CAT video")
  /\ Forall progress_in_range
       (new_record 5 "CAT video"
          :: snapshots (run env_500 (process_video_generation cfg_none "g" pd_cat) w_g).2)
  /\ ((length (calls (run env_500 (process_video_generation cfg_none "g" pd_cat) w_g).2) <= 1)%nat ->
      Sorted Z.le
        (map progress_int
           (new_record 5 "CAT video"
              :: filter not_failed
                   (snapshots (run env_500 (process_video_generation cfg_none "g" pd_cat) w_g).2))))
  /\ forall a env' w',
       Sorted Z.le
         (map progress_int (snapshots (run env' (adapter_prog cfg_none "g" pd_cat a) w').2)).
Proof.
  split; [reflexivity|].
  apply (progress_range_and_rise cfg_none "g" pd_cat env_500 w_g 5 "CAT video").
  reflexivity.
Defined.

(** C1 fails when a provider comes back empty-handed: with Luma and
    Replicate configured and both answering 500, the progress values after
    the successive updates are 0, 10, 25, 50, 35, ...: a drop from 50 to 35
    at the hand-over from Luma to Replicate. *)
Lemma progress_drops_on_fallthrough :
  map progress_int
    (new_record 5 "CAT video"
       :: filter not_failed
            (snapshots (run env_500 (process_video_generation cfg_lr "g" pd_cat) w_g).2))
  = [0; 10; 25; 50; 35; 55; 60; 80; 100]
  /\ ~ Sorted Z.le
         (map progress_int
            (new_record 5 "CAT video"
               :: filter not_failed
                    (snapshots (run env_500 (process_video_generation cfg_lr "g" pd_cat) w_g).2))).
Proof.
  assert (H : map progress_int
    (new_record 5 "CAT video"
       :: filter not_failed
            (snapshots (run env_500 (process_video_generation cfg_lr "g" pd_cat) w_g).2))
    = [0; 10; 25; 50; 35; 55; 60; 80; 100]) by (vm_compute; reflexivity).
  split; [exact H|]. rewrite H. intros Hs.
  repeat match goal with
         | Hs : Sorted _ (_ :: _) |- _ => inversion Hs; subst; clear Hs
         end.
  repeat match goal with
         | Hh : HdRel _ _ (_ :: _) |- _ => inversion Hh; subst; clear Hh
         end.
  lia.
Qed.

Lemma mock_only_wp cfg gid pd s r0 :
  configured (LUMA_API_KEY cfg) = false ->
  configured (REPLICATE_API_TOKEN cfg) = false ->
  configured (HUGGINGFACE_API_KEY cfg) = false ->
  s !! gid = Some r0 ->
  wp (process_video_generation cfg gid pd) s
     (fun o s' tr =>
        Forall (fun r => r = Ok tt) (sleeps tr) ->
        o = Ok tt
        /\ exists now, s' !! gid = Some (mock_final r0 (prompt pd) now)).
Proof.
  intros H1 H2 H3 Hr. unfold process_video_generation, process_body.
  rewrite H1, H2, H3. cbn [Py.truthy negb andb].
  apply wp_try_except, wp_bind, wp_perform. intros c.
  cbn [handle]. unfold store_write. rewrite Hr. cbn [fst snd].
  apply wp_bind, wp_ret. cbv beta iota.
  apply wp_bind, wp_ret. cbv beta iota.
  apply wp_bind, wp_ret. cbv beta iota.
  apply wp_bind, wp_await. unfold generate_enhanced_mock_video.
  apply wp_bind, wp_set_progress; [|rewrite lookup_insert_eq; discriminate].
  intros r1. rewrite lookup_insert_eq. intros [= <-]. rewrite insert_insert_eq.
  apply wp_bind, wp_perform. intros c1. cbn [handle fst snd].
  destruct (ch_sleep c1) as [[]|e1].
  2:{ apply wp_perform. intros c'. cbn [handle]. unfold store_write.
      rewrite lookup_insert_eq. cbn [fst snd]. simpl. intros Hall.
      inversion Hall as [|? ? Hbad _]. discriminate. }
  apply wp_bind, wp_set_progress; [|rewrite lookup_insert_eq; discriminate].
  intros r2. rewrite lookup_insert_eq. intros [= <-]. rewrite insert_insert_eq.
  apply wp_bind, wp_perform. intros c2. cbn [handle fst snd].
  destruct (ch_sleep c2) as [[]|e2].
  2:{ apply wp_perform. intros c'. cbn [handle]. unfold store_write.
      rewrite lookup_insert_eq. cbn [fst snd]. simpl. intros Hall.
      inversion Hall as [|? ? _ Hall']. inversion Hall' as [|? ? Hbad _]. discriminate. }
  apply wp_ret. cbv beta iota.
  apply wp_bind, wp_perform. intros c3. cbn [handle fst snd].
  apply wp_perform. intros c4. cbn [handle]. unfold store_write.
  rewrite lookup_insert_eq. cbn [fst snd]. intros _. split; [done|].
  exists (ch_time c3). by rewrite lookup_insert_eq.
Qed.

Lemma validate_prompt cfg b pd : validate cfg b = Some pd -> prompt pd = body_prompt b.
Proof. unfold validate. destruct (_ && _); [|discriminate]. by intros [= <-]. Qed.

Lemma generate_video_prompt cfg b uuid now s resp s' task :
  generate_video cfg b uuid now s = (resp, s', Some task) ->
  exists pd, prompt pd = body_prompt b
             /\ s' = <[uuid := new_record now (prompt pd)]> s
             /\ task = process_video_generation cfg uuid pd.
Proof.
  unfold generate_video. destruct (validate cfg b) as [pd|] eqn:Hv; [|discriminate].
  destruct (negb _); [discriminate|]. intros [= <- <- <-].
  exists pd. split; [by eapply validate_prompt|done].
Qed.

(** C8: with no provider credential configured, the task of an accepted
    request, run from the store the request left and with no sleep raising,
    ends with the record completed: progress 100, the video URL the keyword
    rule of the mock picks for the prompt, and a completion timestamp; the
    prompt and creation time written at acceptance are still there. *)
Theorem no_credentials_completes (cfg : Config) (b : Body) (uuid : string)
    (now : Q) (s : Store) (resp : HttpResult VideoResponse) (s' : Store)
    (task : Prog unit) (env : Env) (w : World) :
  configured (LUMA_API_KEY cfg) = false ->
  configured (REPLICATE_API_TOKEN cfg) = false ->
  configured (HUGGINGFACE_API_KEY cfg) = false ->
  generate_video cfg b uuid now s = (resp, s', Some task) ->
  store w = s' ->
  Forall (fun r => r = Ok tt) (sleeps (run env task w).2) ->
  (run env task w).1.1 = Ok tt
  /\ exists r,
       store (run env task w).1.2 !! uuid = Some r
       /\ r !! "status" = Some (PStr "completed")
       /\ r !! "progress" = Some (PInt 100)
       /\ r !! "video_url" = Some (PStr (mock_video_url (body_prompt b)))
       /\ (exists t, r !! "completed_at" = Some (PFloat t))
       /\ r !! "prompt" = Some (PStr (body_prompt b))
       /\ r !! "created_at" = Some (PFloat now).
Proof.
  intros H1 H2 H3 Hgen Hw Hsleeps.
  destruct (generate_video_prompt _ _ _ _ _ _ _ _ Hgen) as (pd & Hpd & -> & ->).
  assert (Hr : store w !! uuid = Some (new_record now (prompt pd))).
  { rewrite Hw. apply lookup_insert_eq. }
  pose proof (wp_run _ env w _ (mock_only_wp cfg uuid pd _ _ H1 H2 H3 Hr)) as Hpost.
  destruct (Hpost Hsleeps) as (Hok & t & Hfinal).
  split; [done|]. eexists. split; [exact Hfinal|].
  rewrite <- Hpd. unfold mock_final, new_record. simpl.
  split_and!; try by lookups. exists t. by lookups.
Qed.

(** [no_credentials_completes] for the prompt "CAT video". *)
Lemma no_credentials_completes_witness :
  (run env_500 (process_video_generation cfg_none "g" pd_cat) w_g).1.1 = Ok tt
  /\ exists r,
       store (run env_500 (process_video_generation cfg_none "g" pd_cat) w_g).1.2 !! "g"
       = Some r
       /\ r !! "status" = Some (PStr "completed")
       /\ r !! "progress" = Some (PInt 100)
       /\ r !! "video_url" = Some (PStr (mock_video_url (body_prompt body_cat)))
       /\ (exists t, r !! "completed_at" = Some (PFloat t))
       /\ r !! "prompt" = Some (PStr (body_prompt body_cat))
       /\ r !! "created_at" = Some (PFloat 5).
Proof.
  apply (no_credentials_completes cfg_none body_cat "g" 5 ∅
           (generate_video cfg_none body_cat "g" 5 ∅).1.1
           (generate_video cfg_none body_cat "g" 5 ∅).1.2
           (process_video_generation cfg_none "g" pd_cat) env_500 w_g);
    try reflexivity.
  vm_compute. repeat constructor.
Defined.

Lemma lstrip_blank s : PyStr.blank s = true -> PyStr.lstrip s = "".
Proof.
  induction s as [|c s IH]; simpl; [done|].
  intros [Hc Hs]%andb_true_iff. rewrite Hc. auto.
Qed.

Lemma lstrip_not_blank s :
  PyStr.blank s = false ->
  exists c s', PyStr.lstrip s = String c s' /\ PyStr.isspace c = false.
Proof.
  induction s as [|c s IH]; simpl; [done|].
  destruct (PyStr.isspace c) eqn:Hc; simpl; eauto.
Qed.

Lemma rstrip_keeps_head c s :
  PyStr.isspace c = false -> PyStr.truthy (PyStr.rstrip (String c s)) = true.
Proof. intros Hc. simpl. rewrite Hc. by destruct (PyStr.rstrip s). Qed.

Lemma strip_truthy s : PyStr.truthy (PyStr.strip s) = negb (PyStr.blank s).
Proof.
  unfold PyStr.strip. destruct (PyStr.blank s) eqn:Hb.
  - by rewrite lstrip_blank.
  - destruct (lstrip_not_blank s Hb) as (c & s' & -> & Hc). by apply rstrip_keeps_head.
Qed.

(** C3, amended: a request whose prompt is empty or all whitespace is
    rejected at request time with a client error, 400 when the body passes
    the request model's validation and 422 when it does not (an empty prompt
    never passes: it is always answered 422); no record is created, no task
    is started, the store is unchanged and so is what /health reports. *)
Theorem blank_prompt_rejected (cfg : Config) (b : Body) (uuid : string)
    (now : Q) (s : Store) :
  PyStr.blank (body_prompt b) = true ->
  exists code detail,
    generate_video cfg b uuid now s = (HttpError code detail, s, None)
    /\ code = match validate cfg b with Some _ => 400 | None => 422 end
    /\ (body_prompt b = "" -> code = 422)
    /\ forall t,
         health_check cfg t (generate_video cfg b uuid now s).1.2
         = health_check cfg t s.
Proof.
  intros Hblank. unfold generate_video.
  destruct (validate cfg b) as [pd|] eqn:Hv.
  - rewrite strip_truthy, (validate_prompt _ _ _ Hv), Hblank. simpl.
    exists 400, "Prompt cannot be empty". split_and!; auto.
    intros Hempty. unfold validate in Hv. rewrite Hempty in Hv. discriminate.
  - exists 422, "Unprocessable Entity". split_and!; auto.
Qed.

(** [blank_prompt_rejected] for a prompt of three spaces. *)
Lemma blank_prompt_rejected_witness :
  exists code detail,
    generate_video cfg_none body_spaces "g" 5 ∅ = (HttpError code detail, ∅, None)
    /\ code = match validate cfg_none body_spaces with Some _ => 400 | None => 422 end
    /\ (body_prompt body_spaces = "" -> code = 422)
    /\ forall t,
         health_check cfg_none t (generate_video cfg_none body_spaces "g" 5 ∅).1.2
         = health_check cfg_none t ∅.
Proof.
  apply (blank_prompt_rejected cfg_none body_spaces "g" 5 ∅). reflexivity.
Defined.

(** C3 fails for the empty prompt: it is rejected by the request model's
    [min_length=1] before the endpoint function runs, with status 422, not
    400. *)
Lemma empty_prompt_is_422 :
  PyStr.blank (body_prompt body_empty) = true
  /\ (generate_video cfg_none body_empty "g" 5 ∅).1.1
     = HttpError 422 "Unprocessable Entity"
  /\ forall detail,
       (generate_video cfg_none body_empty "g" 5 ∅).1.1 <> HttpError 400 detail.
Proof. split_and!; [reflexivity|reflexivity|]. intros detail. discriminate. Qed.

Lemma prefix_spec w s : String.prefix w s = true <-> exists b, s = w +:+ b.
Proof.
  revert s. induction w as [|c w IH]; intros s.
  - split; [intros _; by exists s|]. intros _. by destruct s.
  - destruct s as [|c' s]; simpl; [split; [done|intros [b Hb]; discriminate]|].
    destruct (Ascii.ascii_dec c c') as [->|Hne].
    + rewrite IH. split; intros [b Hb]; exists b; [by rewrite Hb|by injection Hb].
    + split; [done|]. intros [b Hb]. injection Hb as ? ?. congruence.
Qed.

Lemma contains_spec w s :
  PyStr.contains w s = true <-> exists a b, s = a +:+ w +:+ b.
Proof.
  induction s as [|c s IH]; cbn [PyStr.contains].
  - rewrite orb_false_r, prefix_spec. split.
    + intros [b Hb]. by exists "", b.
    + intros (a & b & Hab). destruct a; [by exists b|discriminate].
  - rewrite orb_true_iff, prefix_spec, IH. split.
    + intros [[b Hb]|(a & b & Hab)]; [by exists "", b|].
      exists (String c a), b. simpl. by rewrite Hab.
    + intros (a & b & Hab). destruct a as [|c' a]; [left; by exists b|].
      right. injection Hab as _ Hab. by exists a, b.
Qed.

Lemma any_word_in_spec ws text :
  any_word_in ws (PyStr.lower text) = true <-> exists w, w ∈ ws /\ mentions w text.
Proof.
  unfold any_word_in, mentions. rewrite existsb_exists. split.
  - intros (w & Hin & Hc). exists w. split; [by apply list_elem_of_In|].
    by apply contains_spec.
  - intros (w & Hin & Hm). exists w. split; [by apply list_elem_of_In|].
    by apply contains_spec.
Qed.

Lemma any_word_in_none ws text :
  none_of ws text -> any_word_in ws (PyStr.lower text) = false.
Proof.
  intros Hnone. destruct (any_word_in ws (PyStr.lower text)) eqn:H; [|done].
  apply any_word_in_spec in H as (w & Hin & Hm). by destruct (Hnone w Hin).
Qed.

Lemma any_word_in_some ws w text :
  w ∈ ws -> mentions w text -> any_word_in ws (PyStr.lower text) = true.
Proof. intros Hin Hm. apply any_word_in_spec. eauto. Qed.

Lemma lower_char_idemp c : PyStr.lower_char (PyStr.lower_char c) = PyStr.lower_char c.
Proof. destruct c as [[] [] [] [] [] [] [] []]; reflexivity. Qed.

Lemma lower_idemp s : PyStr.lower (PyStr.lower s) = PyStr.lower s.
Proof. induction s as [|c s IH]; simpl; [done|]. by rewrite lower_char_idemp, IH. Qed.

Lemma mock_returns_wp gid pd (s : Store) r :
  s !! gid = Some r ->
  wp (generate_enhanced_mock_video gid pd) s
     (fun o s' tr =>
        Forall (fun x => x = Ok tt) (sleeps tr) ->
        o = Ok (PStr (mock_video_url (prompt pd)))).
Proof.
  intros Hr. unfold generate_enhanced_mock_video.
  apply wp_bind, wp_set_progress; [|congruence].
  intros r1 _.
  apply wp_bind, wp_perform. intros c1. cbn [handle fst snd].
  destruct (ch_sleep c1) as [[]|e1].
  2:{ simpl. intros Hall. inversion Hall as [|? ? Hbad _]. discriminate. }
  apply wp_bind, wp_set_progress; [|rewrite lookup_insert_eq; discriminate].
  intros r2 _.
  apply wp_bind, wp_perform. intros c2. cbn [handle fst snd].
  destruct (ch_sleep c2) as [[]|e2]; simpl; [done|].
  intros Hall. inversion Hall as [|? ? _ Hall']. inversion Hall' as [|? ? Hbad _].
  discriminate.
Qed.

(** C4: what the mock returns is a function of the prompt text alone (and
    it does return when the record is there and no sleep raises); the
    categories are tried in the order cat, ocean, nature, city and the first
    one with a keyword occurring in the prompt (as a substring, letter case
    aside) decides the URL, the default URL being used when none occurs.  So
    a prompt with "cat" gets the cat URL; one with "ocean", "forest" or
    "city" gets the ocean, nature or city URL unless an earlier category
    matches; "a story about a lighthouse" gets the default URL; and
    "CAT video" gets what "cat video" gets. *)
Theorem mock_keyword_mapping :
  (forall gid pd env w v,
     (run env (generate_enhanced_mock_video gid pd) w).1.1 = Ok v ->
     v = PStr (mock_video_url (prompt pd)))
  /\ (forall gid pd env w r,
        store w !! gid = Some r ->
        Forall (fun x => x = Ok tt)
          (sleeps (run env (generate_enhanced_mock_video gid pd) w).2) ->
        (run env (generate_enhanced_mock_video gid pd) w).1.1
        = Ok (PStr (mock_video_url (prompt pd))))
  /\ (forall text w, w ∈ cat_words -> mentions w text ->
        mock_video_url text = cat_url)
  /\ (forall text w, w ∈ ocean_words -> mentions w text ->
        none_of cat_words text -> mock_video_url text = ocean_url)
  /\ (forall text w, w ∈ nature_words -> mentions w text ->
        none_of cat_words text -> none_of ocean_words text ->
        mock_video_url text = nature_url)
  /\ (forall text w, w ∈ city_words -> mentions w text ->
        none_of cat_words text -> none_of ocean_words text ->
        none_of nature_words text -> mock_video_url text = city_url)
  /\ (forall text,
        none_of cat_words text -> none_of ocean_words text ->
        none_of nature_words text -> none_of city_words text ->
        mock_video_url text = default_url)
  /\ ("cat" ∈ cat_words /\ "ocean" ∈ ocean_words
      /\ "forest" ∈ nature_words /\ "city" ∈ city_words)
  /\ (forall text text', PyStr.lower text = PyStr.lower text' ->
        mock_video_url text = mock_video_url text')
  /\ (forall text, mock_video_url (PyStr.lower text) = mock_video_url text)
  /\ mock_video_url "a story about a lighthouse" = default_url
  /\ mock_video_url "CAT video" = mock_video_url "cat video"
  /\ mock_video_url "CAT video" = cat_url.
Proof.
  split_and!.
  - intros gid pd env w v Hrun.
    destruct (rec_status_any gid (store w)) as [st Hst].
    pose proof (wp_run _ env w _ (mock_wp gid pd st _ Hst)) as (_ & _ & _ & Hv).
    by apply Hv.
  - intros gid pd env w r Hr.
    exact (wp_run _ env w _ (mock_returns_wp gid pd _ r Hr)).
  - intros text w Hin Hm. unfold mock_video_url.
    by rewrite (any_word_in_some cat_words w).
  - intros text w Hin Hm H1. unfold mock_video_url.
    by rewrite (any_word_in_none cat_words), (any_word_in_some ocean_words w).
  - intros text w Hin Hm H1 H2. unfold mock_video_url.
    by rewrite (any_word_in_none cat_words), (any_word_in_none ocean_words),
      (any_word_in_some nature_words w).
  - intros text w Hin Hm H1 H2 H3. unfold mock_video_url.
    by rewrite (any_word_in_none cat_words), (any_word_in_none ocean_words),
      (any_word_in_none nature_words), (any_word_in_some city_words w).
  - intros text H1 H2 H3 H4. unfold mock_video_url.
    by rewrite (any_word_in_none cat_words), (any_word_in_none ocean_words),
      (any_word_in_none nature_words), (any_word_in_none city_words).
  - apply list_elem_of_here.
  - apply list_elem_of_here.
  - apply list_elem_of_further, list_elem_of_here.
  - apply list_elem_of_here.
  - intros text text' H. unfold mock_video_url. by rewrite H.
  - intros text. unfold mock_video_url. by rewrite lower_idemp.
  - reflexivity.
  - reflexivity.
  - reflexivity.
Qed.

(** ** The claims on the service as a whole *)

Lemma filter_raising_ok {A} (f : A -> outcome bool) (g : A -> bool) l :
  (forall x, x ∈ l -> f x = Ok (g x)) ->
  filter_raising f l = Ok (List.filter g l).
Proof.
  induction l as [|x l IH]; simpl; intros H; [done|].
  rewrite (H x) by apply list_elem_of_here.
  rewrite IH; [done|]. intros y Hy. apply H. by apply list_elem_of_further.
Qed.

Lemma size_foldl_delete (s : Store) (l : list string) :
  NoDup l -> (forall k, k ∈ l -> is_Some (s !! k)) ->
  (size (foldl (fun acc g => delete g acc) s l) + length l = size s)%nat.
Proof.
  revert s. induction l as [|k l IH]; intros s Hnd Hin; simpl; [lia|].
  apply NoDup_cons in Hnd as [Hk Hnd].
  rewrite <- Nat.add_succ_comm.
  assert (Hsome : is_Some (s !! k)) by apply Hin, list_elem_of_here.
  pose proof (map_size_delete_Some k s Hsome) as Hsize.
  assert (Hpos : (size s <> 0)%nat).
  { intros H0. apply map_size_empty_inv in H0. subst s.
    rewrite lookup_empty in Hsome. by destruct Hsome. }
  rewrite <- (IH (delete k s)) in Hsize; [lia|done|].
  intros k' Hk'. rewrite lookup_delete_ne; [apply Hin; by apply list_elem_of_further|].
  intros ->. done.
Qed.

Lemma filter_fst_elem {A B} (g : A * B -> bool) (l : list (A * B)) k :
  k ∈ (List.filter g l).*1 -> k ∈ l.*1.
Proof.
  intros (x & -> & Hx)%list_elem_of_fmap. apply list_elem_of_fmap.
  exists x. split; [done|]. apply list_elem_of_In in Hx.
  apply filter_In in Hx as [Hx _]. by apply list_elem_of_In.
Qed.

Lemma NoDup_filter_fst {A B} (g : A * B -> bool) (l : list (A * B)) :
  NoDup (l.*1) -> NoDup ((List.filter g l).*1).
Proof.
  induction l as [|x l IH]; simpl; [done|].
  intros [Hx Hnd]%NoDup_cons. destruct (g x); simpl; [|by apply IH].
  apply NoDup_cons. split; [|by apply IH].
  intros Hin. apply Hx. by eapply filter_fst_elem.
Qed.

Lemma Qltb_lt x y : Qltb x y = true <-> (x < y)%Q.
Proof.
  unfold Qltb. rewrite negb_true_iff. split.
  - intros H. apply Qnot_le_lt. intros Hle. apply Qle_bool_iff in Hle. congruence.
  - intros H. destruct (Qle_bool y x) eqn:E; [|done].
    apply Qle_bool_iff in E. by apply Qlt_not_le in H.
Qed.

Lemma cutoff_expired t now :
  Qltb t (now - inject_Z (24 * 60 * 60)) = true <-> (t + 86400 < now)%Q.
Proof.
  rewrite Qltb_lt. change (inject_Z (24 * 60 * 60)) with 86400%Q. split; intros H; lra.
Qed.

Lemma cleanup_typed now (s : Store) :
  store_typed s ->
  cleanup_old_generations now s
  = (let to_delete := (List.filter (old_flag (now - inject_Z (24 * 60 * 60))) (map_to_list s)).*1 in
     let s' := foldl (fun acc g => delete g acc) s to_delete in
     (Http200 {| cleaned := Z.of_nat (length to_delete);
                 remaining := Z.of_nat (size s') |}, s')).
Proof.
  intros Hty. unfold cleanup_old_generations.
  rewrite (filter_raising_ok _ (old_flag (now - inject_Z (24 * 60 * 60)))); [done|].
  intros [gid r] Hin. apply elem_of_map_to_list in Hin.
  destruct (Hty _ _ Hin) as [t Ht]. unfold old_flag. simpl. by rewrite Ht.
Qed.

Lemma to_delete_spec cutoff (s : Store) gid :
  gid ∈ (List.filter (old_flag cutoff) (map_to_list s)).*1
  <-> exists r, s !! gid = Some r /\ old_flag cutoff (gid, r) = true.
Proof.
  rewrite list_elem_of_fmap. split.
  - intros ([g r] & -> & Hin). apply list_elem_of_In, filter_In in Hin as [Hin Hold].
    apply list_elem_of_In, elem_of_map_to_list in Hin. eauto.
  - intros (r & Hr & Hold). exists (gid, r). split; [done|].
    apply list_elem_of_In, filter_In. split; [|done].
    by apply list_elem_of_In, elem_of_map_to_list.
Qed.

Lemma reachable_typed cfg x : reachable cfg x -> store_typed (sys_store x).
Proof.
  intros Hreach gid r Hr.
  destruct (reachable_inv _ _ Hreach) as (_ & _ & Hrec & _).
  by destruct (Hrec _ _ Hr) as (Ht & _).
Qed.

Lemma cleanup_store_lookup now (s : Store) gid :
  store_typed s ->
  (cleanup_old_generations now s).2 !! gid
  = match s !! gid with
    | Some r => if old_flag (now - inject_Z (24 * 60 * 60)) (gid, r)
                then None else Some r
    | None => None
    end.
Proof.
  intros Hty. rewrite cleanup_typed by done. cbv zeta. cbn [snd].
  rewrite foldl_delete_lookup. destruct (decide _) as [Hin|Hnin].
  - apply to_delete_spec in Hin as (r & -> & ->). done.
  - destruct (s !! gid) as [r|] eqn:Hr; [|done].
    destruct (old_flag _ (gid, r)) eqn:Hold; [|done].
    exfalso. apply Hnin, to_delete_spec. eauto.
Qed.

(** C9: on every store the service can reach, DELETE /cleanup at clock
    reading [now] deletes exactly the records created more than 24 hours
    (86400 seconds) before [now] and leaves every other record as it was; it
    answers with the number of records deleted and the number left; and a
    second call at the same clock reading deletes nothing. *)
Theorem cleanup_exact (cfg : Config) (x : Sys) (now : Q) :
  reachable cfg x ->
  (forall gid r, sys_store x !! gid = Some r ->
     exists t, r !! "created_at" = Some (PFloat t)
       /\ ((t + 86400 < now)%Q ->
           (cleanup_old_generations now (sys_store x)).2 !! gid = None)
       /\ (~ (t + 86400 < now)%Q ->
           (cleanup_old_generations now (sys_store x)).2 !! gid = Some r))
  /\ (forall gid, sys_store x !! gid = None ->
        (cleanup_old_generations now (sys_store x)).2 !! gid = None)
  /\ (cleanup_old_generations now (sys_store x)).1
     = Http200
         {| cleaned := Z.of_nat (size (sys_store x))
                       - Z.of_nat (size (cleanup_old_generations now (sys_store x)).2);
            remaining := Z.of_nat (size (cleanup_old_generations now (sys_store x)).2) |}
  /\ cleanup_old_generations now (cleanup_old_generations now (sys_store x)).2
     = (Http200
          {| cleaned := 0;
             remaining := Z.of_nat (size (cleanup_old_generations now (sys_store x)).2) |},
        (cleanup_old_generations now (sys_store x)).2).
Proof.
  intros Hreach. pose proof (reachable_typed _ _ Hreach) as Hty.
  set (s := sys_store x) in *. split_and!.
  - intros gid r Hr. destruct (Hty _ _ Hr) as [t Ht]. exists t. split; [done|].
    rewrite cleanup_store_lookup, Hr by done. unfold old_flag. simpl. rewrite Ht.
    split; intros H.
    + apply cutoff_expired in H. by rewrite H.
    + destruct (Qltb _ _) eqn:E; [|done]. by apply cutoff_expired in E.
  - intros gid Hr. by rewrite cleanup_store_lookup, Hr.
  - rewrite cleanup_typed by done. cbv zeta. cbn [fst snd]. f_equal. f_equal.
    pose proof (size_foldl_delete s
      ((List.filter (old_flag (now - inject_Z (24 * 60 * 60))) (map_to_list s)).*1)) as Hsize.
    rewrite <- Hsize; [lia| |].
    + apply NoDup_filter_fst, NoDup_fst_map_to_list.
    + intros k (r & Hr & _)%to_delete_spec. eauto.
  - set (s' := (cleanup_old_generations now s).2).
    assert (Hty' : store_typed s').
    { intros gid r Hr. unfold s' in Hr. rewrite cleanup_store_lookup in Hr by done.
      destruct (s !! gid) as [r0|] eqn:Hr0; [|done].
      destruct (old_flag _ _); [done|]. injection Hr as <-. eauto. }
    rewrite cleanup_typed by done. cbv zeta.
    assert (Hnil : List.filter (old_flag (now - inject_Z (24 * 60 * 60))) (map_to_list s') = []).
    { destruct (List.filter _ (map_to_list s')) as [|[gid r] l] eqn:Hf; [done|].
      assert (Hin : In (gid, r) (List.filter (old_flag (now - inject_Z (24 * 60 * 60)))
                                   (map_to_list s'))) by (rewrite Hf; by left).
      apply filter_In in Hin as [Hin Hold].
      apply list_elem_of_In, elem_of_map_to_list in Hin. unfold s' in Hin.
      rewrite cleanup_store_lookup in Hin by done.
      destruct (s !! gid) as [r0|] eqn:Hr0; [|done].
      destruct (old_flag _ (gid, r0)) eqn:Hold0; [done|]. injection Hin as ->.
      congruence. }
    rewrite Hnil. reflexivity.
Qed.

Lemma sys_step_absent cfg op x x' gid :
  sys_step cfg op x = Some x' ->
  gid ∈ sys_issued x -> sys_store x !! gid = None ->
  sys_store x' !! gid = None /\ gid ∈ sys_issued x'.
Proof.
  intros Hstep Hiss Hnone. destruct op as [b uuid now|g0|now|now|g c]; simpl in Hstep.
  - destruct (generate_video cfg b uuid now (sys_store x)) as [[resp s'] [task|]] eqn:Hgen.
    + destruct (decide (uuid ∈ sys_issued x)) as [|Hfresh]; [discriminate|].
      injection Hstep as <-.
      destruct (generate_video_accepts _ _ _ _ _ _ _ _ Hgen) as (pd & -> & _). simpl.
      split; [|apply elem_of_union; by right].
      rewrite lookup_insert_ne; [done|]. intros ->. done.
    + by injection Hstep as <-.
  - by injection Hstep as <-.
  - by injection Hstep as <-.
  - injection Hstep as <-. simpl. split; [|done].
    destruct (cleanup_lookup now (sys_store x) gid) as [H|H]; congruence.
  - destruct (sys_tasks x !! g) as [[a|ex|X e k]|]; try discriminate.
    destruct (handle e c (sys_store x)) as [[reply s'] ev] eqn:Hh.
    injection Hstep as <-. simpl. split; [|done].
    destruct (write_fun e) as [[g' f]|] eqn:Hw.
    + pose proof (handle_write e c (sys_store x) g' f Hw) as H. rewrite Hh in H.
      simpl in H. destruct (sys_store x !! g') as [r0|] eqn:Hr0.
      * destruct H as [-> _]. rewrite lookup_insert_ne; [done|]. congruence.
      * by destruct H as [-> _].
    + pose proof (handle_nonwrite e c (sys_store x) Hw) as H. rewrite Hh in H.
      simpl in H. by subst s'.
Qed.

Lemma sys_run_absent cfg ops x x' gid :
  sys_run cfg ops x = Some x' ->
  gid ∈ sys_issued x -> sys_store x !! gid = None ->
  sys_store x' !! gid = None.
Proof.
  revert x. induction ops as [|op ops IH]; simpl; intros x Hrun Hiss Hnone.
  - by injection Hrun as <-.
  - destruct (sys_step cfg op x) as [x1|] eqn:Hstep; [|discriminate].
    destruct (sys_step_absent _ _ _ _ _ Hstep Hiss Hnone) as [H1 H2]. eauto.
Qed.

Lemma sys_run_record cfg ops x x' gid r :
  sys_inv x -> sys_store x !! gid = Some r -> sys_run cfg ops x = Some x' ->
  match sys_store x' !! gid with
  | None => Exists is_cleanup ops
  | Some r' =>
      (forall key, key ∉ touched -> r' !! key = r !! key)
      /\ (terminal r = true -> r' = r)
  end.
Proof.
  revert x r. induction ops as [|op ops IH]; simpl; intros x r Hinv Hr Hrun.
  - injection Hrun as <-. rewrite Hr. auto.
  - destruct (sys_step cfg op x) as [x1|] eqn:Hstep; [|discriminate].
    destruct (sys_step_inv _ _ _ _ Hinv Hstep) as [Hinv1 Hrec].
    specialize (Hrec _ _ Hr). destruct (sys_store x1 !! gid) as [r1|] eqn:Hr1.
    + destruct Hrec as [Hframe Hterm]. specialize (IH _ _ Hinv1 Hr1 Hrun).
      destruct (sys_store x' !! gid) as [r'|]; [|by apply Exists_cons_tl].
      destruct IH as [Hframe' Hterm']. split.
      * intros key Hk. by rewrite Hframe', Hframe.
      * intros Ht. specialize (Hterm Ht). subst r1. by apply Hterm'.
    + assert (Hiss : gid ∈ sys_issued x1).
      { destruct Hinv as (Hds & _).
        assert (gid ∈ sys_issued x) by (apply Hds, elem_of_dom; eauto).
        destruct op as [b uuid now|g0|now|now|g c]; simpl in Hrec; try done.
        by injection Hstep as <-. }
      rewrite (sys_run_absent _ _ _ _ _ Hrun Hiss Hr1). by apply Exists_cons_hd.
Qed.

Lemma x_done_reachable : reachable cfg_none x_done.
Proof. exists ops_complete_g. vm_compute; reflexivity. Qed.

Lemma x_two_reachable : reachable cfg_none x_two.
Proof. exists ops_two. vm_compute; reflexivity. Qed.

(** [cleanup_exact] at time 90000 on a store with a record created at time 5
    and one created at time 90000. *)
Lemma cleanup_exact_witness :
  (forall gid r, sys_store x_two !! gid = Some r ->
     exists t, r !! "created_at" = Some (PFloat t)
       /\ ((t + 86400 < 90000)%Q ->
           (cleanup_old_generations 90000 (sys_store x_two)).2 !! gid = None)
       /\ (~ (t + 86400 < 90000)%Q ->
           (cleanup_old_generations 90000 (sys_store x_two)).2 !! gid = Some r))
  /\ (forall gid, sys_store x_two !! gid = None ->
        (cleanup_old_generations 90000 (sys_store x_two)).2 !! gid = None)
  /\ (cleanup_old_generations 90000 (sys_store x_two)).1
     = Http200
         {| cleaned := Z.of_nat (size (sys_store x_two))
                       - Z.of_nat (size (cleanup_old_generations 90000 (sys_store x_two)).2);
            remaining := Z.of_nat (size (cleanup_old_generations 90000 (sys_store x_two)).2) |}
  /\ cleanup_old_generations 90000 (cleanup_old_generations 90000 (sys_store x_two)).2
     = (Http200
          {| cleaned := 0;
             remaining := Z.of_nat (size (cleanup_old_generations 90000 (sys_store x_two)).2) |},
        (cleanup_old_generations 90000 (sys_store x_two)).2).
Proof. apply (cleanup_exact cfg_none x_two 90000), x_two_reachable. Defined.

(** C2, amended: once a record is terminal no later operation of the
    service changes any of its fields or takes it out of its terminal state:
    after any further operations a status read returns the same answer, for
    as long as the record has not been deleted by DELETE /cleanup; after
    such a deletion the read answers 404. *)
Theorem terminal_records_frozen (cfg : Config) (x x' : Sys) (gid : string)
    (r : pydict) (ops : list Op) :
  reachable cfg x ->
  sys_store x !! gid = Some r -> terminal r = true ->
  sys_run cfg ops x = Some x' ->
  (sys_store x' !! gid = Some r
   /\ get_generation_status gid (sys_store x')
      = get_generation_status gid (sys_store x))
  \/ (Exists is_cleanup ops
      /\ sys_store x' !! gid = None
      /\ get_generation_status gid (sys_store x')
         = HttpError 404 "Generation ID not found").
Proof.
  intros Hreach Hr Ht Hrun.
  pose proof (sys_run_record _ _ _ _ _ _ (reachable_inv _ _ Hreach) Hr Hrun) as H.
  destruct (sys_store x' !! gid) as [r'|] eqn:Hr'.
  - destruct H as [_ H]. rewrite (H Ht) in *. left. split; [done|].
    unfold get_generation_status. by rewrite Hr, Hr'.
  - right. split_and!; [done|done|]. unfold get_generation_status. by rewrite Hr'.
Qed.

(** [terminal_records_frozen] for the completed record of "g" while "h" is
    accepted. *)
Lemma terminal_records_frozen_witness :
  (sys_store x_two !! "g" = Some record_g
   /\ get_generation_status "g" (sys_store x_two)
      = get_generation_status "g" (sys_store x_done))
  \/ (Exists is_cleanup [OpGenerate body_dog "h" 90000]
      /\ sys_store x_two !! "g" = None
      /\ get_generation_status "g" (sys_store x_two)
         = HttpError 404 "Generation ID not found").
Proof.
  apply (terminal_records_frozen cfg_none x_done x_two "g" record_g
           [OpGenerate body_dog "h" 90000]).
  - apply x_done_reachable.
  - vm_compute; reflexivity.
  - vm_compute; reflexivity.
  - vm_compute; reflexivity.
Defined.

(** C2 fails once the record is more than 24 hours old: generation "g",
    created at time 5, is completed and its status read answers
    [completed]; after DELETE /cleanup at time 90000 the same read answers
    404. *)
Lemma cleanup_forgets_terminal_record :
  sys_run cfg_none ops_complete_g sys_init = Some x_done
  /\ (exists r, sys_store x_done !! "g" = Some r /\ terminal r = true)
  /\ get_generation_status "g" (sys_store x_done)
     = Http200 {| status := PStr "completed"; progress := PInt 100;
                  video_url := PStr cat_url; error := PNone |}
  /\ exists x',
       sys_step cfg_none (OpCleanup 90000) x_done = Some x'
       /\ get_generation_status "g" (sys_store x')
          = HttpError 404 "Generation ID not found".
Proof.
  split_and!.
  - vm_compute; reflexivity.
  - exists record_g. split; vm_compute; reflexivity.
  - vm_compute; reflexivity.
  - eexists. split; [reflexivity|]. vm_compute; reflexivity.
Qed.

Lemma failed_no_video_url (r : pydict) :
  record_ok r -> has_status "failed" r = true -> r !! "video_url" = None.
Proof.
  intros (_ & _ & _ & _ & Hurl) Hf. destruct (r !! "video_url") eqn:E; [|done].
  assert (Hc : has_status "completed" r = true) by (apply Hurl; congruence).
  unfold has_status in *. destruct (r !! "status") as [[]|]; try discriminate.
  simpl in *. apply String.eqb_eq in Hf, Hc. congruence.
Qed.

(** C10: in every state the service can reach, each record carries the
    prompt and the creation time it was created with, and a failed record
    carries no video URL; and whatever operations follow, a record that is
    still there agrees with its earlier self on every key other than
    status, progress, video_url, error and completed_at, the prompt and the
    creation time in particular. *)
Theorem creation_fields_frozen (cfg : Config) (x x' : Sys) (ops : list Op) :
  reachable cfg x ->
  sys_run cfg ops x = Some x' ->
  (forall gid r, sys_store x !! gid = Some r ->
     (exists t text, r !! "created_at" = Some (PFloat t)
                     /\ r !! "prompt" = Some (PStr text))
     /\ (has_status "failed" r = true -> r !! "video_url" = None))
  /\ (forall gid r r',
        sys_store x !! gid = Some r -> sys_store x' !! gid = Some r' ->
        r' !! "prompt" = r !! "prompt"
        /\ r' !! "created_at" = r !! "created_at"
        /\ forall key, key ∉ touched -> r' !! key = r !! key).
Proof.
  intros Hreach Hrun. pose proof (reachable_inv _ _ Hreach) as Hinv. split.
  - intros gid r Hr. destruct Hinv as (_ & _ & Hrec & _).
    pose proof (Hrec _ _ Hr) as Hok. split; [|by apply failed_no_video_url].
    destruct Hok as ([t Ht] & [text Hp] & _). eauto.
  - intros gid r r' Hr Hr'.
    pose proof (sys_run_record _ _ _ _ _ _ Hinv Hr Hrun) as H. rewrite Hr' in H.
    destruct H as [Hframe _]. split_and!; [| |done]; apply Hframe; unfold touched;
      repeat (apply not_elem_of_cons; split; [discriminate|]); apply not_elem_of_nil.
Qed.

(** [creation_fields_frozen] between the two reachable states above. *)
Lemma creation_fields_frozen_witness :
  (forall gid r, sys_store x_done !! gid = Some r ->
     (exists t text, r !! "created_at" = Some (PFloat t)
                     /\ r !! "prompt" = Some (PStr text))
     /\ (has_status "failed" r = true -> r !! "video_url" = None))
  /\ (forall gid r r',
        sys_store x_done !! gid = Some r -> sys_store x_two !! gid = Some r' ->
        r' !! "prompt" = r !! "prompt"
        /\ r' !! "created_at" = r !! "created_at"
        /\ forall key, key ∉ touched -> r' !! key = r !! key).
Proof.
  apply (creation_fields_frozen cfg_none x_done x_two [OpGenerate body_dog "h" 90000]).
  - apply x_done_reachable.
  - vm_compute; reflexivity.
Defined.

(** A run that ends in [failed]: the exception of the sleep reaches the
    task's handler, which records it and resets progress to 0. *)
Example failed_run :
  exists x,
    sys_run cfg_none
      (OpGenerate body_cat "g" 5
         :: repeat (OpResume "g" ch_ok) 3 ++ repeat (OpResume "g" ch_sleep_fails) 2)
      sys_init = Some x
    /\ get_generation_status "g" (sys_store x)
       = Http200 {| status := PStr "failed"; progress := PInt 0;
                    video_url := PNone; error := PStr "sleep interrupted" |}
    /\ sys_tasks x !! "g" = Some (Ret tt).
Proof. eexists. split_and!; vm_compute; reflexivity. Qed.

(** ** Runs on concrete inputs *)

(** Luma succeeds: the task stops at Luma, and the record ends completed
    with the URL Luma reported. *)
Example luma_success_run :
  (run env_luma_ok (generate_with_luma_dream_machine cfg_lr "g" pd_cat) w_g).1.1
  = Ok (PStr luma_video)
  /\ marks (run env_luma_ok (process_video_generation cfg_lr "g" pd_cat) w_g).2
     = [Called Luma; Returned Luma (PStr luma_video)]
  /\ map progress_int
       (snapshots (run env_luma_ok (process_video_generation cfg_lr "g" pd_cat) w_g).2)
     = [10; 25; 50; 75; 90; 100]
  /\ get_generation_status "g"
       (store (run env_luma_ok (process_video_generation cfg_lr "g" pd_cat) w_g).1.2)
     = Http200 {| status := PStr "completed"; progress := PInt 100;
                  video_url := PStr luma_video; error := PNone |}.
Proof. split_and!; by vm_compute. Qed.

(** The poll budget: a job that never finishes costs Luma's adapter the
    submission and exactly 30 polls, and yields [None]. *)
Example luma_poll_budget :
  (run env_luma_pending (generate_with_luma_dream_machine cfg_lr "g" pd_cat) w_g).1.1
  = Ok PNone
  /\ length (responses
       (run env_luma_pending (generate_with_luma_dream_machine cfg_lr "g" pd_cat) w_g).2)
     = 31%nat
  /\ length (sleeps
       (run env_luma_pending (generate_with_luma_dream_machine cfg_lr "g" pd_cat) w_g).2)
     = 30%nat.
Proof. split_and!; by vm_compute. Qed.

(** A network error at submission is swallowed. *)
Example luma_network_error :
  (run {| env_http := fun _ => Exc (OtherError "connection refused");
          env_sleep := fun _ => Ok tt; env_time := fun _ => 100%Q |}
       (generate_with_luma_dream_machine cfg_lr "g" pd_cat) w_g).1.1
  = Ok PNone.
Proof. by vm_compute. Qed.

(** ** Lemmas on effects and budgets *)

Lemma every_effect_bind {A B} P (m : Prog A) (f : A -> Prog B) :
  every_effect P m -> (forall a, every_effect P (f a)) -> every_effect P (bind m f).
Proof.
  induction m as [a|e|X e k IH]; simpl; intros Hm Hf; auto.
  destruct Hm as [He Hk]. split; auto.
Qed.

Lemma every_effect_try {A} P (b : Prog A) (h : Exn -> Prog A) :
  every_effect P b -> (forall e, every_effect P (h e)) -> every_effect P (try_except b h).
Proof.
  induction b as [a|e|X e k IH]; simpl; intros Hb Hh; auto.
  destruct Hb as [He Hk]. split; auto.
Qed.

Lemma every_effect_perform {X} (P : forall X, Eff X -> Prop) (e : Eff X) :
  P _ e -> every_effect P (perform e).
Proof. intros He. simpl. split; [done|]. by intros [x|ex]. Qed.

Lemma every_effect_lift {A} P (o : outcome A) : every_effect P (lift o).
Proof. by destruct o. Qed.

Lemma every_effect_mono {A} (P P' : forall X, Eff X -> Prop) (p : Prog A) :
  (forall X (e : Eff X), P _ e -> P' _ e) -> every_effect P p -> every_effect P' p.
Proof.
  intros HP. induction p as [a|e|X e k IH]; simpl; auto.
  intros [He Hk]. split; auto.
Qed.

(** What holds of every effect holds of every event of every run. *)
Lemma every_effect_run {A} (P : forall X, Eff X -> Prop) (Pev : Event -> Prop)
    (p : Prog A) env w :
  (forall X (e : Eff X) c s, P _ e -> Pev (handle e c s).2) ->
  every_effect P p -> Forall Pev (run env p w).2.
Proof.
  intros HP. revert w. induction p as [a|e|X e k IH]; simpl; intros w Hp;
    [constructor|constructor|].
  destruct Hp as [He Hk].
  pose proof (HP _ e (choice_at env w) (store w) He) as Hev.
  destruct (handle e (choice_at env w) (store w)) as [[r s'] ev].
  specialize (IH r (advance e s' w) (Hk r)).
  destruct (run env (k r) (advance e s' w)) as [[res w'] tr]. simpl in *.
  by constructor.
Qed.

Lemma within_mono {A} cost n n' (p : Prog A) :
  n <= n' -> within cost n p -> within cost n' p.
Proof.
  revert n n'. induction p as [a|e|X e k IH]; simpl; intros n n' Hle Hp; try lia.
  intros r. eapply IH; [|apply Hp]. lia.
Qed.

Lemma within_bind {A B} cost n n' (m : Prog A) (f : A -> Prog B) :
  0 <= n' -> within cost n m -> (forall a, within cost n' (f a)) ->
  within cost (n + n') (bind m f).
Proof.
  intros Hn'. revert n. induction m as [a|e|X e k IH]; simpl; intros n Hm Hf.
  - eapply within_mono; [|apply Hf]. lia.
  - lia.
  - intros r. replace (n + n' - cost X e) with ((n - cost X e) + n') by lia. auto.
Qed.

Lemma within_try {A} cost n n' (b : Prog A) (h : Exn -> Prog A) :
  0 <= n' -> within cost n b -> (forall e, within cost n' (h e)) ->
  within cost (n + n') (try_except b h).
Proof.
  intros Hn'. revert n. induction b as [a|e|X e k IH]; simpl; intros n Hb Hh.
  - lia.
  - eapply within_mono; [|apply Hh]. lia.
  - intros r. replace (n + n' - cost X e) with ((n - cost X e) + n') by lia. auto.
Qed.

Lemma within_perform {X} cost (e : Eff X) : 0 <= cost _ e -> within cost (cost _ e) (perform e).
Proof. intros He. simpl. intros [x|ex]; simpl; lia. Qed.

Lemma within_lift {A} cost (o : outcome A) : within cost 0 (lift o).
Proof. destruct o; simpl; lia. Qed.

(** A budget on the effects bounds what every run spends. *)
Lemma within_run {A} (cost : forall X, Eff X -> Z) (cev : Event -> Z)
    n (p : Prog A) env w :
  (forall X (e : Eff X) c s, cev (handle e c s).2 = cost _ e) ->
  within cost n p -> spent cev (run env p w).2 <= n.
Proof.
  intros Hc. revert n w. induction p as [a|e|X e k IH]; simpl; intros n w Hp; try lia.
  pose proof (Hc _ e (choice_at env w) (store w)) as Hev.
  destruct (handle e (choice_at env w) (store w)) as [[r s'] ev].
  specialize (IH r _ (advance e s' w) (Hp r)).
  destruct (run env (k r) (advance e s' w)) as [[res w'] tr]. simpl in *. lia.
Qed.

Lemma spent_http tr : spent http_event_cost tr = Z.of_nat (length (requests tr)).
Proof.
  induction tr as [|ev tr IH]; [done|]. unfold requests in *.
  destruct ev; cbn [spent foldr http_event_cost omap list_omap length];
    fold (spent http_event_cost tr); rewrite ?Nat2Z.inj_succ; lia.
Qed.

Lemma spent_sleep tr : spent sleep_event_cost tr = slept tr.
Proof. induction tr as [|ev tr IH]; [done|]. destruct ev; simpl in *; lia. Qed.

Lemma http_cost_event {X} (e : Eff X) c s : http_event_cost (handle e c s).2 = http_cost _ e.
Proof. destruct e; simpl; try done; unfold store_write; by destruct (s !! gid). Qed.

Lemma sleep_cost_event {X} (e : Eff X) c s : sleep_event_cost (handle e c s).2 = sleep_cost _ e.
Proof. destruct e; simpl; try done; unfold store_write; by destruct (s !! gid). Qed.

Lemma within_seq {A B} cost a n (m : Prog A) (f : A -> Prog B) :
  within cost a m -> 0 <= n - a -> (forall x, within cost (n - a) (f x)) ->
  within cost n (bind m f).
Proof.
  intros Hm Hn Hf. replace n with (a + (n - a)) by lia. by apply within_bind.
Qed.

Lemma within_guarded {A} cost n (b : Prog A) (h : Exn -> Prog A) :
  within cost n b -> (forall e, within cost 0 (h e)) -> within cost n (try_except b h).
Proof.
  intros Hb Hh. replace n with (n + 0) by lia. by apply within_try.
Qed.

(** Budgets of straight-line code: each leaf takes its own cost, the rest
    goes to what follows. *)
Ltac within_leaf :=
  first [ apply within_perform; simpl; lia | apply within_lift ].

Ltac within_auto IH :=
  unfold set_progress, post, get;
  repeat first
    [ match goal with
      | |- within _ _ (if ?b then _ else _) => destruct b
      | |- within _ _ (match ?o with Some _ => _ | None => _ end) => destruct o
      | |- within _ _ (Ret _) => simpl; lia
      | |- within _ _ (perform _) =>
          (eapply within_mono; [|apply within_perform; simpl; lia]); simpl; lia
      | |- within _ _ (bind _ _) =>
          eapply within_seq; [within_leaf|simpl; lia|intros ?]
      end
    | (eapply within_mono; [|apply IH]); simpl; lia ].

Lemma luma_poll_http gid n auth idl :
  within http_cost (Z.of_nat n) (luma_poll gid n auth idl).
Proof.
  induction n as [|n IH]; [simpl; lia|]. cbn [luma_poll].
  rewrite Nat2Z.inj_succ. within_auto IH.
Qed.

Lemma luma_poll_sleep gid n auth idl :
  within sleep_cost (10 * Z.of_nat n) (luma_poll gid n auth idl).
Proof.
  induction n as [|n IH]; [simpl; lia|]. cbn [luma_poll].
  rewrite Nat2Z.inj_succ. within_auto IH.
Qed.

Lemma replicate_poll_http gid n auth pid :
  within http_cost (Z.of_nat n) (replicate_poll gid n auth pid).
Proof.
  induction n as [|n IH]; [simpl; lia|]. cbn [replicate_poll].
  rewrite Nat2Z.inj_succ. within_auto IH.
Qed.

Lemma replicate_poll_sleep gid n auth pid :
  within sleep_cost (10 * Z.of_nat n) (replicate_poll gid n auth pid).
Proof.
  induction n as [|n IH]; [simpl; lia|]. cbn [replicate_poll].
  rewrite Nat2Z.inj_succ. within_auto IH.
Qed.

Lemma within_guard_ret cost n (body : Prog (option pyval)) :
  within cost n body ->
  within cost n (r <- try_except body (fun _ => Ret None) ;; Ret (default PNone r)).
Proof.
  intros Hb. eapply (within_seq _ n); [|lia|intros ?; simpl; lia].
  apply within_guarded; [done|]. intros ?. simpl. lia.
Qed.

Ltac within_adapter L :=
  match goal with
  | |- within _ _ (if ?b then _ else _) => destruct b; [simpl; lia|]
  end;
  apply within_guard_ret; within_auto L.

Lemma luma_http cfg gid pd :
  within http_cost 31 (generate_with_luma_dream_machine cfg gid pd).
Proof.
  unfold generate_with_luma_dream_machine.
  within_adapter (luma_poll_http gid 30 (bearer (LUMA_API_KEY cfg))).
Qed.

Lemma luma_sleep cfg gid pd :
  within sleep_cost 300 (generate_with_luma_dream_machine cfg gid pd).
Proof.
  unfold generate_with_luma_dream_machine.
  within_adapter (luma_poll_sleep gid 30 (bearer (LUMA_API_KEY cfg))).
Qed.

Lemma replicate_http cfg gid pd :
  within http_cost 21 (generate_with_replicate cfg gid pd).
Proof.
  unfold generate_with_replicate.
  within_adapter (replicate_poll_http gid 20 (token (REPLICATE_API_TOKEN cfg))).
Qed.

Lemma replicate_sleep cfg gid pd :
  within sleep_cost 200 (generate_with_replicate cfg gid pd).
Proof.
  unfold generate_with_replicate.
  within_adapter (replicate_poll_sleep gid 20 (token (REPLICATE_API_TOKEN cfg))).
Qed.

Lemma huggingface_http cfg gid pd :
  within http_cost 1 (generate_with_huggingface cfg gid pd).
Proof. unfold generate_with_huggingface. within_adapter I. Qed.

Lemma huggingface_sleep cfg gid pd :
  within sleep_cost 0 (generate_with_huggingface cfg gid pd).
Proof. unfold generate_with_huggingface. within_adapter I. Qed.

Lemma mock_http gid pd : within http_cost 0 (generate_enhanced_mock_video gid pd).
Proof. unfold generate_enhanced_mock_video. within_auto I. Qed.

Lemma mock_sleep gid pd : within sleep_cost 4 (generate_enhanced_mock_video gid pd).
Proof. unfold generate_enhanced_mock_video. within_auto I. Qed.

Lemma await_within (cost : forall X, Eff X -> Z) a n (m : Prog pyval) :
  cost _ (Note (Called a)) = 0 -> (forall v, cost _ (Note (Returned a v)) = 0) ->
  within cost n m -> 0 <= n -> within cost n (await a m).
Proof.
  intros H1 H2 Hm Hn. unfold await.
  eapply (within_seq _ 0); [rewrite <- H1; apply within_perform; lia|lia|intros _].
  eapply (within_seq _ n); [done|lia|intros v].
  eapply (within_seq _ 0); [rewrite <- (H2 v); apply within_perform; rewrite H2; lia|lia|intros _].
  simpl. lia.
Qed.

Lemma stage_within (cost : forall X, Eff X -> Z) a n k (c : bool) (m : Prog pyval) v0
    (rest : pyval -> Prog unit) :
  cost _ (Note (Called a)) = 0 -> (forall v, cost _ (Note (Returned a v)) = 0) ->
  0 <= n -> 0 <= k ->
  within cost n m -> (forall v, within cost k (rest v)) ->
  within cost (n + k) (v <- (if c then await a m else Ret v0) ;; rest v).
Proof.
  intros H1 H2 Hn Hk Hm Hrest. apply within_bind; [done| |done].
  destruct c; [by apply await_within|simpl; lia].
Qed.

Lemma process_http cfg gid pd :
  within http_cost 53 (process_video_generation cfg gid pd).
Proof.
  unfold process_video_generation, process_body.
  apply within_guarded; [|intros e; within_auto I].
  eapply within_seq; [within_leaf|simpl; lia|intros _]. cbv zeta. simpl Z.sub.
  apply (stage_within http_cost Luma 31 22); try done; [apply luma_http|intros v1].
  apply (stage_within http_cost Replicate 21 1); try done; [apply replicate_http|intros v2].
  apply (stage_within http_cost HuggingFace 1 0); try done; [apply huggingface_http|intros v3].
  replace 0 with (0 + 0) by lia.
  apply (stage_within http_cost Mock 0 0); try done; [apply mock_http|intros v4].
  within_auto I.
Qed.

Lemma process_sleep cfg gid pd :
  within sleep_cost 504 (process_video_generation cfg gid pd).
Proof.
  unfold process_video_generation, process_body.
  apply within_guarded; [|intros e; within_auto I].
  eapply within_seq; [within_leaf|simpl; lia|intros _]. cbv zeta. simpl Z.sub.
  apply (stage_within sleep_cost Luma 300 204); try done; [apply luma_sleep|intros v1].
  apply (stage_within sleep_cost Replicate 200 4); try done; [apply replicate_sleep|intros v2].
  replace 4 with (0 + 4) by lia.
  apply (stage_within sleep_cost HuggingFace 0 4); try done; [apply huggingface_sleep|intros v3].
  replace 4 with (4 + 0) by lia.
  apply (stage_within sleep_cost Mock 4 0); try done; [apply mock_sleep|intros v4].
  within_auto I.
Qed.

(** ** What the adapters send *)

Lemma sends_event {X} R (e : Eff X) c s :
  sends R _ e ->
  match (handle e c s).2 with EvHttp req _ => R req | _ => True end.
Proof. destruct e; simpl; try done; unfold store_write; by destruct (s !! gid). Qed.

Lemma Forall_requests (R : Request -> Prop) tr :
  Forall (fun ev => match ev with EvHttp req _ => R req | _ => True end) tr ->
  Forall R (requests tr).
Proof.
  induction 1 as [|ev tr Hev _ IH]; [constructor|].
  unfold requests in *. destruct ev; simpl; auto.
Qed.

Lemma sends_run {A} R (p : Prog A) env w :
  every_effect (sends R) p -> Forall R (requests (run env p w).2).
Proof.
  intros Hp. apply Forall_requests.
  eapply every_effect_run; [|exact Hp]. intros X e c s. apply sends_event.
Qed.

Ltac every_auto IH :=
  unfold set_progress, post, get; cbv zeta;
  repeat first
    [ match goal with
      | |- every_effect _ (if ?b then _ else _) => destruct b
      | |- every_effect _ (match ?o with Some _ => _ | None => _ end) => destruct o
      | |- every_effect _ (Ret _) => exact I
      | |- every_effect _ (lift _) => apply every_effect_lift
      | |- every_effect _ (perform _) => apply every_effect_perform
      | |- every_effect _ (bind _ _) => apply every_effect_bind; [|intros ?]
      | |- every_effect _ (try_except _ _) => apply every_effect_try; [|intros ?]
      | |- every_effect _ (await _ _) => unfold await
      | |- every_effect _ (luma_poll _ _ _ _) => apply IH
      | |- every_effect _ (replicate_poll _ _ _ _) => apply IH
      end ].

Ltac request_ok :=
  cbn [sends]; unfold luma_request, replicate_request, huggingface_request;
  cbn [req_method req_url req_url_arg req_authorization req_json req_timeout];
  first [ exact I
        | split_and!; first [reflexivity | left; by split_and! | right; by split_and!] ].

Lemma luma_poll_sends cfg gid pd n idl :
  every_effect (sends (luma_request cfg pd))
    (luma_poll gid n (bearer (LUMA_API_KEY cfg)) idl).
Proof.
  induction n as [|n IH]; [exact I|]. cbn [luma_poll].
  every_auto IH; request_ok.
Qed.

Lemma luma_sends cfg gid pd :
  every_effect (sends (luma_request cfg pd)) (generate_with_luma_dream_machine cfg gid pd).
Proof.
  unfold generate_with_luma_dream_machine.
  every_auto (luma_poll_sends cfg gid pd 30); request_ok.
Qed.

Lemma replicate_poll_sends cfg gid pd n idl :
  every_effect (sends (replicate_request cfg pd))
    (replicate_poll gid n (token (REPLICATE_API_TOKEN cfg)) idl).
Proof.
  induction n as [|n IH]; [exact I|]. cbn [replicate_poll].
  every_auto IH; request_ok.
Qed.

Lemma replicate_sends cfg gid pd :
  every_effect (sends (replicate_request cfg pd)) (generate_with_replicate cfg gid pd).
Proof.
  unfold generate_with_replicate.
  every_auto (replicate_poll_sends cfg gid pd 20); request_ok.
Qed.

Lemma huggingface_sends cfg gid pd :
  every_effect (sends (huggingface_request cfg pd)) (generate_with_huggingface cfg gid pd).
Proof. unfold generate_with_huggingface. every_auto I; request_ok. Qed.

Lemma mock_sends gid pd :
  every_effect (sends (fun _ => False)) (generate_enhanced_mock_video gid pd).
Proof. unfold generate_enhanced_mock_video. every_auto I; exact I. Qed.

Lemma sends_mono {A} (R R' : Request -> Prop) (p : Prog A) :
  (forall req, R req -> R' req) ->
  every_effect (sends R) p -> every_effect (sends R') p.
Proof.
  intros HR. apply every_effect_mono. intros X e. destruct e; simpl; auto.
Qed.

Lemma process_sends cfg gid pd :
  every_effect
    (sends (fun req => luma_request cfg pd req \/ replicate_request cfg pd req
                       \/ huggingface_request cfg pd req))
    (process_video_generation cfg gid pd).
Proof.
  unfold process_video_generation, process_body. cbv zeta.
  every_auto I; try exact I.
  - eapply sends_mono; [|apply luma_sends]. auto.
  - eapply sends_mono; [|apply replicate_sends]. auto.
  - eapply sends_mono; [|apply huggingface_sends]. auto.
  - eapply sends_mono; [|apply mock_sends]. done.
Qed.

Lemma every_effect_wp {A} (P : forall X, Eff X -> Prop) (Pev : Event -> Prop)
    (p : Prog A) s :
  (forall X (e : Eff X) c s, P _ e -> Pev (handle e c s).2) ->
  every_effect P p -> wp p s (fun _ _ tr => Forall Pev tr).
Proof.
  intros HP. revert s. induction p as [a|e|X e k IH]; simpl; intros s Hp;
    [constructor|constructor|].
  destruct Hp as [He Hk]. intros c. eapply wp_mono; [|apply IH, Hk].
  intros o s' tr Htr. constructor; [by apply HP|done].
Qed.

Lemma exchanges_app tr1 tr2 : exchanges (tr1 ++ tr2) = exchanges tr1 ++ exchanges tr2.
Proof. apply omap_app. Qed.

Lemma Forall_exchanges (R : Request -> Prop) tr :
  Forall (fun ev => match ev with EvHttp req _ => R req | _ => True end) tr ->
  Forall (fun x => R x.1) (exchanges tr).
Proof.
  induction 1 as [|ev tr Hev _ IH]; [constructor|].
  unfold exchanges in *. destruct ev; simpl; auto.
Qed.

Lemma wp_guarded_trace (T : list Event -> Prop) (body : Prog (option pyval)) s :
  wp body s (fun _ _ tr => T tr) ->
  wp (r <- try_except body (fun _ => Ret None) ;; Ret (default PNone r)) s
     (fun _ _ tr => T tr).
Proof.
  intros H. apply wp_bind, wp_try_except. eapply wp_mono; [|exact H].
  intros [v|e] s1 tr Htr; simpl; by rewrite ?app_nil_r.
Qed.

Lemma luma_poll_polls gid n auth idl :
  every_effect (sends (polls_job idl)) (luma_poll gid n auth idl).
Proof.
  induction n as [|n IH]; [exact I|]. cbn [luma_poll].
  every_auto IH; simpl; try exact I. by split.
Qed.

Lemma replicate_poll_polls gid n auth idl :
  every_effect (sends (polls_job idl)) (replicate_poll gid n auth idl).
Proof.
  induction n as [|n IH]; [exact I|]. cbn [replicate_poll].
  every_auto IH; simpl; try exact I. by split.
Qed.

Lemma polls_wp {A} (p : Prog A) idl s :
  every_effect (sends (polls_job idl)) p ->
  wp p s (fun _ _ tr => Forall (fun x => polls_job idl x.1) (exchanges tr)).
Proof.
  intros Hp. eapply wp_mono; [|eapply every_effect_wp; [|exact Hp]].
  - intros o s' tr. apply Forall_exchanges.
  - intros X e c s0. apply sends_event.
Qed.

(** The shape shared by the Luma and Replicate adapters: two progress
    writes, the submission, and polls only after a 201 answer. *)
Lemma submit_then_poll_wp gid z1 z2 z3 url auth payload
    (poll : pyval -> Prog (option pyval)) s :
  (forall idl, every_effect (sends (polls_job idl)) (poll idl)) ->
  wp (set_progress gid z1 >>
      set_progress gid z2 >>
      response <- post url auth payload 30 ;;
      if status_code response =? 201 then
        result <- lift (json response) ;;
        job <- lift (Py.get result "id" PNone) ;;
        set_progress gid z3 >>
        poll job
      else Ret None) s
     (fun _ _ tr => polls_created_job (exchanges tr)).
Proof.
  intros Hpoll.
  apply wp_bind, wp_set_progress; [|done]. intros r1 Hr1.
  apply wp_bind, wp_set_progress; [|done]. intros r2 Hr2.
  apply wp_bind, wp_perform. intros c. cbn [handle fst snd].
  destruct (ch_http c) as [response|e]; [|simpl; split; [done|congruence]].
  destruct (status_code response =? 201) eqn:Hcode;
    [|simpl; split; [done|congruence]].
  apply wp_bind, wp_lift.
  destruct (json response) as [result|e] eqn:Hjson; [|simpl; split; [done|congruence]].
  apply wp_bind, wp_lift.
  destruct (Py.get result "id" PNone) as [job|e] eqn:Hjob;
    [|simpl; split; [done|congruence]].
  destruct result as [| | | | | |d]; try discriminate.
  simpl in Hjob. injection Hjob as <-.
  apply wp_bind, wp_set_progress; [|simpl; split; [done|congruence]].
  intros r3 Hr3.
  eapply wp_mono; [|apply (polls_wp _ _ _ (Hpoll _))].
  intros o s' tr Hall. simpl. split; [done|]. intros _.
  exists response, d. split_and!; auto. by apply Z.eqb_eq.
Qed.

Lemma luma_polls_wp cfg gid pd s :
  wp (generate_with_luma_dream_machine cfg gid pd) s
     (fun _ _ tr => polls_created_job (exchanges tr)).
Proof.
  unfold generate_with_luma_dream_machine. destruct (negb _); [exact I|].
  apply wp_guarded_trace.
  apply (submit_then_poll_wp gid 25 50 75 luma_url (bearer (LUMA_API_KEY cfg))
           (luma_payload pd) (luma_poll gid 30 (bearer (LUMA_API_KEY cfg)))).
  intros idl. apply luma_poll_polls.
Qed.

Lemma replicate_polls_wp cfg gid pd s :
  wp (generate_with_replicate cfg gid pd) s
     (fun _ _ tr => polls_created_job (exchanges tr)).
Proof.
  unfold generate_with_replicate. destruct (negb _); [exact I|].
  apply wp_guarded_trace.
  apply (submit_then_poll_wp gid 35 55 75 replicate_url (token (REPLICATE_API_TOKEN cfg))
           (replicate_payload pd) (replicate_poll gid 20 (token (REPLICATE_API_TOKEN cfg)))).
  intros idl. apply replicate_poll_polls.
Qed.

(** ** The chain of adapters and the end of a generation *)

Lemma wp_conj {A} (p : Prog A) s (Q1 Q2 : outcome A -> Store -> list Event -> Prop) :
  wp p s Q1 -> wp p s Q2 -> wp p s (fun o s' tr => Q1 o s' tr /\ Q2 o s' tr).
Proof.
  revert s Q1 Q2. induction p as [a|e|X e k IH]; simpl; intros s Q1 Q2 H1 H2; auto.
Qed.

Lemma handle_present {X} (e : Eff X) c (s : Store) g :
  is_Some ((handle e c s).1.2 !! g) <-> is_Some (s !! g).
Proof.
  destruct e; simpl; try done; unfold store_write;
    (destruct (s !! gid) as [r|] eqn:Hr; simpl; [|done]);
    (destruct (decide (g = gid)) as [->|Hne];
       [rewrite lookup_insert_eq, Hr; split; eauto
       |by rewrite lookup_insert_ne]).
Qed.

(** No coroutine creates or deletes a record. *)
Lemma wp_present {A} (p : Prog A) s :
  wp p s (fun _ s' _ => forall g, is_Some (s' !! g) <-> is_Some (s !! g)).
Proof.
  revert s. induction p as [a|e|X e k IH]; simpl; intros s; try done.
  intros c. eapply wp_mono; [|apply IH]. simpl. intros o s' tr H g.
  rewrite H. apply handle_present.
Qed.

Lemma long_sleep_wp {A} (p : Prog A) s :
  every_effect long_sleep p -> wp p s (fun _ _ tr => forall e, ~ interrupted e tr).
Proof.
  intros Hp. eapply wp_mono; [|eapply (every_effect_wp long_sleep
    (fun ev => match ev with EvSleep secs _ => secs = 10 | _ => True end)); [|exact Hp]].
  - intros o s' tr Hall e Hin. unfold interrupted in Hin.
    rewrite Forall_forall in Hall. by specialize (Hall _ Hin).
  - intros X e c s0. destruct e; simpl; try done; unfold store_write; by destruct (s0 !! gid).
Qed.

Lemma luma_poll_long gid n auth idl : every_effect long_sleep (luma_poll gid n auth idl).
Proof.
  induction n as [|n IH]; [exact I|]. cbn [luma_poll]. every_auto IH; done.
Qed.

Lemma replicate_poll_long gid n auth idl :
  every_effect long_sleep (replicate_poll gid n auth idl).
Proof.
  induction n as [|n IH]; [exact I|]. cbn [replicate_poll]. every_auto IH; done.
Qed.

Lemma luma_long cfg gid pd :
  every_effect long_sleep (generate_with_luma_dream_machine cfg gid pd).
Proof.
  unfold generate_with_luma_dream_machine.
  every_auto (luma_poll_long gid 30 (bearer (LUMA_API_KEY cfg))); done.
Qed.

Lemma replicate_long cfg gid pd :
  every_effect long_sleep (generate_with_replicate cfg gid pd).
Proof.
  unfold generate_with_replicate.
  every_auto (replicate_poll_long gid 20 (token (REPLICATE_API_TOKEN cfg))); done.
Qed.

Lemma huggingface_long cfg gid pd :
  every_effect long_sleep (generate_with_huggingface cfg gid pd).
Proof. unfold generate_with_huggingface. every_auto I; done. Qed.

Lemma interrupted_app e tr1 tr2 :
  interrupted e (tr1 ++ tr2) <-> interrupted e tr1 \/ interrupted e tr2.
Proof. unfold interrupted. apply elem_of_app. Qed.

Lemma url_source_mono pd a v tr tr' :
  (forall resp, resp ∈ responses tr -> resp ∈ responses tr') ->
  url_source pd a v tr -> url_source pd a v tr'.
Proof.
  intros Hsub. destruct a; simpl; try done.
  - intros (resp & Hin & H). eauto.
  - intros (resp & Hin & H). eauto.
  - intros (-> & resp & Hin & H). eauto.
Qed.

Lemma responses_in_l tr1 tr2 resp : resp ∈ responses tr1 -> resp ∈ responses (tr1 ++ tr2).
Proof. rewrite responses_app, elem_of_app. auto. Qed.

Lemma responses_in_r tr1 tr2 resp : resp ∈ responses tr2 -> resp ∈ responses (tr1 ++ tr2).
Proof. rewrite responses_app, elem_of_app. auto. Qed.

Lemma truthy_not_none v : Py.truthy v = true -> v <> PNone.
Proof. by intros H ->. Qed.

Lemma provider_post_intro pd gid a (m : Prog pyval) lo R s :
  (forall v tr, R v tr -> Py.truthy v = true -> url_source pd a v tr) ->
  every_effect long_sleep m ->
  wp m s (adapter_post gid (Some (PStr "processing")) lo R) ->
  wp m s (provider_post pd gid a s).
Proof.
  intros HR Hlong Hm.
  eapply wp_mono; [|apply (wp_conj _ _ _ _ Hm
                     (wp_conj _ _ _ _ (wp_present m s) (long_sleep_wp m s Hlong)))].
  intros o s' tr ((Hmarks & Hst & _ & v & -> & Hv) & Hpres & Hcalm).
  unfold provider_post. split_and!; eauto.
Qed.

Lemma luma_provider cfg pd gid s :
  rec_status gid (Some (PStr "processing")) s ->
  wp (generate_with_luma_dream_machine cfg gid pd) s (provider_post pd gid Luma s).
Proof.
  intros Hst. eapply provider_post_intro; [|apply luma_long|by apply luma_wp].
  intros v tr HR Hv. apply HR. by apply truthy_not_none.
Qed.

Lemma replicate_provider cfg pd gid s :
  rec_status gid (Some (PStr "processing")) s ->
  wp (generate_with_replicate cfg gid pd) s (provider_post pd gid Replicate s).
Proof.
  intros Hst. eapply provider_post_intro; [|apply replicate_long|by apply replicate_wp].
  intros v tr HR Hv. apply HR. by apply truthy_not_none.
Qed.

Lemma huggingface_provider cfg pd gid s :
  rec_status gid (Some (PStr "processing")) s ->
  wp (generate_with_huggingface cfg gid pd) s (provider_post pd gid HuggingFace s).
Proof.
  intros Hst. eapply provider_post_intro; [|apply huggingface_long|by apply huggingface_wp].
  intros v tr HR Hv. apply HR. by apply truthy_not_none.
Qed.

Lemma mock_url_truthy text : Py.truthy (PStr (mock_video_url text)) = true.
Proof. unfold mock_video_url. by repeat destruct (any_word_in _ _). Qed.

Lemma interrupted_mark e m tr : interrupted e (EvMark m :: tr) <-> interrupted e tr.
Proof.
  unfold interrupted. rewrite elem_of_cons. split; [|auto]. by intros [?|?].
Qed.

Lemma not_interrupted_nil e : ~ interrupted e [].
Proof. unfold interrupted. apply not_elem_of_nil. Qed.

Lemma mock_outcome_wp gid pd s :
  is_Some (s !! gid) ->
  wp (generate_enhanced_mock_video gid pd) s
     (fun o s' tr =>
        marks tr = [] /\ is_Some (s' !! gid)
        /\ match o with
           | Ok v => v = PStr (mock_video_url (prompt pd))
                     /\ forall e, ~ interrupted e tr
           | Exc e => interrupted e tr
           end).
Proof.
  intros [r Hr]. unfold generate_enhanced_mock_video.
  apply wp_bind, wp_set_progress; [|congruence].
  intros r60 Hr60.
  apply wp_bind, wp_perform. intros c. cbn [handle fst snd].
  destruct (ch_sleep c) as [[]|e].
  2:{ simpl. split_and!; [done|by rewrite lookup_insert_eq|].
      unfold interrupted. apply list_elem_of_further, list_elem_of_here. }
  apply wp_bind, wp_set_progress; [|rewrite lookup_insert_eq; discriminate].
  intros r80 Hr80.
  apply wp_bind, wp_perform. intros c'. cbn [handle fst snd].
  destruct (ch_sleep c') as [[]|e]; simpl.
  - split_and!; [done|by rewrite lookup_insert_eq|done|].
    intros e Hin. unfold interrupted in Hin.
    repeat (apply elem_of_cons in Hin as [Hin|Hin]; [discriminate|]).
    by apply not_elem_of_nil in Hin.
  - split_and!; [done|by rewrite lookup_insert_eq|].
    unfold interrupted. do 3 apply list_elem_of_further. apply list_elem_of_here.
Qed.

Lemma finish_outcome pd gid a v pre s :
  is_Some (s !! gid) -> (forall e, ~ interrupted e pre) ->
  last (marks pre) = Some (Returned a v) -> Py.truthy v = true ->
  url_source pd a v pre ->
  wp (now <- perform TimeTime ;;
      perform (Update gid [("status", PStr "completed"); ("progress", PInt 100);
                           ("video_url", v); ("completed_at", PFloat now)])) s
     (fun o s' tr => body_outcome pd gid o s' (pre ++ tr)).
Proof.
  intros [r Hr] Hcalm Hlast Hv Hsrc.
  apply wp_bind, wp_perform. intros c. cbn [handle fst snd].
  apply wp_perform. intros c'. cbn [handle]. unfold store_write. rewrite Hr.
  cbn [fst snd]. unfold body_outcome. split.
  - intros e [Hin|Hin]%interrupted_app; [by eapply Hcalm|].
    unfold interrupted in Hin. simpl in Hin.
    repeat (apply elem_of_cons in Hin as [Hin|Hin]; [discriminate|]).
    by apply not_elem_of_nil in Hin.
  - eexists _, a, v, (ch_time c). split_and!.
    + apply lookup_insert_eq.
    + rewrite marks_app. simpl. by rewrite app_nil_r.
    + done.
    + eapply url_source_mono; [|exact Hsrc]. intros resp. apply responses_in_l.
    + apply elem_of_app. right. apply list_elem_of_here.
    + unfold completed_with. simpl. by lookups.
Qed.

Lemma last_marks_returned pre a tr1 v :
  marks tr1 = [] ->
  last (marks (pre ++ EvMark (Called a) :: tr1 ++ [EvMark (Returned a v)]))
  = Some (Returned a v).
Proof.
  intros Hm. rewrite marks_app. simpl. rewrite marks_app, Hm. simpl.
  rewrite last_app. reflexivity.
Qed.

Lemma not_interrupted_await pre a tr1 v :
  (forall e, ~ interrupted e pre) -> (forall e, ~ interrupted e tr1) ->
  forall e, ~ interrupted e (pre ++ EvMark (Called a) :: tr1 ++ [EvMark (Returned a v)]).
Proof.
  intros H1 H2 e [Hin|Hin]%interrupted_app; [by eapply H1|].
  apply interrupted_mark in Hin. apply interrupted_app in Hin as [Hin|Hin]; [by eapply H2|].
  apply interrupted_mark in Hin. by apply not_interrupted_nil in Hin.
Qed.

Lemma responses_await pre a tr1 v resp :
  resp ∈ responses tr1 ->
  resp ∈ responses (pre ++ EvMark (Called a) :: tr1 ++ [EvMark (Returned a v)]).
Proof.
  intros Hin. apply responses_in_r. change (EvMark (Called a) :: ?l) with ([EvMark (Called a)] ++ l).
  apply responses_in_r. by apply responses_in_l.
Qed.

Lemma tail_outcome pd gid v0 pre s :
  chain_so_far pd gid v0 pre s ->
  wp (video_url <- (if negb (Py.truthy v0)
                    then await Mock (generate_enhanced_mock_video gid pd)
                    else Ret v0) ;;
      now <- perform TimeTime ;;
      perform (Update gid [("status", PStr "completed"); ("progress", PInt 100);
                           ("video_url", video_url); ("completed_at", PFloat now)])) s
     (fun o s' tr => body_outcome pd gid o s' (pre ++ tr)).
Proof.
  intros (Hpres & Hst & Hcalm & Hsrc). apply wp_bind.
  destruct (Py.truthy v0) eqn:Hv0; simpl negb; cbv iota.
  { apply wp_ret. destruct (Hsrc eq_refl) as (a & Hlast & Hurl).
    eapply wp_mono; [|by apply (finish_outcome pd gid a v0 pre)]. done. }
  apply wp_await. eapply wp_mono; [|by apply mock_outcome_wp].
  intros [v|e] s1 tr1 (Hmarks & Hpres1 & Hv).
  - destruct Hv as [-> Hcalm1].
    eapply wp_mono;
      [|apply (finish_outcome pd gid Mock (PStr (mock_video_url (prompt pd)))
                 (pre ++ EvMark (Called Mock) :: tr1
                      ++ [EvMark (Returned Mock (PStr (mock_video_url (prompt pd))))]))].
    + intros o s2 tr2. cbv beta. by rewrite <- app_assoc.
    + done.
    + by apply not_interrupted_await.
    + by apply last_marks_returned.
    + apply mock_url_truthy.
    + reflexivity.
  - unfold body_outcome. split; [done|].
    apply interrupted_app. right. by apply interrupted_mark.
Qed.

Lemma stage_outcome pd gid (c : bool) a (m : Prog pyval) v0
    (rest : pyval -> Prog unit) pre s :
  (forall s', rec_status gid (Some (PStr "processing")) s' ->
              wp m s' (provider_post pd gid a s')) ->
  (forall v pre' s', chain_so_far pd gid v pre' s' ->
     wp (rest v) s' (fun o s'' tr => body_outcome pd gid o s'' (pre' ++ tr))) ->
  chain_so_far pd gid v0 pre s ->
  wp (v <- (if negb (Py.truthy v0) && c then await a m else Ret v0) ;; rest v) s
     (fun o s'' tr => body_outcome pd gid o s'' (pre ++ tr)).
Proof.
  intros Hm Hrest Hgood. apply wp_bind.
  destruct (negb (Py.truthy v0) && c) eqn:Hc.
  2:{ apply wp_ret. eapply wp_mono; [|by apply Hrest]. done. }
  destruct Hgood as (Hpres & Hst & Hcalm & _).
  apply wp_await. eapply wp_mono; [|by apply Hm].
  intros o s1 tr1 (Hmarks & Hst1 & Hpres1 & Hcalm1 & v & -> & Hsrc).
  eapply wp_mono;
    [|apply (Hrest v (pre ++ EvMark (Called a) :: tr1 ++ [EvMark (Returned a v)]) s1)].
  - intros o s2 tr2. cbv beta. by rewrite <- app_assoc.
  - unfold chain_so_far. split_and!.
    + by apply Hpres1.
    + done.
    + by apply not_interrupted_await.
    + intros Hv. exists a. split; [by apply last_marks_returned|].
      eapply url_source_mono; [|by apply Hsrc]. intros resp. apply responses_await.
Qed.

Lemma body_outcome_wp cfg gid pd s r :
  s !! gid = Some r ->
  wp (process_body cfg gid pd) s (body_outcome pd gid).
Proof.
  intros Hr. unfold process_body.
  apply wp_bind, wp_perform. intros c.
  cbn [handle]. unfold store_write. rewrite Hr. cbn [fst snd].
  set (r10 := dict_update r [("status", PStr "processing"); ("progress", PInt 10)]).
  assert (Hgood : chain_so_far pd gid PNone [EvStore gid (Some r10)] (<[gid := r10]> s)).
  { unfold chain_so_far. split_and!.
    - rewrite lookup_insert_eq. eauto.
    - apply rec_status_update; [done|]. unfold r10. simpl. by lookups.
    - intros e Hin. unfold interrupted in Hin.
      apply elem_of_cons in Hin as [Hin|Hin]; [discriminate|].
      by apply not_elem_of_nil in Hin.
    - discriminate. }
  change (configured (LUMA_API_KEY cfg))
    with (negb (Py.truthy PNone) && configured (LUMA_API_KEY cfg)).
  apply (stage_outcome pd gid _ Luma); [intros; by apply luma_provider| |exact Hgood].
  intros v1 pre1 s1 H1.
  apply (stage_outcome pd gid _ Replicate); [intros; by apply replicate_provider| |exact H1].
  intros v2 pre2 s2 H2.
  apply (stage_outcome pd gid _ HuggingFace); [intros; by apply huggingface_provider| |exact H2].
  intros v3 pre3 s3 H3. by apply tail_outcome.
Qed.

Lemma process_outcome_wp cfg gid pd s r :
  s !! gid = Some r ->
  wp (process_video_generation cfg gid pd) s (task_outcome pd gid).
Proof.
  intros Hr. unfold process_video_generation.
  apply wp_try_except. eapply wp_mono; [|by eapply body_outcome_wp].
  intros [[]|e] s1 tr1 Hbody; unfold body_outcome in Hbody.
  - destruct Hbody as (Hcalm & r' & a & v & t & Hr' & Hlast & Hv & Hsrc & Ht & Hdone).
    unfold task_outcome. split; [done|]. exists r'. split; [done|]. right.
    split; [done|]. by exists a, v, t.
  - destruct Hbody as ([r1 Hr1] & Hint).
    apply wp_perform. intros c. cbn [handle]. unfold store_write. rewrite Hr1.
    cbn [fst snd]. unfold task_outcome. split; [done|]. eexists. split.
    + apply lookup_insert_eq.
    + left. exists e. split; [apply interrupted_app; by left|].
      unfold failed_with. simpl. by lookups.
Qed.

(** ** Single runs: how they end, and what they send *)

Lemma run_responses_env {A} (p : Prog A) env w resp :
  resp ∈ responses (run env p w).2 -> exists n, env_http env n = Ok resp.
Proof.
  revert w. induction p as [a|e|X e k IH]; simpl; intros w Hin.
  - by apply not_elem_of_nil in Hin.
  - by apply not_elem_of_nil in Hin.
  - destruct (handle e (choice_at env w) (store w)) as [[r s'] ev] eqn:Hh.
    specialize (IH r (advance e s' w)).
    destruct (run env (k r) (advance e s' w)) as [[res w'] tr]. simpl in *.
    unfold responses in Hin. simpl in Hin.
    destruct ev as [| req [resp'|ex] | | |]; simpl in Hin; auto.
    apply elem_of_cons in Hin as [->|Hin]; [|auto].
    destruct e; simpl in Hh; try discriminate;
      try (unfold store_write in Hh; destruct (store w !! gid); discriminate).
    injection Hh as Hr _ _ Hr'. eauto.
Qed.

Lemma run_sleeps_env {A} (p : Prog A) env w secs ex :
  EvSleep secs (Exc ex) ∈ (run env p w).2 -> exists n, env_sleep env n = Exc ex.
Proof.
  revert w. induction p as [a|e|X e k IH]; simpl; intros w Hin.
  - by apply not_elem_of_nil in Hin.
  - by apply not_elem_of_nil in Hin.
  - destruct (handle e (choice_at env w) (store w)) as [[r s'] ev] eqn:Hh.
    specialize (IH r (advance e s' w)).
    destruct (run env (k r) (advance e s' w)) as [[res w'] tr]. simpl in *.
    apply elem_of_cons in Hin as [<-|Hin]; [|auto].
    destruct e; simpl in Hh; try discriminate;
      try (unfold store_write in Hh; destruct (store w !! gid); discriminate).
    injection Hh as _ _ _ Hr'. eauto.
Qed.

(** X1: the background task, run with its record in the store, always returns
    and leaves the record in a terminal state.  The record is failed, with
    progress 0 and the exception's text as error, exactly when one of the
    two-second sleeps of the mock raised; otherwise it is completed with
    progress 100, a true video URL and a clock reading as completion
    time.  No error of a provider fails a generation. *)
Theorem task_ends_terminal (cfg : Config) (gid : string) (pd : VideoPrompt)
    (env : Env) (w : World) (r : pydict) :
  store w !! gid = Some r ->
  (run env (process_video_generation cfg gid pd) w).1.1 = Ok tt
  /\ exists r',
       store (run env (process_video_generation cfg gid pd) w).1.2 !! gid = Some r'
       /\ terminal r' = true
       /\ ((exists e,
              interrupted e (run env (process_video_generation cfg gid pd) w).2
              /\ failed_with e r')
           \/ ((forall e,
                  ~ interrupted e (run env (process_video_generation cfg gid pd) w).2)
               /\ exists v t,
                    Py.truthy v = true
                    /\ EvTime t ∈ (run env (process_video_generation cfg gid pd) w).2
                    /\ completed_with v t r')).
Proof.
  intros Hr.
  pose proof (wp_run _ env w _ (process_outcome_wp cfg gid pd _ r Hr)) as (Hok & r' & Hr' & H).
  split; [done|]. exists r'. split; [done|].
  destruct H as [(e & Hint & Hf)|(Hcalm & a & v & t & _ & Hv & _ & Ht & Hc)].
  - split; [|left; eauto]. destruct Hf as (Hs & _). unfold terminal, has_status.
    rewrite Hs. reflexivity.
  - split; [|right; split; [done|]; eauto]. destruct Hc as (Hs & _).
    unfold terminal, has_status. rewrite Hs. reflexivity.
Qed.

(** [task_ends_terminal] with Luma and Replicate configured and answering
    500. *)
Lemma task_ends_terminal_witness :
  (run env_500 (process_video_generation cfg_lr "g" pd_cat) w_g).1.1 = Ok tt
  /\ exists r',
       store (run env_500 (process_video_generation cfg_lr "g" pd_cat) w_g).1.2 !! "g"
       = Some r'
       /\ terminal r' = true
       /\ ((exists e,
              interrupted e (run env_500 (process_video_generation cfg_lr "g" pd_cat) w_g).2
              /\ failed_with e r')
           \/ ((forall e,
                  ~ interrupted e
                      (run env_500 (process_video_generation cfg_lr "g" pd_cat) w_g).2)
               /\ exists v t,
                    Py.truthy v = true
                    /\ EvTime t ∈ (run env_500 (process_video_generation cfg_lr "g" pd_cat) w_g).2
                    /\ completed_with v t r')).
Proof.
  apply (task_ends_terminal cfg_lr "g" pd_cat env_500 w_g (new_record 5 "CAT video")).
  reflexivity.
Defined.

(** X2: the video URL of a record the task completed is the result of the
    last adapter the task awaited, and that result is true.  It comes from
    where that adapter takes it: a poll answer that reported it (Luma,
    Replicate), the fixed placeholder after an accepted answer (Hugging
    Face), or the keyword rule applied to the prompt (mock). *)
Theorem completed_url_source (cfg : Config) (gid : string) (pd : VideoPrompt)
    (env : Env) (w : World) (r r' : pydict) :
  store w !! gid = Some r ->
  store (run env (process_video_generation cfg gid pd) w).1.2 !! gid = Some r' ->
  r' !! "status" = Some (PStr "completed") ->
  exists a v,
    last (marks (run env (process_video_generation cfg gid pd) w).2)
    = Some (Returned a v)
    /\ r' !! "video_url" = Some v
    /\ Py.truthy v = true
    /\ url_source pd a v (run env (process_video_generation cfg gid pd) w).2.
Proof.
  intros Hr Hr' Hs.
  pose proof (wp_run _ env w _ (process_outcome_wp cfg gid pd _ r Hr)) as (_ & r1 & Hr1 & H).
  rewrite Hr' in Hr1. injection Hr1 as <-.
  destruct H as [(e & _ & Hf & _)|(_ & a & v & t & Hlast & Hv & Hsrc & _ & Hc)];
    [congruence|].
  exists a, v. destruct Hc as (_ & _ & Hurl & _). done.
Qed.

(** [completed_url_source] when Luma reports a video at the first poll. *)
Lemma completed_url_source_witness :
  exists a v,
    last (marks (run env_luma_ok (process_video_generation cfg_lr "g" pd_cat) w_g).2)
    = Some (Returned a v)
    /\ luma_done !! "video_url" = Some v
    /\ Py.truthy v = true
    /\ url_source pd_cat a v
         (run env_luma_ok (process_video_generation cfg_lr "g" pd_cat) w_g).2.
Proof.
  apply (completed_url_source cfg_lr "g" pd_cat env_luma_ok w_g
           (new_record 5 "CAT video") luma_done);
    vm_compute; reflexivity.
Defined.

(** X3: when no answer of a provider reports a finished video (errors,
    refusals, jobs that never finish) and no sleep raises, the generation
    completes all the same, with the URL the keyword rule of the mock picks
    for the prompt: the mock was the last adapter awaited. *)
Theorem outage_falls_back_to_mock (cfg : Config) (gid : string) (pd : VideoPrompt)
    (env : Env) (w : World) (r : pydict) :
  store w !! gid = Some r ->
  (forall n resp, env_http env n = Ok resp -> reports_nothing resp) ->
  (forall n, env_sleep env n = Ok tt) ->
  (run env (process_video_generation cfg gid pd) w).1.1 = Ok tt
  /\ last (marks (run env (process_video_generation cfg gid pd) w).2)
     = Some (Returned Mock (PStr (mock_video_url (prompt pd))))
  /\ exists r' t,
       store (run env (process_video_generation cfg gid pd) w).1.2 !! gid = Some r'
       /\ completed_with (PStr (mock_video_url (prompt pd))) t r'.
Proof.
  intros Hr Hhttp Hsleep.
  pose proof (wp_run _ env w _ (process_outcome_wp cfg gid pd _ r Hr)) as (Hok & r' & Hr' & H).
  split; [done|].
  destruct H as [(e & Hint & _)|(_ & a & v & t & Hlast & Hv & Hsrc & _ & Hc)].
  { apply run_sleeps_env in Hint as [n Hn]. rewrite Hsleep in Hn. discriminate. }
  assert (Hnone : forall resp,
            resp ∈ responses (run env (process_video_generation cfg gid pd) w).2 ->
            reports_nothing resp).
  { intros resp [n Hn]%run_responses_env. by eapply Hhttp. }
  destruct a; simpl in Hsrc.
  - destruct Hsrc as (resp & Hin & Hrep). destruct (Hnone _ Hin) as (H1 & _). congruence.
  - destruct Hsrc as (resp & Hin & Hrep). destruct (Hnone _ Hin) as (_ & H2 & _). congruence.
  - destruct Hsrc as (_ & resp & Hin & Hacc). by destruct (Hnone _ Hin) as (_ & _ & H3).
  - subst v. split; [done|]. by exists r', t.
Qed.

(** [outage_falls_back_to_mock] with the three providers configured and
    unreachable. *)
Lemma outage_falls_back_to_mock_witness :
  (run env_down (process_video_generation cfg_all "g" pd_cat) w_g).1.1 = Ok tt
  /\ last (marks (run env_down (process_video_generation cfg_all "g" pd_cat) w_g).2)
     = Some (Returned Mock (PStr (mock_video_url (prompt pd_cat))))
  /\ exists r' t,
       store (run env_down (process_video_generation cfg_all "g" pd_cat) w_g).1.2 !! "g"
       = Some r'
       /\ completed_with (PStr (mock_video_url (prompt pd_cat))) t r'.
Proof.
  apply (outage_falls_back_to_mock cfg_all "g" pd_cat env_down w_g
           (new_record 5 "CAT video")).
  - reflexivity.
  - intros n resp. discriminate.
  - reflexivity.
Defined.

(** ** Running the polling loops *)

Lemma run_bind_fst {A B} env (m : Prog A) (f : A -> Prog B) w :
  (run env (bind m f) w).1
  = match (run env m w).1 with
    | (Ok a, w1) => (run env (f a) w1).1
    | (Exc e, w1) => (Exc e, w1)
    end.
Proof.
  revert w. induction m as [a|e|X e k IH]; simpl; intros w; try done.
  destruct (handle e (choice_at env w) (store w)) as [[r s'] ev].
  specialize (IH r (advance e s' w)).
  destruct (run env (bind (k r) f) (advance e s' w)) as [[res w'] tr].
  destruct (run env (k r) (advance e s' w)) as [[res1 w1] tr1]. simpl in *.
  done.
Qed.

Lemma run_try_fst {A} env (b : Prog A) (h : Exn -> Prog A) w :
  (run env (try_except b h) w).1
  = match (run env b w).1 with
    | (Ok a, w1) => (Ok a, w1)
    | (Exc e, w1) => (run env (h e) w1).1
    end.
Proof.
  revert w. induction b as [a|e|X e k IH]; simpl; intros w; try done.
  destruct (handle e (choice_at env w) (store w)) as [[r s'] ev].
  specialize (IH r (advance e s' w)).
  destruct (run env (try_except (k r) h) (advance e s' w)) as [[res w'] tr].
  destruct (run env (k r) (advance e s' w)) as [[res1 w1] tr1]. simpl in *.
  done.
Qed.

Lemma run_perform_fst {X} env (e : Eff X) w :
  (run env (perform e) w).1
  = ((handle e (choice_at env w) (store w)).1.1,
     advance e (handle e (choice_at env w) (store w)).1.2 w).
Proof.
  simpl. destruct (handle e (choice_at env w) (store w)) as [[[x|ex] s'] ev]; done.
Qed.

Lemma run_lift_fst {A} env (o : outcome A) w : (run env (lift o) w).1 = (o, w).
Proof. by destruct o. Qed.

Lemma run_set_progress_fst env gid z w r :
  store w !! gid = Some r ->
  (run env (set_progress gid z) w).1
  = (Ok tt, {| store := <[gid := <["progress" := PInt z]> r]> (store w);
               n_http := n_http w; n_sleep := n_sleep w; n_time := n_time w |}).
Proof.
  intros Hr. unfold set_progress. rewrite run_perform_fst. simpl.
  unfold store_write. by rewrite Hr.
Qed.

Lemma run_sleep_fst env secs w :
  (run env (perform (Sleep secs)) w).1
  = (env_sleep env (n_sleep w),
     {| store := store w; n_http := n_http w; n_sleep := S (n_sleep w);
        n_time := n_time w |}).
Proof. by rewrite run_perform_fst. Qed.

Lemma run_http_fst env req w :
  (run env (perform (Http req)) w).1
  = (env_http env (n_http w),
     {| store := store w; n_http := S (n_http w); n_sleep := n_sleep w;
        n_time := n_time w |}).
Proof. by rewrite run_perform_fst. Qed.

Lemma after_polls_S k w :
  after_polls k {| store := store w; n_http := S (n_http w);
                   n_sleep := S (n_sleep w); n_time := n_time w |}
  = after_polls (S k) w.
Proof. unfold after_polls. simpl. f_equal; lia. Qed.

Lemma polls_wait_S waiting env h z k :
  polls_wait waiting env h z (S k) ->
  env_sleep env z = Ok tt
  /\ (exists resp, env_http env h = Ok resp /\ waiting resp = true)
  /\ polls_wait waiting env (S h) (S z) k.
Proof.
  intros H. destruct (H 0%nat ltac:(lia)) as [H1 H2].
  rewrite !Nat.add_0_r in *. split_and!; [done|done|].
  intros i Hi. destruct (H (S i) ltac:(lia)) as [H3 H4]. simpl.
  rewrite <- !Nat.add_succ_comm in *. done.
Qed.

(** Polls answered [waiting] change nothing but the counters. *)
Lemma luma_poll_waits env gid auth idl k n w :
  polls_wait luma_waiting env (n_http w) (n_sleep w) k ->
  (run env (luma_poll gid (k + n) auth idl) w).1
  = (run env (luma_poll gid n auth idl) (after_polls k w)).1.
Proof.
  revert w. induction k as [|k IH]; intros w Hw.
  - simpl. unfold after_polls. rewrite !Nat.add_0_r. by destruct w.
  - apply polls_wait_S in Hw as (Hsleep & (resp & Hresp & Hwait) & Hrest).
    change (S k + n)%nat with (S (k + n)). cbn [luma_poll].
    rewrite run_bind_fst, run_sleep_fst, Hsleep.
    unfold get. rewrite run_bind_fst, run_http_fst. cbn [n_http store n_sleep n_time].
    rewrite Hresp. unfold luma_waiting in Hwait.
    destruct (status_code resp =? 200).
    2:{ rewrite IH by exact Hrest. by rewrite after_polls_S. }
    destruct (json resp) as [[| | | | | |d]|e]; try discriminate.
    rewrite run_bind_fst, run_lift_fst. cbn [Py.get lift].
    rewrite run_bind_fst. cbn [run fst].
    apply andb_true_iff in Hwait as [H1%negb_true_iff H2%negb_true_iff].
    change (from_option id PNone (d !! "state")) with (default PNone (d !! "state")).
    rewrite H1, H2. rewrite IH by exact Hrest. by rewrite after_polls_S.
Qed.

(** The counters of the world count the exchanges and sleeps of the run. *)
Lemma run_counts {A} env (p : Prog A) w :
  n_http (run env p w).1.2 = (n_http w + length (requests (run env p w).2))%nat
  /\ n_sleep (run env p w).1.2 = (n_sleep w + length (sleeps (run env p w).2))%nat.
Proof.
  revert w. induction p as [a|e|X e k IH]; simpl; intros w; try (split; lia).
  destruct (handle e (choice_at env w) (store w)) as [[r s'] ev] eqn:Hh.
  specialize (IH r (advance e s' w)).
  destruct (run env (k r) (advance e s' w)) as [[res w'] tr]. simpl in *.
  destruct IH as [IH1 IH2]. rewrite IH1, IH2. unfold requests, sleeps.
  destruct e; simpl in Hh;
    try (unfold store_write in Hh; destruct (store w !! gid));
    injection Hh as <- <- <-; simpl; split; lia.
Qed.

Lemma luma_poll_decides env gid auth idl n w r resp v :
  store w !! gid = Some r ->
  env_sleep env (n_sleep w) = Ok tt ->
  env_http env (n_http w) = Ok resp ->
  luma_decides resp = Some v ->
  block_result (run env (luma_poll gid (S n) auth idl) w).1.1 = v
  /\ n_http (run env (luma_poll gid (S n) auth idl) w).1.2 = S (n_http w)
  /\ n_sleep (run env (luma_poll gid (S n) auth idl) w).1.2 = S (n_sleep w).
Proof.
  intros Hr Hsleep Hresp Hdec. cbn [luma_poll].
  rewrite run_bind_fst, run_sleep_fst, Hsleep.
  unfold get. rewrite run_bind_fst, run_http_fst. cbn [n_http store n_sleep n_time].
  rewrite Hresp. unfold luma_decides in Hdec.
  destruct (status_code resp =? 200); [|discriminate].
  rewrite run_bind_fst, run_lift_fst.
  destruct (json resp) as [status_data|e]; [|by injection Hdec as <-].
  rewrite run_bind_fst, run_lift_fst.
  destruct status_data as [| | | | | |d]; try by injection Hdec as <-.
  cbn [Py.get].
  change (from_option id PNone (d !! "state")) with (default PNone (d !! "state")).
  destruct (Py.eq_str (default PNone (d !! "state")) "completed").
  2:{ destruct (Py.eq_str _ "failed"); [|discriminate]. by injection Hdec as <-. }
  rewrite run_bind_fst, (run_set_progress_fst _ _ _ _ r) by done.
  rewrite run_bind_fst, run_lift_fst.
  destruct (d !! "assets") as [assets|]; [|discriminate]. cbn [from_option id].
  rewrite run_bind_fst, run_lift_fst.
  destruct assets as [| | | | | |a]; try by injection Hdec as <-.
  cbn [Py.get]. destruct (a !! "video") as [video|]; [|discriminate].
  cbn [from_option id]. destruct (Py.truthy video); [|discriminate].
  by injection Hdec as <-.
Qed.

Lemma luma_poll_exhausted env gid auth idl k w :
  polls_wait luma_waiting env (n_http w) (n_sleep w) k ->
  (run env (luma_poll gid k auth idl) w).1 = (Ok None, after_polls k w).
Proof.
  intros Hw. rewrite <- (Nat.add_0_r k) at 1. by rewrite luma_poll_waits.
Qed.

(** The adapter up to its polling loop, when the submission is answered
    201 with a JSON object. *)
Lemma luma_until_poll env cfg gid pd w r resp0 d0 :
  configured (LUMA_API_KEY cfg) = true ->
  store w !! gid = Some r ->
  env_http env (n_http w) = Ok resp0 ->
  status_code resp0 = 201 -> json resp0 = Ok (PDict d0) ->
  exists r',
    (run env (generate_with_luma_dream_machine cfg gid pd) w).1
    = (Ok (block_result
             (run env (luma_poll gid 30 (bearer (LUMA_API_KEY cfg))
                         (default PNone (d0 !! "id")))
                {| store := <[gid := r']> (store w); n_http := S (n_http w);
                   n_sleep := n_sleep w; n_time := n_time w |}).1.1),
       (run env (luma_poll gid 30 (bearer (LUMA_API_KEY cfg))
                   (default PNone (d0 !! "id")))
          {| store := <[gid := r']> (store w); n_http := S (n_http w);
             n_sleep := n_sleep w; n_time := n_time w |}).1.2).
Proof.
  intros Hkey Hr Hresp Hcode Hjson.
  unfold generate_with_luma_dream_machine. rewrite Hkey. cbn [negb].
  rewrite run_bind_fst, run_try_fst.
  rewrite run_bind_fst, (run_set_progress_fst _ _ _ _ r) by done.
  rewrite run_bind_fst, (run_set_progress_fst _ _ _ _ (<["progress" := PInt 25]> r))
    by (cbn [store]; apply lookup_insert_eq).
  cbn [store n_http n_sleep n_time]. rewrite insert_insert_eq.
  unfold post. rewrite run_bind_fst, run_http_fst. cbn [n_http store n_sleep n_time].
  rewrite Hresp, Hcode. cbn [Z.eqb Pos.eqb].
  rewrite run_bind_fst, run_lift_fst, Hjson.
  rewrite run_bind_fst, run_lift_fst. cbn [Py.get].
  rewrite run_bind_fst,
    (run_set_progress_fst _ _ _ _ (<["progress" := PInt 50]> (<["progress" := PInt 25]> r)))
    by (cbn [store]; apply lookup_insert_eq).
  cbn [store n_http n_sleep n_time]. rewrite insert_insert_eq.
  exists (<["progress" := PInt 75]>
            (<["progress" := PInt 50]> (<["progress" := PInt 25]> r))).
  destruct (run env (luma_poll _ _ _ _) _) as [[[o|e] w'] tr]; reflexivity.
Qed.

(** X4: once the submission is answered 201 with a JSON object, Luma's
    adapter sleeps 10 seconds and polls, again and again while the answers
    say the job is in progress; the first answer that decides (a completed
    job with a video, a failed job, a body or an [assets] entry that is no
    JSON object), if it comes within the 30 polls, ends the adapter with the
    video or [None], and no request follows it. *)
Theorem luma_polls_until_decided (cfg : Config) (gid : string) (pd : VideoPrompt)
    (env : Env) (w : World) (r : pydict) (resp0 : Response) (d0 : pydict)
    (k : nat) (resp : Response) (v : pyval) :
  configured (LUMA_API_KEY cfg) = true ->
  store w !! gid = Some r ->
  env_http env (n_http w) = Ok resp0 ->
  status_code resp0 = 201 -> json resp0 = Ok (PDict d0) ->
  (k < 30)%nat ->
  polls_wait luma_waiting env (S (n_http w)) (n_sleep w) k ->
  env_sleep env (n_sleep w + k) = Ok tt ->
  env_http env (S (n_http w) + k) = Ok resp ->
  luma_decides resp = Some v ->
  (run env (generate_with_luma_dream_machine cfg gid pd) w).1.1 = Ok v
  /\ length (requests (run env (generate_with_luma_dream_machine cfg gid pd) w).2)
     = (k + 2)%nat
  /\ length (sleeps (run env (generate_with_luma_dream_machine cfg gid pd) w).2)
     = (k + 1)%nat.
Proof.
  intros Hkey Hr Hresp0 Hcode Hjson Hk Hwait Hsleep Hresp Hdec.
  destruct (luma_until_poll env cfg gid pd w r resp0 d0 Hkey Hr Hresp0 Hcode Hjson)
    as (r' & Hrun).
  destruct (run_counts env (generate_with_luma_dream_machine cfg gid pd) w) as [Hh Hs].
  set (w1 := {| store := <[gid := r']> (store w); n_http := S (n_http w);
                n_sleep := n_sleep w; n_time := n_time w |}) in Hrun.
  assert (Hpoll : (run env (luma_poll gid 30 (bearer (LUMA_API_KEY cfg))
                              (default PNone (d0 !! "id"))) w1).1
                  = (run env (luma_poll gid (S (29 - k)) (bearer (LUMA_API_KEY cfg))
                                (default PNone (d0 !! "id"))) (after_polls k w1)).1).
  { rewrite <- (luma_poll_waits env gid _ _ k (S (29 - k)) w1 Hwait).
    replace (k + S (29 - k))%nat with 30%nat by lia. reflexivity. }
  destruct (luma_poll_decides env gid (bearer (LUMA_API_KEY cfg))
              (default PNone (d0 !! "id")) (29 - k) (after_polls k w1) r' resp v)
    as (Hv & Hh' & Hs'); try done.
  { apply lookup_insert_eq. }
  rewrite Hpoll in Hrun. rewrite Hrun in Hh, Hs |- *.
  cbn [fst snd] in Hh, Hs |- *. rewrite Hv. rewrite Hh' in Hh. rewrite Hs' in Hs.
  unfold after_polls, w1, n_http, n_sleep in Hh, Hs.
  split_and!; [done|lia|lia].
Qed.

(** [luma_polls_until_decided] when the video comes with the third poll. *)
Lemma luma_polls_until_decided_witness :
  (run env_luma_third (generate_with_luma_dream_machine cfg_lr "g" pd_cat) w_g).1.1
  = Ok (PStr luma_video)
  /\ length (requests
       (run env_luma_third (generate_with_luma_dream_machine cfg_lr "g" pd_cat) w_g).2)
     = (2 + 2)%nat
  /\ length (sleeps
       (run env_luma_third (generate_with_luma_dream_machine cfg_lr "g" pd_cat) w_g).2)
     = (2 + 1)%nat.
Proof.
  apply (luma_polls_until_decided cfg_lr "g" pd_cat env_luma_third w_g
           (new_record 5 "CAT video") resp_created
           (list_to_map [("id", PStr "job-1")]) 2 resp_completed (PStr luma_video));
    try reflexivity; try lia.
  intros i Hi. split; [reflexivity|]. exists resp_pending.
  destruct i as [|[|i]]; [by vm_compute|by vm_compute|lia].
Defined.

(** X5: when the job is still in progress at each of the 30 polls, Luma's
    adapter gives up: it returns [None] after the submission, 30 polls and
    30 sleeps. *)
Theorem luma_gives_up (cfg : Config) (gid : string) (pd : VideoPrompt)
    (env : Env) (w : World) (r : pydict) (resp0 : Response) (d0 : pydict) :
  configured (LUMA_API_KEY cfg) = true ->
  store w !! gid = Some r ->
  env_http env (n_http w) = Ok resp0 ->
  status_code resp0 = 201 -> json resp0 = Ok (PDict d0) ->
  polls_wait luma_waiting env (S (n_http w)) (n_sleep w) 30 ->
  (run env (generate_with_luma_dream_machine cfg gid pd) w).1.1 = Ok PNone
  /\ length (requests (run env (generate_with_luma_dream_machine cfg gid pd) w).2)
     = 31%nat
  /\ length (sleeps (run env (generate_with_luma_dream_machine cfg gid pd) w).2)
     = 30%nat.
Proof.
  intros Hkey Hr Hresp0 Hcode Hjson Hwait.
  destruct (luma_until_poll env cfg gid pd w r resp0 d0 Hkey Hr Hresp0 Hcode Hjson)
    as (r' & Hrun).
  destruct (run_counts env (generate_with_luma_dream_machine cfg gid pd) w) as [Hh Hs].
  set (w1 := {| store := <[gid := r']> (store w); n_http := S (n_http w);
                n_sleep := n_sleep w; n_time := n_time w |}) in Hrun.
  rewrite (luma_poll_exhausted env gid _ _ 30 w1 Hwait) in Hrun.
  rewrite Hrun in Hh, Hs |- *. cbn [fst snd] in Hh, Hs |- *.
  unfold after_polls, w1, n_http, n_sleep in Hh, Hs.
  split_and!; [done|lia|lia].
Qed.

(** [luma_gives_up] for a job that stays in progress for ever. *)
Lemma luma_gives_up_witness :
  (run env_luma_pending (generate_with_luma_dream_machine cfg_lr "g" pd_cat) w_g).1.1
  = Ok PNone
  /\ length (requests
       (run env_luma_pending (generate_with_luma_dream_machine cfg_lr "g" pd_cat) w_g).2)
     = 31%nat
  /\ length (sleeps
       (run env_luma_pending (generate_with_luma_dream_machine cfg_lr "g" pd_cat) w_g).2)
     = 30%nat.
Proof.
  apply (luma_gives_up cfg_lr "g" pd_cat env_luma_pending w_g
           (new_record 5 "CAT video") resp_created
           (list_to_map [("id", PStr "job-1")])); try reflexivity.
  intros i Hi. split; [reflexivity|]. exists resp_pending. split; [|by vm_compute].
  reflexivity.
Defined.

Lemma replicate_poll_waits env gid auth idl k n w :
  polls_wait replicate_waiting env (n_http w) (n_sleep w) k ->
  (run env (replicate_poll gid (k + n) auth idl) w).1
  = (run env (replicate_poll gid n auth idl) (after_polls k w)).1.
Proof.
  revert w. induction k as [|k IH]; intros w Hw.
  - simpl. unfold after_polls. rewrite !Nat.add_0_r. by destruct w.
  - apply polls_wait_S in Hw as (Hsleep & (resp & Hresp & Hwait) & Hrest).
    change (S k + n)%nat with (S (k + n)). cbn [replicate_poll].
    rewrite run_bind_fst, run_sleep_fst, Hsleep.
    unfold get. rewrite run_bind_fst, run_http_fst. cbn [n_http store n_sleep n_time].
    rewrite Hresp. unfold replicate_waiting in Hwait.
    destruct (status_code resp =? 200).
    2:{ rewrite IH by exact Hrest. by rewrite after_polls_S. }
    destruct (json resp) as [[| | | | | |d]|e]; try discriminate.
    rewrite run_bind_fst, run_lift_fst. cbn [Py.get lift].
    rewrite run_bind_fst. cbn [run fst].
    apply andb_true_iff in Hwait as [H1%negb_true_iff H2%negb_true_iff].
    change (from_option id PNone (d !! "status")) with (default PNone (d !! "status")).
    rewrite H1, H2. rewrite IH by exact Hrest. by rewrite after_polls_S.
Qed.

Lemma replicate_poll_decides env gid auth idl n w r resp v :
  store w !! gid = Some r ->
  env_sleep env (n_sleep w) = Ok tt ->
  env_http env (n_http w) = Ok resp ->
  replicate_decides resp = Some v ->
  block_result (run env (replicate_poll gid (S n) auth idl) w).1.1 = v
  /\ n_http (run env (replicate_poll gid (S n) auth idl) w).1.2 = S (n_http w)
  /\ n_sleep (run env (replicate_poll gid (S n) auth idl) w).1.2 = S (n_sleep w).
Proof.
  intros Hr Hsleep Hresp Hdec. cbn [replicate_poll].
  rewrite run_bind_fst, run_sleep_fst, Hsleep.
  unfold get. rewrite run_bind_fst, run_http_fst. cbn [n_http store n_sleep n_time].
  rewrite Hresp. unfold replicate_decides in Hdec.
  destruct (status_code resp =? 200); [|discriminate].
  rewrite run_bind_fst, run_lift_fst.
  destruct (json resp) as [status_data|e]; [|by injection Hdec as <-].
  rewrite run_bind_fst, run_lift_fst.
  destruct status_data as [| | | | | |d]; try by injection Hdec as <-.
  cbn [Py.get].
  change (from_option id PNone (d !! "status")) with (default PNone (d !! "status")).
  destruct (Py.eq_str (default PNone (d !! "status")) "succeeded").
  2:{ destruct (Py.eq_str _ "failed"); [|discriminate]. by injection Hdec as <-. }
  rewrite run_bind_fst, (run_set_progress_fst _ _ _ _ r) by done.
  rewrite run_bind_fst, run_lift_fst.
  change (from_option id PNone (d !! "output")) with (default PNone (d !! "output")).
  rewrite Hdec. done.
Qed.

Lemma replicate_until_poll env cfg gid pd w r resp0 d0 :
  configured (REPLICATE_API_TOKEN cfg) = true ->
  store w !! gid = Some r ->
  env_http env (n_http w) = Ok resp0 ->
  status_code resp0 = 201 -> json resp0 = Ok (PDict d0) ->
  exists r',
    (run env (generate_with_replicate cfg gid pd) w).1
    = (Ok (block_result
             (run env (replicate_poll gid 20 (token (REPLICATE_API_TOKEN cfg))
                         (default PNone (d0 !! "id")))
                {| store := <[gid := r']> (store w); n_http := S (n_http w);
                   n_sleep := n_sleep w; n_time := n_time w |}).1.1),
       (run env (replicate_poll gid 20 (token (REPLICATE_API_TOKEN cfg))
                   (default PNone (d0 !! "id")))
          {| store := <[gid := r']> (store w); n_http := S (n_http w);
             n_sleep := n_sleep w; n_time := n_time w |}).1.2).
Proof.
  intros Hkey Hr Hresp Hcode Hjson.
  unfold generate_with_replicate. rewrite Hkey. cbn [negb].
  rewrite run_bind_fst, run_try_fst.
  rewrite run_bind_fst, (run_set_progress_fst _ _ _ _ r) by done.
  rewrite run_bind_fst, (run_set_progress_fst _ _ _ _ (<["progress" := PInt 35]> r))
    by (cbn [store]; apply lookup_insert_eq).
  cbn [store n_http n_sleep n_time]. rewrite insert_insert_eq.
  unfold post. rewrite run_bind_fst, run_http_fst. cbn [n_http store n_sleep n_time].
  rewrite Hresp, Hcode. cbn [Z.eqb Pos.eqb].
  rewrite run_bind_fst, run_lift_fst, Hjson.
  rewrite run_bind_fst, run_lift_fst. cbn [Py.get].
  rewrite run_bind_fst,
    (run_set_progress_fst _ _ _ _ (<["progress" := PInt 55]> (<["progress" := PInt 35]> r)))
    by (cbn [store]; apply lookup_insert_eq).
  cbn [store n_http n_sleep n_time]. rewrite insert_insert_eq.
  exists (<["progress" := PInt 75]>
            (<["progress" := PInt 55]> (<["progress" := PInt 35]> r))).
  destruct (run env (replicate_poll _ _ _ _) _) as [[[o|e] w'] tr]; reflexivity.
Qed.

(** X6: Replicate's adapter polls like Luma's, with a budget of 20 polls, and
    the answer that decides is a succeeded prediction whose output is a
    non-empty list, a failed prediction, or a body that is no JSON object.
    The adapter returns the first element of the output as it is: it does
    not check that it is a non-empty string. *)
Theorem replicate_polls_until_decided (cfg : Config) (gid : string)
    (pd : VideoPrompt) (env : Env) (w : World) (r : pydict) (resp0 : Response)
    (d0 : pydict) (k : nat) (resp : Response) (v : pyval) :
  configured (REPLICATE_API_TOKEN cfg) = true ->
  store w !! gid = Some r ->
  env_http env (n_http w) = Ok resp0 ->
  status_code resp0 = 201 -> json resp0 = Ok (PDict d0) ->
  (k < 20)%nat ->
  polls_wait replicate_waiting env (S (n_http w)) (n_sleep w) k ->
  env_sleep env (n_sleep w + k) = Ok tt ->
  env_http env (S (n_http w) + k) = Ok resp ->
  replicate_decides resp = Some v ->
  (run env (generate_with_replicate cfg gid pd) w).1.1 = Ok v
  /\ length (requests (run env (generate_with_replicate cfg gid pd) w).2)
     = (k + 2)%nat
  /\ length (sleeps (run env (generate_with_replicate cfg gid pd) w).2)
     = (k + 1)%nat.
Proof.
  intros Hkey Hr Hresp0 Hcode Hjson Hk Hwait Hsleep Hresp Hdec.
  destruct (replicate_until_poll env cfg gid pd w r resp0 d0 Hkey Hr Hresp0 Hcode Hjson)
    as (r' & Hrun).
  destruct (run_counts env (generate_with_replicate cfg gid pd) w) as [Hh Hs].
  set (w1 := {| store := <[gid := r']> (store w); n_http := S (n_http w);
                n_sleep := n_sleep w; n_time := n_time w |}) in Hrun.
  assert (Hpoll : (run env (replicate_poll gid 20 (token (REPLICATE_API_TOKEN cfg))
                              (default PNone (d0 !! "id"))) w1).1
                  = (run env (replicate_poll gid (S (19 - k)) (token (REPLICATE_API_TOKEN cfg))
                                (default PNone (d0 !! "id"))) (after_polls k w1)).1).
  { rewrite <- (replicate_poll_waits env gid _ _ k (S (19 - k)) w1 Hwait).
    replace (k + S (19 - k))%nat with 20%nat by lia. reflexivity. }
  destruct (replicate_poll_decides env gid (token (REPLICATE_API_TOKEN cfg))
              (default PNone (d0 !! "id")) (19 - k) (after_polls k w1) r' resp v)
    as (Hv & Hh' & Hs'); try done.
  { apply lookup_insert_eq. }
  rewrite Hpoll in Hrun. rewrite Hrun in Hh, Hs |- *.
  cbn [fst snd] in Hh, Hs |- *. rewrite Hv. rewrite Hh' in Hh. rewrite Hs' in Hs.
  unfold after_polls, w1, n_http, n_sleep in Hh, Hs.
  split_and!; [done|lia|lia].
Qed.

(** [replicate_polls_until_decided] when the second poll reports a
    succeeded prediction whose first output is the empty string. *)
Lemma replicate_polls_until_decided_witness :
  (run env_replicate_second (generate_with_replicate cfg_lr "g" pd_cat) w_g).1.1
  = Ok (PStr "")
  /\ length (requests
       (run env_replicate_second (generate_with_replicate cfg_lr "g" pd_cat) w_g).2)
     = (1 + 2)%nat
  /\ length (sleeps
       (run env_replicate_second (generate_with_replicate cfg_lr "g" pd_cat) w_g).2)
     = (1 + 1)%nat.
Proof.
  apply (replicate_polls_until_decided cfg_lr "g" pd_cat env_replicate_second w_g
           (new_record 5 "CAT video") resp_created
           (list_to_map [("id", PStr "job-1")]) 1 resp_succeeded_empty (PStr ""));
    try reflexivity; try lia; try (by vm_compute).
  intros i Hi. split; [reflexivity|]. exists resp_starting.
  destruct i as [|i]; [by vm_compute|lia].
Defined.

(** X7: Hugging Face's adapter, credential set and record there, sends one
    request; when it is answered, the adapter returns its placeholder URL if
    the status is 200 and the body has more than 1000 bytes, whatever they
    are, and [None] otherwise; either way the progress it leaves is 85. *)
Theorem huggingface_accepts_on_size (cfg : Config) (gid : string)
    (pd : VideoPrompt) (env : Env) (w : World) (r : pydict) (resp : Response) :
  configured (HUGGINGFACE_API_KEY cfg) = true ->
  store w !! gid = Some r ->
  env_http env (n_http w) = Ok resp ->
  (run env (generate_with_huggingface cfg gid pd) w).1.1
  = Ok (if (status_code resp =? 200) && (1000 <? Z.of_nat (length (content resp)))
        then PStr huggingface_placeholder else PNone)
  /\ store (run env (generate_with_huggingface cfg gid pd) w).1.2
     = <[gid := <["progress" := PInt 85]> r]> (store w)
  /\ length (requests (run env (generate_with_huggingface cfg gid pd) w).2) = 1%nat.
Proof.
  intros Hkey Hr Hresp.
  destruct (run_counts env (generate_with_huggingface cfg gid pd) w) as [Hh _].
  assert (Hrun : (run env (generate_with_huggingface cfg gid pd) w).1
                 = (Ok (if (status_code resp =? 200)
                           && (1000 <? Z.of_nat (length (content resp)))
                        then PStr huggingface_placeholder else PNone),
                    {| store := <[gid := <["progress" := PInt 85]> r]> (store w);
                       n_http := S (n_http w); n_sleep := n_sleep w;
                       n_time := n_time w |})).
  { unfold generate_with_huggingface. rewrite Hkey. cbn [negb].
    rewrite run_bind_fst, run_try_fst.
    rewrite run_bind_fst, (run_set_progress_fst _ _ _ _ r) by done.
    rewrite run_bind_fst, (run_set_progress_fst _ _ _ _ (<["progress" := PInt 40]> r))
      by (cbn [store]; apply lookup_insert_eq).
    cbn [store n_http n_sleep n_time]. rewrite insert_insert_eq.
    unfold post. rewrite run_bind_fst, run_http_fst. cbn [n_http store n_sleep n_time].
    rewrite Hresp.
    rewrite run_bind_fst,
      (run_set_progress_fst _ _ _ _ (<["progress" := PInt 65]> (<["progress" := PInt 40]> r)))
      by (cbn [store]; apply lookup_insert_eq).
    cbn [store n_http n_sleep n_time]. rewrite !insert_insert_eq.
    rewrite Z.gtb_ltb.
    destruct (status_code resp =? 200); [|reflexivity].
    destruct (1000 <? _); reflexivity. }
  rewrite Hrun in Hh |- *. cbn [fst snd store n_http] in Hh |- *.
  split_and!; [done|done|lia].
Qed.

(** [huggingface_accepts_on_size] at the boundary: 1000 bytes are not
    enough. *)
Lemma huggingface_accepts_on_size_witness :
  (run env_1000 (generate_with_huggingface cfg_hf "g" pd_cat) w_g).1.1 = Ok PNone
  /\ store (run env_1000 (generate_with_huggingface cfg_hf "g" pd_cat) w_g).1.2
     = <["g" := <["progress" := PInt 85]> (new_record 5 "CAT video")]> (store w_g)
  /\ length (requests (run env_1000 (generate_with_huggingface cfg_hf "g" pd_cat) w_g).2)
     = 1%nat.
Proof.
  apply (huggingface_accepts_on_size cfg_hf "g" pd_cat env_1000 w_g
           (new_record 5 "CAT video") resp_1000); reflexivity.
Defined.

(** ** Single runs: requests, budgets, and the record of the task *)

(** A disciplined coroutine leaves the records of the other generations as
    they are. *)
Lemma disciplined_frame_wp {A} gid ph (p : Prog A) s :
  disciplined gid ph p ->
  wp p s (fun _ s' _ => forall g, g <> gid -> s' !! g = s !! g).
Proof.
  revert ph s. induction p as [a|e|X e k IH]; simpl; intros ph s Hp; try done.
  intros c. destruct (write_fun e) as [[g0 f]|] eqn:Hw.
  - destruct Hp as (-> & _ & _ & Hexc & Hok).
    pose proof (handle_write e c s gid f Hw) as Hh.
    assert (Hk : exists ph', disciplined gid ph' (k (handle e c s).1.1)).
    { destruct ((handle e c s).1.1) as [x|ex]; [|eauto].
      destruct Hok as [[_ Hk]|[_ (ph' & _ & Hk)]]; eauto. }
    destruct Hk as [ph' Hk]. eapply wp_mono; [|by eapply IH].
    simpl. intros o s' tr Hs' g Hg. rewrite Hs' by done.
    destruct (s !! gid) as [r|]; destruct Hh as [-> _]; [|done].
    by rewrite lookup_insert_ne.
  - rewrite (handle_nonwrite e c s Hw). eapply wp_mono; [|by eapply IH]. done.
Qed.

(** X8: whoever the task of a generation runs for, every request it sends
    is one of its provider's: Luma's key goes only to Luma's endpoint,
    Replicate's token only to Replicate's, Hugging Face's key only to
    Hugging Face's; a submission carries the prompt and a poll carries no
    body; the timeouts are 30 seconds (60 for Hugging Face); and the mock
    sends no request at all. *)
Theorem requests_stay_with_provider (cfg : Config) (gid : string)
    (pd : VideoPrompt) (env : Env) (w : World) :
  Forall (luma_request cfg pd)
    (requests (run env (generate_with_luma_dream_machine cfg gid pd) w).2)
  /\ Forall (replicate_request cfg pd)
       (requests (run env (generate_with_replicate cfg gid pd) w).2)
  /\ Forall (huggingface_request cfg pd)
       (requests (run env (generate_with_huggingface cfg gid pd) w).2)
  /\ requests (run env (generate_enhanced_mock_video gid pd) w).2 = []
  /\ Forall (fun req => luma_request cfg pd req \/ replicate_request cfg pd req
                        \/ huggingface_request cfg pd req)
       (requests (run env (process_video_generation cfg gid pd) w).2).
Proof.
  split_and!.
  - apply sends_run, luma_sends.
  - apply sends_run, replicate_sends.
  - apply sends_run, huggingface_sends.
  - pose proof (sends_run _ _ env w (mock_sends gid pd)) as H.
    destruct (requests _); [done|]. by inversion H.
  - apply sends_run, process_sends.
Qed.

(** X9: the polls of Luma's and of Replicate's adapter go to the job the
    submission created.  In every run the first exchange, if there is one,
    is the submission; polls follow only when it was answered 201 with a JSON
    object, and each of them asks for the [id] of that object, [None] when
    the object has no [id]: the adapters do not check that there is one. *)
Theorem polls_go_to_created_job (cfg : Config) (gid : string) (pd : VideoPrompt)
    (env : Env) (w : World) :
  polls_created_job
    (exchanges (run env (generate_with_luma_dream_machine cfg gid pd) w).2)
  /\ polls_created_job
       (exchanges (run env (generate_with_replicate cfg gid pd) w).2).
Proof.
  split.
  - exact (wp_run _ env w _ (luma_polls_wp cfg gid pd (store w))).
  - exact (wp_run _ env w _ (replicate_polls_wp cfg gid pd (store w))).
Qed.

(** X10: the work of a generation is bounded.  Luma's adapter sends at most
    31 requests and asks for at most 300 seconds of sleep, Replicate's at
    most 21 and 200, Hugging Face's one request and no sleep, the mock no
    request and 4 seconds; the whole task at most 53 requests and 504
    seconds. *)
Theorem work_is_bounded (cfg : Config) (gid : string) (pd : VideoPrompt)
    (env : Env) (w : World) :
  ((length (requests (run env (generate_with_luma_dream_machine cfg gid pd) w).2) <= 31)%nat
   /\ slept (run env (generate_with_luma_dream_machine cfg gid pd) w).2 <= 300)
  /\ ((length (requests (run env (generate_with_replicate cfg gid pd) w).2) <= 21)%nat
      /\ slept (run env (generate_with_replicate cfg gid pd) w).2 <= 200)
  /\ ((length (requests (run env (generate_with_huggingface cfg gid pd) w).2) <= 1)%nat
      /\ slept (run env (generate_with_huggingface cfg gid pd) w).2 <= 0)
  /\ ((length (requests (run env (generate_enhanced_mock_video gid pd) w).2) <= 0)%nat
      /\ slept (run env (generate_enhanced_mock_video gid pd) w).2 <= 4)
  /\ ((length (requests (run env (process_video_generation cfg gid pd) w).2) <= 53)%nat
      /\ slept (run env (process_video_generation cfg gid pd) w).2 <= 504).
Proof.
  assert (Hboth : forall A (p : Prog A) n m,
            within http_cost n p -> within sleep_cost m p ->
            (length (requests (run env p w).2) <= Z.to_nat n)%nat
            /\ slept (run env p w).2 <= m).
  { intros A p n m Hn Hm. split.
    - pose proof (within_run http_cost http_event_cost n p env w
                    (@http_cost_event) Hn) as H.
      rewrite spent_http in H. lia.
    - rewrite <- spent_sleep.
      apply (within_run sleep_cost sleep_event_cost m p env w (@sleep_cost_event) Hm). }
  split_and!.
  - apply (Hboth _ _ 31 300); [apply luma_http|apply luma_sleep].
  - apply (Hboth _ _ 31 300); [apply luma_http|apply luma_sleep].
  - apply (Hboth _ _ 21 200); [apply replicate_http|apply replicate_sleep].
  - apply (Hboth _ _ 21 200); [apply replicate_http|apply replicate_sleep].
  - apply (Hboth _ _ 1 0); [apply huggingface_http|apply huggingface_sleep].
  - apply (Hboth _ _ 1 0); [apply huggingface_http|apply huggingface_sleep].
  - apply (Hboth _ _ 0 4); [apply mock_http|apply mock_sleep].
  - apply (Hboth _ _ 0 4); [apply mock_http|apply mock_sleep].
  - apply (Hboth _ _ 53 504); [apply process_http|apply process_sleep].
  - apply (Hboth _ _ 53 504); [apply process_http|apply process_sleep].
Qed.

Lemma missing_provider_wp gid z (rest : Prog (option pyval)) s :
  s !! gid = None ->
  wp (r <- try_except (set_progress gid z >> rest) (fun _ => Ret None) ;;
      Ret (default PNone r)) s
     (fun o s' tr => o = Ok PNone /\ s' = s /\ requests tr = []).
Proof.
  intros Hnone. apply wp_bind, wp_try_except, wp_bind, wp_set_progress.
  - intros r Hr. congruence.
  - intros _. simpl. done.
Qed.

(** X11: a task whose record is missing when it starts (DELETE /cleanup can
    remove it first) sends no request and does not sleep: its first write
    raises KeyError, the write of its error handler raises KeyError again,
    and that exception leaves the task; the store is as before.  On their
    own, the provider adapters then return [None] without a request and the
    mock raises KeyError. *)
Theorem task_without_record (cfg : Config) (gid : string) (pd : VideoPrompt)
    (env : Env) (w : World) :
  store w !! gid = None ->
  ((run env (process_video_generation cfg gid pd) w).1.1 = Exc (KeyError gid)
   /\ store (run env (process_video_generation cfg gid pd) w).1.2 = store w
   /\ (run env (process_video_generation cfg gid pd) w).2
      = [EvStore gid None; EvStore gid None])
  /\ (forall a, a <> Mock ->
        (run env (adapter_prog cfg gid pd a) w).1.1 = Ok PNone
        /\ store (run env (adapter_prog cfg gid pd a) w).1.2 = store w
        /\ requests (run env (adapter_prog cfg gid pd a) w).2 = [])
  /\ (run env (generate_enhanced_mock_video gid pd) w).1.1 = Exc (KeyError gid).
Proof.
  intros Hnone. split; [|split].
  - apply (wp_run (process_video_generation cfg gid pd) env w
             (fun o s' tr => o = Exc (KeyError gid) /\ s' = store w
                             /\ tr = [EvStore gid None; EvStore gid None])).
    unfold process_video_generation, process_body.
    apply wp_try_except, wp_bind, wp_perform. intros c.
    cbn [handle]. unfold store_write. rewrite Hnone. cbn [fst snd].
    apply wp_perform. intros c'. cbn [handle]. unfold store_write. rewrite Hnone.
    done.
  - intros a Ha.
    apply (wp_run (adapter_prog cfg gid pd a) env w
             (fun o s' tr => o = Ok PNone /\ s' = store w /\ requests tr = [])).
    destruct a; [| | |done]; simpl.
    + unfold generate_with_luma_dream_machine. destruct (negb _); [done|].
      by apply missing_provider_wp.
    + unfold generate_with_replicate. destruct (negb _); [done|].
      by apply missing_provider_wp.
    + unfold generate_with_huggingface. destruct (negb _); [done|].
      by apply missing_provider_wp.
  - apply (wp_run (generate_enhanced_mock_video gid pd) env w
             (fun o s' tr => o = Exc (KeyError gid))).
    unfold generate_enhanced_mock_video.
    apply wp_bind, wp_set_progress; [intros r Hr; congruence|done].
Qed.

(** [task_without_record] on the empty store. *)
Lemma task_without_record_witness :
  ((run env_500 (process_video_generation cfg_all "g" pd_cat) w_empty).1.1
   = Exc (KeyError "g")
   /\ store (run env_500 (process_video_generation cfg_all "g" pd_cat) w_empty).1.2
      = store w_empty
   /\ (run env_500 (process_video_generation cfg_all "g" pd_cat) w_empty).2
      = [EvStore "g" None; EvStore "g" None])
  /\ (forall a, a <> Mock ->
        (run env_500 (adapter_prog cfg_all "g" pd_cat a) w_empty).1.1 = Ok PNone
        /\ store (run env_500 (adapter_prog cfg_all "g" pd_cat a) w_empty).1.2
           = store w_empty
        /\ requests (run env_500 (adapter_prog cfg_all "g" pd_cat a) w_empty).2 = [])
  /\ (run env_500 (generate_enhanced_mock_video "g" pd_cat) w_empty).1.1
     = Exc (KeyError "g").
Proof.
  apply (task_without_record cfg_all "g" pd_cat env_500 w_empty). reflexivity.
Defined.

(** X12: a task writes to the record of its own generation only: after any
    run, the records of the other generations are what they were, and no
    record has been created or deleted. *)
Theorem task_touches_own_record (cfg : Config) (gid : string) (pd : VideoPrompt)
    (env : Env) (w : World) (g : string) :
  g <> gid ->
  store (run env (process_video_generation cfg gid pd) w).1.2 !! g = store w !! g
  /\ dom (store (run env (process_video_generation cfg gid pd) w).1.2) = dom (store w).
Proof.
  intros Hg. split.
  - by apply (wp_run _ env w _
                (disciplined_frame_wp gid Top _ (store w) (process_disciplined cfg gid pd))).
  - apply set_eq. intros g'. rewrite !elem_of_dom.
    apply (wp_run _ env w _ (wp_present (process_video_generation cfg gid pd) (store w))).
Qed.

(** [task_touches_own_record]: the task of "g" and the record of "h". *)
Lemma task_touches_own_record_witness :
  store (run env_500 (process_video_generation cfg_lr "g" pd_cat) w_gh).1.2 !! "h"
  = store w_gh !! "h"
  /\ dom (store (run env_500 (process_video_generation cfg_lr "g" pd_cat) w_gh).1.2)
     = dom (store w_gh).
Proof.
  apply (task_touches_own_record cfg_lr "g" pd_cat env_500 w_gh "h"). discriminate.
Defined.

(** ** The invariant on the fields of a record *)

Lemma returns_bind {A B} (R' : A -> Prop) (R : B -> Prop) (m : Prog A) (f : A -> Prog B) :
  returns R' m -> (forall a, R' a -> returns R (f a)) -> returns R (bind m f).
Proof. induction m as [a|e|X e k IH]; simpl; auto. Qed.

Lemma returns_any {A} (p : Prog A) : returns (fun _ => True) p.
Proof. induction p as [a|e|X e k IH]; simpl; auto. Qed.

Lemma every_effect_bind_ret {A B} P (R : A -> Prop) (m : Prog A) (f : A -> Prog B) :
  every_effect P m -> returns R m -> (forall a, R a -> every_effect P (f a)) ->
  every_effect P (bind m f).
Proof.
  induction m as [a|e|X e k IH]; simpl; intros Hm Hr Hf; auto.
  destruct Hm as [He Hk]. split; auto.
Qed.

Lemma terminal_status (r : pydict) st :
  r !! "status" = Some (PStr st) ->
  terminal r = (String.eqb st "completed" || String.eqb st "failed").
Proof. intros H. unfold terminal, has_status. by rewrite H. Qed.

Lemma write_ok_progress z :
  write_ok (fun r => <["progress" := PInt z]> r).
Proof.
  intros r Hok Ht (Hopen & _ & _).
  assert (Ht' : terminal (<["progress" := PInt z]> r) = false).
  { unfold terminal, has_status in *. by lookups. }
  split.
  - unfold record_full. split_and!.
    + intros _. destruct (Hopen Ht). by lookups.
    + intros Hc. unfold terminal in Ht'. rewrite Hc in Ht'. discriminate.
    + intros Hf. unfold terminal in Ht'. rewrite Hf, orb_true_r in Ht'. discriminate.
  - unfold rank. rewrite Ht, Ht'. unfold has_status. by lookups.
Qed.

Lemma write_ok_processing :
  write_ok (fun r => dict_update r [("status", PStr "processing"); ("progress", PInt 10)]).
Proof.
  intros r Hok Ht (Hopen & _ & _). destruct (Hopen Ht) as [Hu He]. simpl.
  split.
  - unfold record_full, terminal, has_status. lookups. simpl. split_and!; done.
  - unfold rank at 2. unfold terminal, has_status. lookups. simpl.
    unfold rank. rewrite Ht. destruct (has_status "processing" r); lia.
Qed.

Lemma write_ok_completed v now :
  Py.truthy v = true ->
  write_ok (fun r => dict_update r [("status", PStr "completed"); ("progress", PInt 100);
                                    ("video_url", v); ("completed_at", PFloat now)]).
Proof.
  intros Hv r Hok Ht (Hopen & _ & _). destruct (Hopen Ht) as [Hu He]. simpl.
  split.
  - unfold record_full, terminal, has_status. lookups. simpl. split_and!; try done.
    intros _. split_and!; eauto.
  - unfold rank at 2. unfold terminal, has_status. lookups. simpl.
    unfold rank. rewrite Ht. destruct (has_status "processing" r); lia.
Qed.

Lemma write_ok_failed msg :
  write_ok (fun r => dict_update r [("status", PStr "failed"); ("progress", PInt 0);
                                    ("error", PStr msg)]).
Proof.
  intros r Hok Ht (Hopen & _ & _). destruct (Hopen Ht) as [Hu He]. simpl.
  split.
  - unfold record_full, terminal, has_status. lookups. simpl. split_and!; try done.
    intros _. split_and!; eauto.
  - unfold rank at 2. unfold terminal, has_status. lookups. simpl.
    unfold rank. rewrite Ht. destruct (has_status "processing" r); lia.
Qed.

Ltac writes_auto IH :=
  every_auto IH;
  try (cbn [writes_ok write_fun]; first [exact I | apply write_ok_progress]).

Lemma luma_poll_writes gid n auth idl : every_effect writes_ok (luma_poll gid n auth idl).
Proof. induction n as [|n IH]; [exact I|]. cbn [luma_poll]. writes_auto IH. Qed.

Lemma replicate_poll_writes gid n auth idl :
  every_effect writes_ok (replicate_poll gid n auth idl).
Proof. induction n as [|n IH]; [exact I|]. cbn [replicate_poll]. writes_auto IH. Qed.

Lemma luma_writes cfg gid pd :
  every_effect writes_ok (generate_with_luma_dream_machine cfg gid pd).
Proof.
  unfold generate_with_luma_dream_machine.
  writes_auto (luma_poll_writes gid 30 (bearer (LUMA_API_KEY cfg))).
Qed.

Lemma replicate_writes cfg gid pd :
  every_effect writes_ok (generate_with_replicate cfg gid pd).
Proof.
  unfold generate_with_replicate.
  writes_auto (replicate_poll_writes gid 20 (token (REPLICATE_API_TOKEN cfg))).
Qed.

Lemma huggingface_writes cfg gid pd :
  every_effect writes_ok (generate_with_huggingface cfg gid pd).
Proof. unfold generate_with_huggingface. writes_auto I. Qed.

Lemma mock_writes gid pd : every_effect writes_ok (generate_enhanced_mock_video gid pd).
Proof. unfold generate_enhanced_mock_video. writes_auto I. Qed.

Lemma mock_returns_truthy gid pd :
  returns (fun v => Py.truthy v = true) (generate_enhanced_mock_video gid pd).
Proof.
  unfold generate_enhanced_mock_video.
  repeat (eapply returns_bind; [apply returns_any|intros ? _]).
  apply mock_url_truthy.
Qed.

Lemma await_writes a m : every_effect writes_ok m -> every_effect writes_ok (await a m).
Proof. intros Hm. unfold await. writes_auto I. exact Hm. Qed.

Lemma await_returns (R : pyval -> Prop) a m : returns R m -> returns R (await a m).
Proof.
  intros Hm. unfold await.
  eapply returns_bind; [apply returns_any|intros ? _].
  eapply returns_bind; [exact Hm|intros v Hv].
  eapply returns_bind; [apply returns_any|intros ? _]. exact Hv.
Qed.

Lemma process_writes cfg gid pd :
  every_effect writes_ok (process_video_generation cfg gid pd).
Proof.
  unfold process_video_generation, process_body. cbv zeta.
  apply every_effect_try.
  2:{ intros e. apply every_effect_perform. cbn [writes_ok write_fun].
      apply write_ok_failed. }
  apply every_effect_bind; [|intros _].
  { apply every_effect_perform. cbn [writes_ok write_fun]. apply write_ok_processing. }
  apply every_effect_bind; [|intros v1].
  { destruct (configured _); [apply await_writes, luma_writes|exact I]. }
  apply every_effect_bind; [|intros v2].
  { destruct (_ && _); [apply await_writes, replicate_writes|exact I]. }
  apply every_effect_bind; [|intros v3].
  { destruct (_ && _); [apply await_writes, huggingface_writes|exact I]. }
  apply (every_effect_bind_ret _ (fun v => Py.truthy v = true)).
  { destruct (negb _); [apply await_writes, mock_writes|exact I]. }
  { destruct (Py.truthy v3) eqn:Hv3; cbn [negb]; [exact Hv3|].
    apply await_returns, mock_returns_truthy. }
  intros v4 Hv4. apply every_effect_bind; [|intros now].
  { by apply every_effect_perform. }
  apply every_effect_perform. cbn [writes_ok write_fun]. by apply write_ok_completed.
Qed.

Lemma new_record_full now text : record_full (new_record now text).
Proof.
  unfold record_full, new_record, terminal, has_status. simpl. lookups. simpl.
  split_and!; done.
Qed.

Lemma sys_full_init : sys_full sys_init.
Proof.
  split; [apply sys_inv_init|]. unfold sys_init. simpl.
  split; intros gid ?; by rewrite lookup_empty.
Qed.

Lemma sys_step_full cfg op x x' :
  sys_full x -> sys_step cfg op x = Some x' ->
  sys_full x'
  /\ forall g r r', sys_store x !! g = Some r -> sys_store x' !! g = Some r' ->
                    (rank r <= rank r')%nat.
Proof.
  intros (Hinv & Hfull & Htasks) Hstep.
  destruct (sys_step_inv _ _ _ _ Hinv Hstep) as [Hinv' _].
  destruct op as [b uuid now|g0|now|now|gid c]; simpl in Hstep.
  - destruct (generate_video cfg b uuid now (sys_store x)) as [[resp s'] [task|]] eqn:Hgen.
    2:{ injection Hstep as <-. split; [by split|]. intros g r r' Hr Hr'. by simplify_eq. }
    destruct (decide (uuid ∈ sys_issued x)) as [|Hfresh]; [discriminate|].
    injection Hstep as <-.
    destruct (generate_video_accepts _ _ _ _ _ _ _ _ Hgen) as (pd & -> & ->).
    assert (Hnew : sys_store x !! uuid = None).
    { destruct Hinv as (Hds & _). apply not_elem_of_dom. intros Hin. by apply Hfresh, Hds. }
    split; [split; [done|]; simpl; split|].
    + intros g r. destruct (decide (g = uuid)) as [->|Hne].
      * rewrite lookup_insert_eq. intros [= <-]. apply new_record_full.
      * rewrite lookup_insert_ne by done. apply Hfull.
    + intros g p. destruct (decide (g = uuid)) as [->|Hne].
      * rewrite lookup_insert_eq. intros [= <-]. apply process_writes.
      * rewrite lookup_insert_ne by done. apply Htasks.
    + simpl. intros g r r' Hr. rewrite lookup_insert_ne by congruence.
      intros Hr'. by simplify_eq.
  - injection Hstep as <-. split; [by split|]. intros g r r' Hr Hr'. by simplify_eq.
  - injection Hstep as <-. split; [by split|]. intros g r r' Hr Hr'. by simplify_eq.
  - injection Hstep as <-. simpl.
    assert (Hsub : forall g r, (cleanup_old_generations now (sys_store x)).2 !! g = Some r ->
                               sys_store x !! g = Some r).
    { intros g r Hr. destruct (cleanup_lookup now (sys_store x) g) as [H|H]; congruence. }
    split; [split; [done|]; simpl; split|].
    + intros g r Hr. eapply Hfull; eauto.
    + done.
    + intros g r r' Hr Hr'. apply Hsub in Hr'. by simplify_eq.
  - destruct (sys_tasks x !! gid) as [p|] eqn:Hp; [|discriminate].
    destruct p as [a|ex|X e k]; try discriminate.
    pose proof (Htasks _ _ Hp) as [He Hk]. simpl in He, Hk.
    destruct Hinv as (Hds & Hdt & Hrec & Htask).
    destruct (Htask _ _ Hp) as [Htop Hquiet].
    destruct (write_fun e) as [[g f]|] eqn:Hw.
    + simpl in Htop. rewrite Hw in Htop. destruct Htop as (-> & _).
      pose proof (handle_write e c (sys_store x) gid f Hw) as Hh.
      destruct (handle e c (sys_store x)) as [[reply s'] ev] eqn:Hhandle.
      injection Hstep as <-. cbn [fst snd sys_store sys_tasks sys_issued] in *.
      assert (Htasks' : forall g p, <[gid := k reply]> (sys_tasks x) !! g = Some p ->
                                    every_effect writes_ok p).
      { intros g p. destruct (decide (g = gid)) as [->|Hne].
        - rewrite lookup_insert_eq. by intros [= <-].
        - rewrite lookup_insert_ne by done. apply Htasks. }
      destruct (sys_store x !! gid) as [r0|] eqn:Hr0.
      * destruct Hh as [-> _].
        assert (Hnt : terminal r0 = false).
        { destruct (terminal r0) eqn:Ht; [|done].
          specialize (Hquiet r0 eq_refl Ht). simpl in Hquiet. rewrite Hw in Hquiet.
          destruct Hquiet as (_ & _ & [?|[?|?]] & _); discriminate. }
        unfold writes_ok in He. rewrite Hw in He.
        destruct (He r0 (Hrec _ _ Hr0) Hnt (Hfull _ _ Hr0)) as [Hfull0 Hrank].
        split; [split; [done|]; simpl; split; [|done]|].
        -- intros g r. destruct (decide (g = gid)) as [->|Hne].
           ++ rewrite lookup_insert_eq. by intros [= <-].
           ++ rewrite lookup_insert_ne by done. apply Hfull.
        -- intros g r r' Hr. destruct (decide (g = gid)) as [->|Hne].
           ++ rewrite lookup_insert_eq. intros [= <-]. by simplify_eq.
           ++ rewrite lookup_insert_ne by done. intros Hr'. by simplify_eq.
      * destruct Hh as [-> _]. split; [split; [done|]; simpl; by split|].
        intros g r r' Hr Hr'. by simplify_eq.
    + pose proof (handle_nonwrite e c (sys_store x) Hw) as Hh.
      destruct (handle e c (sys_store x)) as [[reply s'] ev] eqn:Hhandle.
      injection Hstep as <-. cbn [fst snd sys_store sys_tasks sys_issued] in *. subst s'.
      split; [split; [done|]; simpl; split; [done|]|].
      * intros g p. destruct (decide (g = gid)) as [->|Hne].
        -- rewrite lookup_insert_eq. by intros [= <-].
        -- rewrite lookup_insert_ne by done. apply Htasks.
      * intros g r r' Hr Hr'. by simplify_eq.
Qed.

Lemma sys_run_full cfg ops x x' :
  sys_full x -> sys_run cfg ops x = Some x' ->
  sys_full x'
  /\ forall g r r', sys_store x !! g = Some r -> sys_store x' !! g = Some r' ->
                    (rank r <= rank r')%nat.
Proof.
  revert x. induction ops as [|op ops IH]; simpl; intros x Hfull Hrun.
  - injection Hrun as <-. split; [done|]. intros g r r' Hr Hr'. by simplify_eq.
  - destruct (sys_step cfg op x) as [x1|] eqn:Hstep; [|discriminate].
    destruct (sys_step_full _ _ _ _ Hfull Hstep) as [Hfull1 Hrank1].
    destruct (IH _ Hfull1 Hrun) as [Hfull' Hrank']. split; [done|].
    intros g r r' Hr Hr'.
    destruct (sys_store x1 !! g) as [r1|] eqn:Hr1.
    + etrans; [by eapply Hrank1|by eapply Hrank'].
    + assert (Hiss : g ∈ sys_issued x1).
      { destruct Hfull as ((Hds & _) & _).
        assert (g ∈ sys_issued x) by (apply Hds, elem_of_dom; eauto).
        destruct op as [b uuid now|g0|now|now|g1 c]; simpl in Hstep.
        - destruct (generate_video cfg b uuid now (sys_store x)) as [[? ?] [?|]];
            [destruct (decide _); [discriminate|]|]; injection Hstep as <-; simpl; auto.
          apply elem_of_union. by right.
        - by injection Hstep as <-.
        - by injection Hstep as <-.
        - by injection Hstep as <-.
        - destruct (sys_tasks x !! g1) as [[?|?|? e k]|]; try discriminate.
          destruct (handle e c (sys_store x)) as [[? ?] ?]. by injection Hstep as <-. }
      rewrite (sys_run_absent _ _ _ _ _ Hrun Hiss Hr1) in Hr'. discriminate.
Qed.

Lemma reachable_full cfg x : reachable cfg x -> sys_full x.
Proof.
  intros [ops Hrun]. by destruct (sys_run_full _ _ _ _ sys_full_init Hrun).
Qed.

(** ** The service: status answers and the life of a record *)

Lemma states_cases st :
  st ∈ states -> st = "queued" \/ st = "processing" \/ st = "completed" \/ st = "failed".
Proof.
  unfold states. intros H.
  repeat (apply elem_of_cons in H as [->|H]; [auto|]). by apply not_elem_of_nil in H.
Qed.



(** X14: the state of a record never moves backwards.  Whatever operations
    the service performs, a record that is still there is at least as far in
    queued, processing, terminal as it was; in particular a record that was
    processing is never queued again. *)
Theorem status_never_regresses (cfg : Config) (x x' : Sys) (ops : list Op)
    (gid : string) (r r' : pydict) :
  reachable cfg x ->
  sys_run cfg ops x = Some x' ->
  sys_store x !! gid = Some r -> sys_store x' !! gid = Some r' ->
  (rank r <= rank r')%nat
  /\ (has_status "processing" r = true -> has_status "queued" r' = false).
Proof.
  intros Hreach Hrun Hr Hr'.
  destruct (sys_run_full _ _ _ _ (reachable_full _ _ Hreach) Hrun) as [_ Hrank].
  specialize (Hrank _ _ _ Hr Hr'). split; [done|].
  intros Hp. unfold rank, terminal, has_status in *.
  destruct (r !! "status") as [[]|]; try discriminate. simpl in *.
  apply String.eqb_eq in Hp. subst. simpl in Hrank.
  destruct (r' !! "status") as [[| | | |s'| |]|]; try done. simpl in *.
  destruct (String.eqb_spec s' "queued") as [->|]; [|done]. simpl in Hrank. lia.
Qed.

(** [status_never_regresses] from the record at work to the completed
    record. *)
Lemma status_never_regresses_witness :
  (rank (default ∅ (sys_store x_started !! "g")) <= rank record_g)%nat
  /\ (has_status "processing" (default ∅ (sys_store x_started !! "g")) = true ->
      has_status "queued" record_g = false).
Proof.
  apply (status_never_regresses cfg_none x_started x_done
           (repeat (OpResume "g" ch_ok) 6) "g").
  - exists ops_started. vm_compute; reflexivity.
  - vm_compute; reflexivity.
  - vm_compute; reflexivity.
  - vm_compute; reflexivity.
Defined.

(** X15: a record that DELETE /cleanup has deleted never comes back, even
    when the task of its generation is still running: whatever operations
    follow, GET /status answers 404 for that id.  An id that was issued is
    never given a record again. *)
Theorem deleted_stays_deleted (cfg : Config) (x x' : Sys) (ops : list Op)
    (gid : string) :
  gid ∈ sys_issued x -> sys_store x !! gid = None ->
  sys_run cfg ops x = Some x' ->
  sys_store x' !! gid = None
  /\ get_generation_status gid (sys_store x')
     = HttpError 404 "Generation ID not found".
Proof.
  intros Hiss Hnone Hrun.
  pose proof (sys_run_absent _ _ _ _ _ Hrun Hiss Hnone) as H.
  split; [done|]. unfold get_generation_status. by rewrite H.
Qed.

(** [deleted_stays_deleted]: the record of "g" is deleted while its task
    is at work; the task goes on and the record stays away. *)
Lemma deleted_stays_deleted_witness :
  sys_store (default sys_init
               (sys_run cfg_none (repeat (OpResume "g" ch_ok) 2) x_orphan)) !! "g"
  = None
  /\ get_generation_status "g"
       (sys_store (default sys_init
                     (sys_run cfg_none (repeat (OpResume "g" ch_ok) 2) x_orphan)))
     = HttpError 404 "Generation ID not found".
Proof.
  apply (deleted_stays_deleted cfg_none x_orphan _ (repeat (OpResume "g" ch_ok) 2) "g").
  - vm_compute; reflexivity.
  - vm_compute; reflexivity.
  - vm_compute; reflexivity.
Defined.

(** ** The service: health and acceptance *)

Lemma is_active_unfinished (r : pydict) :
  record_ok r -> is_active r = Ok (negb (terminal r)).
Proof.
  intros (_ & _ & (st & Hst & Hin) & _). unfold is_active, terminal, has_status.
  rewrite Hst. simpl.
  by destruct (states_cases _ Hin) as [-> | [-> | [-> | ->]]].
Qed.

Lemma filter_length_le {A} (g : A -> bool) l : (length (List.filter g l) <= length l)%nat.
Proof. induction l as [|x l IH]; simpl; [lia|]. destruct (g x); simpl; lia. Qed.

(** X17: in every state the service can reach, GET /health answers 200; the
    number of active generations it reports is the number of records that
    are queued or processing, at most the number of records; and the
    providers it reports available are those whose credential is set and
    not empty, with the mock always available. *)
Theorem health_counts_unfinished (cfg : Config) (x : Sys) (now : Q) :
  reachable cfg x ->
  health_check cfg now (sys_store x)
  = Http200 (health_answer cfg now
               (Z.of_nat (length (List.filter unfinished (map_to_list (sys_store x))))))
  /\ (length (List.filter unfinished (map_to_list (sys_store x)))
      <= size (sys_store x))%nat.
Proof.
  intros Hreach. destruct (reachable_inv _ _ Hreach) as (_ & _ & Hrec & _). split.
  - unfold health_check.
    rewrite (filter_raising_ok _ unfinished); [done|].
    intros [gid r] Hin. apply elem_of_map_to_list in Hin.
    apply is_active_unfinished. by eapply Hrec.
  - rewrite <- length_map_to_list. apply filter_length_le.
Qed.

(** [health_counts_unfinished] with one generation done and one queued. *)
Lemma health_counts_unfinished_witness :
  health_check cfg_none 90001 (sys_store x_two)
  = Http200 (health_answer cfg_none 90001
               (Z.of_nat (length (List.filter unfinished (map_to_list (sys_store x_two))))))
  /\ (length (List.filter unfinished (map_to_list (sys_store x_two)))
      <= size (sys_store x_two))%nat.
Proof. apply (health_counts_unfinished cfg_none x_two 90001), x_two_reachable. Defined.

Lemma filter_raising_perm {A} (f : A -> outcome bool) l l' kept :
  l ≡ₚ l' -> filter_raising f l = Ok kept ->
  exists kept', filter_raising f l' = Ok kept' /\ length kept' = length kept.
Proof.
  intros Hperm. revert kept.
  induction Hperm as [|x l l' Hperm IH|x y l|l l' l'' H1 IH1 H2 IH2]; intros kept; simpl.
  - intros [= <-]. eauto.
  - destruct (f x) as [b|e]; [|discriminate].
    destruct (filter_raising f l) as [k|e] eqn:Hk; [|discriminate].
    intros [= <-]. destruct (IH _ eq_refl) as (k' & -> & Hlen).
    eexists. split; [reflexivity|]. destruct b; simpl; lia.
  - destruct (f y) as [by_|e]; [|discriminate].
    destruct (f x) as [bx|e]; [|discriminate].
    destruct (filter_raising f l) as [k|e]; [|discriminate].
    intros [= <-]. eexists. split; [reflexivity|]. destruct bx, by_; reflexivity.
  - intros Hk. destruct (IH1 _ Hk) as (k1 & Hk1 & Hlen1).
    destruct (IH2 _ Hk1) as (k2 & Hk2 & Hlen2). exists k2. split; [done|lia].
Qed.

(** X18: a request that passes the request model and whose prompt is not all
    whitespace is accepted.  The answer is [queued] with the fresh id; the
    store gains exactly the record of that id, queued with progress 0; a
    status read of the id at once answers queued, 0, no URL, no error; status
    reads of other ids answer as before; when the id is new to the store,
    /health counts one active generation more; and the task handed to the
    background runs on the prompt as sent, with duration 7 and style
    cinematic when the request gave none. *)
Theorem accepted_request_is_queued (cfg : Config) (b : Body) (uuid : string)
    (now : Q) (s : Store) (pd : VideoPrompt) :
  validate cfg b = Some pd ->
  PyStr.blank (body_prompt b) = false ->
  generate_video cfg b uuid now s
  = (Http200 (queued_answer uuid),
     <[uuid := new_record now (body_prompt b)]> s,
     Some (process_video_generation cfg uuid pd))
  /\ (prompt pd = body_prompt b
      /\ duration pd = Some (default 7 (body_duration b))
      /\ style pd = Some (default "cinematic" (body_style b)))
  /\ get_generation_status uuid (generate_video cfg b uuid now s).1.2
     = Http200 {| status := PStr "queued"; progress := PInt 0;
                  video_url := PNone; error := PNone |}
  /\ (forall g, g <> uuid ->
        get_generation_status g (generate_video cfg b uuid now s).1.2
        = get_generation_status g s)
  /\ (forall t n,
        s !! uuid = None ->
        health_check cfg t s = Http200 (health_answer cfg t n) ->
        health_check cfg t (generate_video cfg b uuid now s).1.2
        = Http200 (health_answer cfg t (n + 1))).
Proof.
  intros Hv Hblank.
  assert (Hpd : prompt pd = body_prompt b) by (by eapply validate_prompt).
  assert (Hgen : generate_video cfg b uuid now s
                 = (Http200 (queued_answer uuid),
                    <[uuid := new_record now (body_prompt b)]> s,
                    Some (process_video_generation cfg uuid pd))).
  { unfold generate_video. rewrite Hv, strip_truthy, Hpd, Hblank. reflexivity. }
  rewrite Hgen. cbn [fst snd]. split_and!; try done.
  - unfold validate in Hv. destruct (_ && _); [|discriminate]. by injection Hv as <-.
  - unfold validate in Hv. destruct (_ && _); [|discriminate]. by injection Hv as <-.
  - unfold get_generation_status. rewrite lookup_insert_eq.
    unfold new_record. simpl. by lookups.
  - intros g Hg. unfold get_generation_status. by rewrite lookup_insert_ne.
  - intros t n Hfresh. unfold health_check.
    destruct (filter_raising _ (map_to_list s)) as [active|e] eqn:Hactive; [|discriminate].
    intros [= <-].
    assert (Hcons : filter_raising (fun kv : string * pydict => is_active kv.2)
                      ((uuid, new_record now (body_prompt b)) :: map_to_list s)
                    = Ok ((uuid, new_record now (body_prompt b)) :: active)).
    { simpl. rewrite Hactive. unfold is_active, new_record. simpl. by lookups. }
    destruct (filter_raising_perm _ _ (map_to_list (<[uuid := new_record now (body_prompt b)]> s))
                _ (symmetry (map_to_list_insert s uuid _ Hfresh)) Hcons)
      as (kept' & -> & Hlen).
    unfold health_answer. do 2 f_equal. rewrite Hlen. simpl length. lia.
Qed.

(** [accepted_request_is_queued] for the prompt "CAT video" on an empty
    store. *)
Lemma accepted_request_is_queued_witness :
  generate_video cfg_none body_cat "g" 5 ∅
  = (Http200 (queued_answer "g"),
     <["g" := new_record 5 (body_prompt body_cat)]> ∅,
     Some (process_video_generation cfg_none "g" pd_cat))
  /\ (prompt pd_cat = body_prompt body_cat
      /\ duration pd_cat = Some (default 7 (body_duration body_cat))
      /\ style pd_cat = Some (default "cinematic" (body_style body_cat)))
  /\ get_generation_status "g" (generate_video cfg_none body_cat "g" 5 ∅).1.2
     = Http200 {| status := PStr "queued"; progress := PInt 0;
                  video_url := PNone; error := PNone |}
  /\ (forall g, g <> "g" ->
        get_generation_status g (generate_video cfg_none body_cat "g" 5 ∅).1.2
        = get_generation_status g ∅)
  /\ (forall t n,
        (∅ : Store) !! "g" = None ->
        health_check cfg_none t ∅ = Http200 (health_answer cfg_none t n) ->
        health_check cfg_none t (generate_video cfg_none body_cat "g" 5 ∅).1.2
        = Http200 (health_answer cfg_none t (n + 1))).
Proof.
  apply (accepted_request_is_queued cfg_none body_cat "g" 5 ∅ pd_cat); reflexivity.
Defined.

(** ** Cleanup again, and what the service advertises *)

Lemma cleanup_counts now (s : Store) :
  store_typed s ->
  (cleanup_old_generations now s).1
  = Http200 {| cleaned := Z.of_nat (size s)
                          - Z.of_nat (size (cleanup_old_generations now s).2);
               remaining := Z.of_nat (size (cleanup_old_generations now s).2) |}.
Proof.
  intros Hty. rewrite cleanup_typed by done. cbv zeta. cbn [fst snd]. f_equal. f_equal.
  pose proof (size_foldl_delete s
    ((List.filter (old_flag (now - inject_Z (24 * 60 * 60))) (map_to_list s)).*1)) as Hsize.
  rewrite <- Hsize; [lia| |].
  - apply NoDup_filter_fst, NoDup_fst_map_to_list.
  - intros k (r & Hr & _)%to_delete_spec. eauto.
Qed.

Lemma cleanup_keeps_typed now (s : Store) :
  store_typed s -> store_typed (cleanup_old_generations now s).2.
Proof.
  intros Hty gid r Hr.
  destruct (cleanup_lookup now s gid) as [H|H]; rewrite H in Hr; [done|]. eauto.
Qed.

Lemma old_flag_mono c c' kv : (c <= c')%Q -> old_flag c kv = true -> old_flag c' kv = true.
Proof.
  intros Hle. unfold old_flag. destruct (kv.2 !! "created_at") as [[]|]; try done.
  rewrite !Qltb_lt. intros H. lra.
Qed.

(** X19: cleaning up twice is cleaning up once at the later time.  On every
    store the service can reach, DELETE /cleanup at clock reading [t] followed
    by DELETE /cleanup at a later reading [t'] leaves the store a single call
    at [t'] would leave; what the first call deletes the single call deletes
    too; and the two counts of cleaned records add up to the count of the
    single call. *)
Theorem cleanup_composes (cfg : Config) (x : Sys) (t t' : Q) :
  reachable cfg x -> (t <= t')%Q ->
  (cleanup_old_generations t' (cleanup_old_generations t (sys_store x)).2).2
  = (cleanup_old_generations t' (sys_store x)).2
  /\ (forall gid,
        (cleanup_old_generations t (sys_store x)).2 !! gid = None ->
        (cleanup_old_generations t' (sys_store x)).2 !! gid = None)
  /\ exists c1 c2 rem1 rem,
       (cleanup_old_generations t (sys_store x)).1
       = Http200 {| cleaned := c1; remaining := rem1 |}
       /\ (cleanup_old_generations t' (cleanup_old_generations t (sys_store x)).2).1
          = Http200 {| cleaned := c2; remaining := rem |}
       /\ (cleanup_old_generations t' (sys_store x)).1
          = Http200 {| cleaned := c1 + c2; remaining := rem |}.
Proof.
  intros Hreach Hle. pose proof (reachable_typed _ _ Hreach) as Hty.
  set (s := sys_store x) in *.
  pose proof (cleanup_keeps_typed t s Hty) as Hty1.
  assert (Hcut : (t - inject_Z (24 * 60 * 60) <= t' - inject_Z (24 * 60 * 60))%Q) by lra.
  assert (Heq : (cleanup_old_generations t' (cleanup_old_generations t s).2).2
                = (cleanup_old_generations t' s).2).
  { apply map_eq. intros gid.
    rewrite (cleanup_store_lookup t' _ gid Hty1), (cleanup_store_lookup t s gid Hty),
      (cleanup_store_lookup t' s gid Hty).
    destruct (s !! gid) as [r|]; [|done].
    destruct (old_flag (t - _) (gid, r)) eqn:Hold; [|done].
    by rewrite (old_flag_mono _ _ _ Hcut Hold). }
  split; [done|]. split.
  - intros gid. rewrite (cleanup_store_lookup t s gid Hty), (cleanup_store_lookup t' s gid Hty).
    destruct (s !! gid) as [r|]; [|done].
    destruct (old_flag (t - _) (gid, r)) eqn:Hold; [|done].
    by rewrite (old_flag_mono _ _ _ Hcut Hold).
  - eexists _, _, _, _. split; [by apply cleanup_counts|].
    split; [by apply cleanup_counts|]. rewrite cleanup_counts by done. rewrite Heq.
    f_equal. f_equal. lia.
Qed.

(** [cleanup_composes] at times 90000 and 200000 on the store with one
    record created at time 5 and one at time 90000. *)
Lemma cleanup_composes_witness :
  (cleanup_old_generations 200000 (cleanup_old_generations 90000 (sys_store x_two)).2).2
  = (cleanup_old_generations 200000 (sys_store x_two)).2
  /\ (forall gid,
        (cleanup_old_generations 90000 (sys_store x_two)).2 !! gid = None ->
        (cleanup_old_generations 200000 (sys_store x_two)).2 !! gid = None)
  /\ exists c1 c2 rem1 rem,
       (cleanup_old_generations 90000 (sys_store x_two)).1
       = Http200 {| cleaned := c1; remaining := rem1 |}
       /\ (cleanup_old_generations 200000
             (cleanup_old_generations 90000 (sys_store x_two)).2).1
          = Http200 {| cleaned := c2; remaining := rem |}
       /\ (cleanup_old_generations 200000 (sys_store x_two)).1
          = Http200 {| cleaned := c1 + c2; remaining := rem |}.
Proof.
  apply (cleanup_composes cfg_none x_two 90000 200000); [apply x_two_reachable|].
  vm_compute. discriminate.
Defined.

Lemma filter_raising_exc {A} (f : A -> outcome bool) l x e :
  x ∈ l -> f x = Exc e ->
  (forall y e', y ∈ l -> f y = Exc e' -> e' = e) ->
  filter_raising f l = Exc e.
Proof.
  induction l as [|y l IH]; intros Hin Hx Hall; [by apply not_elem_of_nil in Hin|].
  simpl. destruct (f y) as [b|e'] eqn:Hy.
  - apply elem_of_cons in Hin as [->|Hin]; [congruence|].
    rewrite IH; [done|done|done|]. intros z e' Hz. apply Hall. by apply list_elem_of_further.
  - f_equal. eapply Hall; [apply list_elem_of_here|done].
Qed.

Lemma filter_raising_kept {A} (f : A -> outcome bool) l kept x :
  filter_raising f l = Ok kept -> x ∈ l -> f x = Ok true -> x ∈ kept.
Proof.
  revert kept. induction l as [|y l IH]; intros kept Hk Hin Hx;
    [by apply not_elem_of_nil in Hin|].
  simpl in Hk. destruct (f y) as [b|e] eqn:Hy; [|discriminate].
  destruct (filter_raising f l) as [k|e]; [|discriminate]. injection Hk as <-.
  apply elem_of_cons in Hin as [->|Hin].
  - rewrite Hx in Hy. injection Hy as <-. apply list_elem_of_here.
  - specialize (IH k eq_refl Hin Hx). destruct b; [by apply list_elem_of_further|done].
Qed.

(** X20: DELETE /cleanup is all or nothing.  If the creation time of some
    record is neither a number nor absent (a string, [None], a list, an
    object), the comparison with the cutoff raises, the answer is 500, and no
    record is deleted, however old the other records are: the records to
    delete are all chosen before the first deletion. *)
Theorem cleanup_all_or_nothing (s : Store) (now : Q) (gid : string)
    (r : pydict) (v : pyval) :
  s !! gid = Some r -> r !! "created_at" = Some v ->
  (forall z, v <> PInt z) -> (forall q, v <> PFloat q) -> (forall b, v <> PBool b) ->
  cleanup_old_generations now s
  = (HttpError 500 "'<' not supported between instances", s).
Proof.
  intros Hr Hv Hint Hfloat Hbool. unfold cleanup_old_generations.
  rewrite (filter_raising_exc _ _ (gid, r) (TypeError "'<' not supported between instances")).
  - reflexivity.
  - by apply elem_of_map_to_list.
  - simpl. rewrite Hv. simpl.
    destruct v; try reflexivity; [by destruct (Hbool b)|by destruct (Hint z)|by destruct (Hfloat q)].
  - intros [g r'] e' _. simpl. unfold lt_float.
    destruct (default (PInt 0) (r' !! "created_at")); try discriminate; by intros [= <-].
Qed.

(** [cleanup_all_or_nothing]: the old record of "g" survives beside a
    record whose creation time is a string. *)
Lemma cleanup_all_or_nothing_witness :
  cleanup_old_generations 90000 s_bad_time
  = (HttpError 500 "'<' not supported between instances", s_bad_time).
Proof.
  apply (cleanup_all_or_nothing s_bad_time 90000 "b"
           (<["created_at" := PStr "yesterday"]> (new_record 5 "x")) (PStr "yesterday"));
    try discriminate; vm_compute; reflexivity.
Defined.

(** X21: a record without creation time counts as created at time 0: when
    DELETE /cleanup answers 200 at a clock reading later than 86400, the
    record is gone. *)
Theorem cleanup_missing_timestamp (s : Store) (now : Q) (gid : string)
    (r : pydict) (c : CleanupResponse) :
  s !! gid = Some r -> r !! "created_at" = None ->
  (86400 < now)%Q ->
  (cleanup_old_generations now s).1 = Http200 c ->
  (cleanup_old_generations now s).2 !! gid = None.
Proof.
  intros Hr Hv Hnow. unfold cleanup_old_generations.
  destruct (filter_raising _ (map_to_list s)) as [old|e] eqn:Hold; [|discriminate].
  intros _. cbn [snd]. rewrite foldl_delete_lookup.
  destruct (decide (gid ∈ map fst old)) as [|Hnin]; [done|]. exfalso. apply Hnin.
  change (map fst old) with (old.*1). apply list_elem_of_fmap. exists (gid, r). split; [done|].
  eapply filter_raising_kept; [exact Hold|by apply elem_of_map_to_list|].
  simpl. rewrite Hv. simpl. f_equal. apply Qltb_lt.
  change (inject_Z (24 * 60 * 60)) with 86400%Q. change (inject_Z 0) with 0%Q. lra.
Qed.

(** [cleanup_missing_timestamp] at time 90000. *)
Lemma cleanup_missing_timestamp_witness :
  (cleanup_old_generations 90000 s_no_time).2 !! "n" = None.
Proof.
  apply (cleanup_missing_timestamp s_no_time 90000 "n"
           (delete "created_at" (new_record 5 "x"))
           {| cleaned := 1; remaining := 0 |}); vm_compute; reflexivity.
Defined.

Lemma awaits_run {A} (R : Adapter -> Prop) (p : Prog A) env w :
  every_effect (awaits R) p -> Forall R (calls (run env p w).2).
Proof.
  intros Hp.
  assert (H : Forall (fun ev => match ev with EvMark (Called a) => R a | _ => True end)
                (run env p w).2).
  { eapply every_effect_run; [|exact Hp]. intros X e c s.
    destruct e; simpl; try done; unfold store_write; by destruct (s !! gid). }
  induction H as [|ev tr Hev _ IH]; [constructor|].
  unfold calls in *. destruct ev as [| | | |[a|a v]]; simpl; auto.
Qed.

Ltac awaits_auto IH := every_auto IH; try exact I.

Lemma luma_poll_awaits R gid n auth idl : every_effect (awaits R) (luma_poll gid n auth idl).
Proof. induction n as [|n IH]; [exact I|]. cbn [luma_poll]. awaits_auto IH. Qed.

Lemma replicate_poll_awaits R gid n auth idl :
  every_effect (awaits R) (replicate_poll gid n auth idl).
Proof. induction n as [|n IH]; [exact I|]. cbn [replicate_poll]. awaits_auto IH. Qed.

Lemma luma_awaits R cfg gid pd :
  every_effect (awaits R) (generate_with_luma_dream_machine cfg gid pd).
Proof.
  unfold generate_with_luma_dream_machine.
  awaits_auto (luma_poll_awaits R gid 30 (bearer (LUMA_API_KEY cfg))).
Qed.

Lemma replicate_awaits R cfg gid pd :
  every_effect (awaits R) (generate_with_replicate cfg gid pd).
Proof.
  unfold generate_with_replicate.
  awaits_auto (replicate_poll_awaits R gid 20 (token (REPLICATE_API_TOKEN cfg))).
Qed.

Lemma huggingface_awaits R cfg gid pd :
  every_effect (awaits R) (generate_with_huggingface cfg gid pd).
Proof. unfold generate_with_huggingface. awaits_auto I. Qed.

Lemma mock_awaits R gid pd : every_effect (awaits R) (generate_enhanced_mock_video gid pd).
Proof. unfold generate_enhanced_mock_video. awaits_auto I. Qed.

Lemma await_awaits (R : Adapter -> Prop) a m :
  R a -> every_effect (awaits R) m -> every_effect (awaits R) (await a m).
Proof. intros Ha Hm. unfold await. awaits_auto I; [exact Ha|exact Hm]. Qed.

Lemma process_awaits cfg gid pd :
  every_effect (awaits (fun a => a = Mock \/ a ∈ providers cfg))
    (process_video_generation cfg gid pd).
Proof.
  unfold process_video_generation, process_body, providers. cbv zeta.
  apply every_effect_try; [|intros e; by apply every_effect_perform].
  apply every_effect_bind; [by apply every_effect_perform|intros _].
  apply every_effect_bind; [|intros v1].
  { destruct (configured (LUMA_API_KEY cfg)); [|exact I].
    apply await_awaits; [|apply luma_awaits]. right. apply list_elem_of_here. }
  apply every_effect_bind; [|intros v2].
  { destruct (negb _); [|exact I]. cbn [andb].
    destruct (configured (REPLICATE_API_TOKEN cfg)); [|exact I].
    apply await_awaits; [|apply replicate_awaits]. right.
    apply elem_of_app. right. apply list_elem_of_here. }
  apply every_effect_bind; [|intros v3].
  { destruct (negb _); [|exact I]. cbn [andb].
    destruct (configured (HUGGINGFACE_API_KEY cfg)); [|exact I].
    apply await_awaits; [|apply huggingface_awaits]. right.
    apply elem_of_app. right. apply elem_of_app. right. apply list_elem_of_here. }
  apply every_effect_bind; [|intros v4].
  { destruct (negb _); [|exact I]. apply await_awaits; [by left|apply mock_awaits]. }
  apply every_effect_bind; [by apply every_effect_perform|intros now].
  by apply every_effect_perform.
Qed.

Lemma calls_of_marks tr :
  calls tr = omap (fun m => match m with Called a => Some a | _ => None end) (marks tr).
Proof.
  induction tr as [|ev tr IH]; [done|].
  destruct ev as [| | | |[a|a v]]; try exact IH.
  - change (a :: calls tr
            = a :: omap (fun m => match m with Called a => Some a | _ => None end) (marks tr)).
    by rewrite IH.
Qed.

Lemma chain_first_call ps ms :
  fallback_chain ps ms ->
  head (omap (fun m => match m with Called a => Some a | _ => None end) ms)
  = Some (hd Mock ps).
Proof. by destruct 1. Qed.

Lemma providers_advertised cfg a :
  a ∈ providers cfg <-> a <> Mock /\ advertised cfg (adapter_name a).
Proof.
  unfold providers, advertised, get_api_info. split.
  - intros Hin. split; [intros ->; by apply (providers_no_mock cfg)|].
    destruct (configured (LUMA_API_KEY cfg)) eqn:H1,
             (configured (REPLICATE_API_TOKEN cfg)) eqn:H2,
             (configured (HUGGINGFACE_API_KEY cfg)) eqn:H3; simpl in Hin;
      repeat (apply elem_of_cons in Hin as [->|Hin]);
      try (by apply not_elem_of_nil in Hin);
      simpl; eexists; (split; [in_list|done]).
  - intros [Hne (info & Hin & Hav)].
    repeat (apply elem_of_cons in Hin as [Heq|Hin]);
      try (by apply not_elem_of_nil in Hin);
      injection Heq as Hname ->; simpl in Hav; rewrite Hav;
      destruct a; try discriminate; try done;
      destruct (configured (LUMA_API_KEY cfg)), (configured (REPLICATE_API_TOKEN cfg));
      simpl; in_list.
Qed.

(** X22: what the service advertises is what the task tries.  /api-info and
    /health agree on which providers are available (credential set and not
    empty); a provider is in the task's chain exactly when /api-info lists it
    as available; every adapter a task awaits is the mock or such a provider;
    and when the record is there the first adapter awaited is the first
    available provider in the order Luma, Replicate, Hugging Face, or the
    mock when none is available. *)
Theorem advertised_is_what_runs (cfg : Config) (gid : string) (pd : VideoPrompt)
    (env : Env) (w : World) :
  (forall name info t n,
     (name, info) ∈ get_api_info cfg ->
     (name, available info) ∈ apis_available (health_answer cfg t n))
  /\ (forall a, a ∈ providers cfg <-> a <> Mock /\ advertised cfg (adapter_name a))
  /\ Forall (fun a => a = Mock \/ advertised cfg (adapter_name a))
       (calls (run env (process_video_generation cfg gid pd) w).2)
  /\ (forall r, store w !! gid = Some r ->
        head (calls (run env (process_video_generation cfg gid pd) w).2)
        = Some (hd Mock (providers cfg))).
Proof.
  split_and!.
  - intros name info t n Hin. unfold get_api_info in Hin. unfold health_answer. simpl.
    repeat (apply elem_of_cons in Hin as [[= -> ->]|Hin]; [simpl; in_list|]).
    by apply not_elem_of_nil in Hin.
  - apply providers_advertised.
  - eapply Forall_impl; [apply awaits_run, process_awaits|].
    intros a [->|Hin]; [by left|]. right. by apply providers_advertised in Hin as [_ H].
  - intros r Hr.
    pose proof (wp_run _ env w _ (process_wp cfg gid pd _ r Hr)) as (Hchain & _).
    rewrite calls_of_marks. by apply chain_first_call.
Qed.

(** ** Tasks and their records *)

Lemma closes_or_raises_bind {A B} (m : Prog A) (f : A -> Prog B) :
  (forall a, closes_or_raises (f a)) -> closes_or_raises (bind m f).
Proof.
  intros Hf. induction m as [a|e|X e k IH]; simpl; auto.
  destruct (write_fun e) as [[g w]|]; auto.
Qed.

Lemma closes_try {A} (b : Prog A) (h : Exn -> Prog A) :
  closes_or_raises b -> (forall e, closes (h e)) -> closes (try_except b h).
Proof.
  intros Hb Hh. induction b as [a|e|X e k IH]; simpl in *.
  - done.
  - apply Hh.
  - destruct (write_fun e) as [[g w]|]; [|auto].
    destruct Hb as [Ht|Hk]; auto.
Qed.

Lemma process_closes cfg gid pd : closes (process_video_generation cfg gid pd).
Proof.
  unfold process_video_generation, process_body. cbv zeta.
  apply closes_try.
  - repeat (apply closes_or_raises_bind; intros ?).
    simpl. left. apply terminal_completed.
  - intros e. simpl. left. apply terminal_failed.
Qed.

Lemma sys_live_init : sys_live sys_init.
Proof.
  split; [apply sys_inv_init|]. unfold sys_init. simpl. split.
  - by rewrite !dom_empty_L.
  - intros gid r p. by rewrite lookup_empty.
Qed.

Lemma sys_step_live cfg op x x' :
  sys_live x -> sys_step cfg op x = Some x' -> sys_live x'.
Proof.
  intros (Hinv & Hdom & Hlive) Hstep.
  destruct (sys_step_inv _ _ _ _ Hinv Hstep) as [Hinv' _].
  split; [done|].
  destruct op as [b uuid now|g0|now|now|gid c]; simpl in Hstep.
  - destruct (generate_video cfg b uuid now (sys_store x)) as [[resp s'] [task|]] eqn:Hgen.
    2:{ by injection Hstep as <-. }
    destruct (decide (uuid ∈ sys_issued x)) as [|Hfresh]; [discriminate|].
    injection Hstep as <-.
    destruct (generate_video_accepts _ _ _ _ _ _ _ _ Hgen) as (pd & -> & ->). simpl.
    split.
    + rewrite !dom_insert_L. by apply union_mono_l.
    + intros g r p. destruct (decide (g = uuid)) as [->|Hne].
      * rewrite !lookup_insert_eq. intros _ [= <-] _. apply process_closes.
      * rewrite !lookup_insert_ne by done. apply Hlive.
  - by injection Hstep as <-.
  - by injection Hstep as <-.
  - injection Hstep as <-. simpl.
    assert (Hsub : forall g r, (cleanup_old_generations now (sys_store x)).2 !! g = Some r ->
                               sys_store x !! g = Some r).
    { intros g r Hr. destruct (cleanup_lookup now (sys_store x) g) as [H|H]; congruence. }
    split.
    + intros g [r Hr]%elem_of_dom. apply Hdom, elem_of_dom. eauto.
    + intros g r p Hr. apply Hlive. eauto.
  - destruct (sys_tasks x !! gid) as [p|] eqn:Hp; [|discriminate].
    destruct p as [a|ex|X e k]; try discriminate.
    destruct Hinv as (Hds & Hdt & Hrec & Htask).
    destruct (Htask _ _ Hp) as [Htop Hquiet].
    destruct (write_fun e) as [[g f]|] eqn:Hw.
    + simpl in Htop. rewrite Hw in Htop. destruct Htop as (-> & _).
      pose proof (handle_write e c (sys_store x) gid f Hw) as Hh.
      destruct (handle e c (sys_store x)) as [[reply s'] ev] eqn:Hhandle.
      injection Hstep as <-. cbn [fst snd sys_store sys_tasks sys_issued] in *.
      destruct (sys_store x !! gid) as [r0|] eqn:Hr0.
      * destruct Hh as [-> [x0 ->]]. split.
        -- rewrite !dom_insert_L. apply union_mono_l, Hdom.
        -- intros g r p. destruct (decide (g = gid)) as [->|Hne].
           ++ rewrite !lookup_insert_eq. intros [= <-] [= <-] Hnt.
              destruct (terminal r0) eqn:Ht0.
              { specialize (Hquiet r0 eq_refl Ht0). simpl in Hquiet. rewrite Hw in Hquiet.
                destruct Hquiet as (_ & _ & [?|[?|?]] & _); discriminate. }
              specialize (Hlive _ _ _ Hr0 Hp Ht0). simpl in Hlive. rewrite Hw in Hlive.
              destruct Hlive as [Hterm|Hk]; [|done].
              destruct (Hterm r0 (Hrec _ _ Hr0) Ht0) as [_ Hbad]. congruence.
           ++ rewrite !lookup_insert_ne by done. apply Hlive.
      * destruct Hh as [-> _]. split.
        -- rewrite dom_insert_L. etrans; [exact Hdom|]. apply union_subseteq_r.
        -- intros g r p Hr. destruct (decide (g = gid)) as [->|Hne]; [congruence|].
           rewrite lookup_insert_ne by done. by apply Hlive.
    + pose proof (handle_nonwrite e c (sys_store x) Hw) as Hh.
      destruct (handle e c (sys_store x)) as [[reply s'] ev] eqn:Hhandle.
      injection Hstep as <-. cbn [fst snd sys_store sys_tasks sys_issued] in *. subst s'.
      split.
      * rewrite dom_insert_L. etrans; [exact Hdom|]. apply union_subseteq_r.
      * intros g r p Hr. destruct (decide (g = gid)) as [->|Hne].
        -- rewrite lookup_insert_eq. intros [= <-] Hnt.
           specialize (Hlive _ _ _ Hr Hp Hnt). simpl in Hlive. rewrite Hw in Hlive. done.
        -- rewrite lookup_insert_ne by done. by apply Hlive.
Qed.

Lemma reachable_live cfg x : reachable cfg x -> sys_live x.
Proof.
  intros [ops Hrun]. revert Hrun. generalize sys_live_init. generalize sys_init.
  induction ops as [|op ops IH]; simpl; intros x0 Hlive Hrun.
  - by injection Hrun as <-.
  - destruct (sys_step cfg op x0) as [x1|] eqn:Hstep; [|discriminate].
    eapply IH; [|exact Hrun]. by eapply sys_step_live.
Qed.

(** X16: no record is left behind unfinished.  In every state the service
    can reach, a record that is queued or processing belongs to a task that
    still has a step to make; so once the task of a generation has returned
    or raised, the record of the generation is completed, failed or gone. *)
Theorem unfinished_record_has_running_task (cfg : Config) (x : Sys)
    (gid : string) (r : pydict) :
  reachable cfg x ->
  sys_store x !! gid = Some r -> terminal r = false ->
  exists X (e : Eff X) k, sys_tasks x !! gid = Some (Vis e k).
Proof.
  intros Hreach Hr Ht. destruct (reachable_live _ _ Hreach) as (_ & Hdom & Hlive).
  assert (Hin : gid ∈ dom (sys_tasks x)) by (apply Hdom, elem_of_dom; eauto).
  apply elem_of_dom in Hin as [p Hp]. specialize (Hlive _ _ _ Hr Hp Ht).
  destruct p as [a|ex|X e k]; try done. eauto.
Qed.

(** [unfinished_record_has_running_task] while the task of "g" is at
    work. *)
Lemma unfinished_record_has_running_task_witness :
  exists X (e : Eff X) k, sys_tasks x_started !! "g" = Some (Vis e k).
Proof.
  apply (unfinished_record_has_running_task cfg_none x_started "g"
           (default ∅ (sys_store x_started !! "g"))).
  - exists ops_started. vm_compute; reflexivity.
  - vm_compute; reflexivity.
  - vm_compute; reflexivity.
Defined.

Lemma no_terminal_write_bind {A B} (m : Prog A) (f : A -> Prog B) :
  no_terminal_write m -> (forall a, no_terminal_write (f a)) ->
  no_terminal_write (bind m f).
Proof.
  induction m as [a|e|X e k IH]; simpl; intros Hm Hf; auto.
  destruct (write_fun e) as [[g w]|]; [|by auto].
  destruct Hm as [Hw Hk]. split; auto.
Qed.

Lemma no_terminal_write_try {A} (b : Prog A) (h : Exn -> Prog A) :
  no_terminal_write b -> (forall e, no_terminal_write (h e)) ->
  no_terminal_write (try_except b h).
Proof.
  induction b as [a|e|X e k IH]; simpl; intros Hb Hh; auto.
  destruct (write_fun e) as [[g w]|]; [|by auto].
  destruct Hb as [Hw Hk]. split; auto.
Qed.

Lemma last_write_bind {A B} (m : Prog A) (f : A -> Prog B) :
  no_terminal_write m -> (forall a, last_write (f a)) -> last_write (bind m f).
Proof.
  induction m as [a|e|X e k IH]; simpl; intros Hm Hf; auto.
  destruct (write_fun e) as [[g w]|]; [|by auto].
  destruct Hm as [Hw Hk]. split; auto.
Qed.

Lemma last_write_try {A} (b : Prog A) (h : Exn -> Prog A) :
  last_write b -> (forall e, last_write (h e)) -> last_write (try_except b h).
Proof.
  induction b as [a|e|X e k IH]; simpl; intros Hb Hh; auto.
  destruct (write_fun e) as [[g w]|]; [|by auto].
  destruct Hb as [Hex [[Hn Hk]|[Ht Hk]]]; (split; [by auto|]).
  - left. split; [done|]. auto.
  - right. split; [done|]. intros x. destruct (Hk x) as [a ->]. by exists a.
Qed.

Ltac quiet_auto IH :=
  unfold set_progress, post, get; cbv zeta;
  repeat first
    [ match goal with
      | |- no_terminal_write (if ?b then _ else _) => destruct b
      | |- no_terminal_write (match ?o with Some _ => _ | None => _ end) => destruct o
      | |- no_terminal_write (Ret _) => exact I
      | |- no_terminal_write (lift ?o) => destruct o; exact I
      | |- no_terminal_write (perform (SetItem _ "progress" (PInt _))) =>
          simpl; split; [apply nonterminal_progress; lia|intros [?|?]; exact I]
      | |- no_terminal_write (perform _) => simpl; intros [?|?]; exact I
      | |- no_terminal_write (bind _ _) => apply no_terminal_write_bind; [|intros ?]
      | |- no_terminal_write (try_except _ _) => apply no_terminal_write_try; [|intros ?]
      | |- no_terminal_write (await _ _) => unfold await
      | |- no_terminal_write (luma_poll _ _ _ _) => apply IH
      | |- no_terminal_write (replicate_poll _ _ _ _) => apply IH
      end ].

Lemma luma_poll_quiet gid n auth idl : no_terminal_write (luma_poll gid n auth idl).
Proof. induction n as [|n IH]; [exact I|]. cbn [luma_poll]. quiet_auto IH. Qed.

Lemma replicate_poll_quiet gid n auth idl :
  no_terminal_write (replicate_poll gid n auth idl).
Proof. induction n as [|n IH]; [exact I|]. cbn [replicate_poll]. quiet_auto IH. Qed.

Lemma luma_quiet cfg gid pd :
  no_terminal_write (generate_with_luma_dream_machine cfg gid pd).
Proof.
  unfold generate_with_luma_dream_machine.
  quiet_auto (luma_poll_quiet gid 30 (bearer (LUMA_API_KEY cfg))).
Qed.

Lemma replicate_quiet cfg gid pd : no_terminal_write (generate_with_replicate cfg gid pd).
Proof.
  unfold generate_with_replicate.
  quiet_auto (replicate_poll_quiet gid 20 (token (REPLICATE_API_TOKEN cfg))).
Qed.

Lemma huggingface_quiet cfg gid pd :
  no_terminal_write (generate_with_huggingface cfg gid pd).
Proof. unfold generate_with_huggingface. quiet_auto I. Qed.

Lemma mock_quiet gid pd : no_terminal_write (generate_enhanced_mock_video gid pd).
Proof. unfold generate_enhanced_mock_video. quiet_auto I. Qed.

Lemma await_quiet a m : no_terminal_write m -> no_terminal_write (await a m).
Proof. intros Hm. unfold await. quiet_auto I. exact Hm. Qed.

Lemma process_last_write cfg gid pd : last_write (process_video_generation cfg gid pd).
Proof.
  unfold process_video_generation, process_body. cbv zeta.
  apply last_write_try.
  2:{ intros e. simpl. split; [done|]. right. split; [apply terminal_failed|].
      intros []. by exists tt. }
  apply last_write_bind; [|intros _].
  { simpl. split; [apply nonterminal_processing|]. by intros [?|?]. }
  apply last_write_bind; [|intros v1].
  { destruct (configured _); [apply await_quiet, luma_quiet|exact I]. }
  apply last_write_bind; [|intros v2].
  { destruct (_ && _); [apply await_quiet, replicate_quiet|exact I]. }
  apply last_write_bind; [|intros v3].
  { destruct (_ && _); [apply await_quiet, huggingface_quiet|exact I]. }
  apply last_write_bind; [|intros v4].
  { destruct (negb _); [apply await_quiet, mock_quiet|exact I]. }
  apply last_write_bind; [|intros now].
  { simpl. by intros [?|?]. }
  simpl. split; [done|]. right. split; [apply terminal_completed|].
  intros []. by exists tt.
Qed.

Lemma sys_done_init : sys_done sys_init.
Proof.
  split; [apply sys_inv_init|]. unfold sys_init. simpl. split.
  - intros gid p. by rewrite lookup_empty.
  - intros gid r p. by rewrite lookup_empty.
Qed.

Lemma sys_step_done cfg op x x' :
  sys_done x -> sys_step cfg op x = Some x' -> sys_done x'.
Proof.
  intros (Hinv & Hlast & Hdone) Hstep.
  destruct (sys_step_inv _ _ _ _ Hinv Hstep) as [Hinv' _].
  split; [done|].
  destruct op as [b uuid now|g0|now|now|gid c]; simpl in Hstep.
  - destruct (generate_video cfg b uuid now (sys_store x)) as [[resp s'] [task|]] eqn:Hgen.
    2:{ by injection Hstep as <-. }
    destruct (decide (uuid ∈ sys_issued x)) as [|Hfresh]; [discriminate|].
    injection Hstep as <-.
    destruct (generate_video_accepts _ _ _ _ _ _ _ _ Hgen) as (pd & -> & ->). simpl.
    split.
    + intros g p. destruct (decide (g = uuid)) as [->|Hne].
      * rewrite lookup_insert_eq. intros [= <-]. apply process_last_write.
      * rewrite lookup_insert_ne by done. apply Hlast.
    + intros g r p. destruct (decide (g = uuid)) as [->|Hne].
      * rewrite !lookup_insert_eq. intros [= <-] _. by rewrite new_record_not_terminal.
      * rewrite !lookup_insert_ne by done. apply Hdone.
  - by injection Hstep as <-.
  - by injection Hstep as <-.
  - injection Hstep as <-. simpl. split; [done|].
    intros g r p Hr. apply Hdone.
    destruct (cleanup_lookup now (sys_store x) g) as [H|H]; congruence.
  - destruct (sys_tasks x !! gid) as [p|] eqn:Hp; [|discriminate].
    destruct p as [a|ex|X e k]; try discriminate.
    pose proof (Hlast _ _ Hp) as Hl. simpl in Hl.
    destruct Hinv as (Hds & Hdt & Hrec & Htask).
    destruct (Htask _ _ Hp) as [Htop Hquiet].
    destruct (write_fun e) as [[g f]|] eqn:Hw.
    + simpl in Htop. rewrite Hw in Htop. destruct Htop as (-> & _).
      pose proof (handle_write e c (sys_store x) gid f Hw) as Hh.
      destruct (handle e c (sys_store x)) as [[reply s'] ev] eqn:Hhandle.
      injection Hstep as <-. cbn [fst snd sys_store sys_tasks sys_issued] in *.
      destruct Hl as [Hex Hok].
      destruct (sys_store x !! gid) as [r0|] eqn:Hr0.
      * destruct Hh as [-> [x0 ->]].
        assert (Ht0 : terminal r0 = false).
        { destruct (terminal r0) eqn:Ht; [|done].
          destruct (Hdone _ _ _ Hr0 Hp Ht) as [a Ha]. discriminate. }
        split.
        -- intros g p. destruct (decide (g = gid)) as [->|Hne].
           ++ rewrite lookup_insert_eq. intros [= <-].
              destruct Hok as [[_ Hk]|[_ Hk]]; [done|]. by destruct (Hk x0) as [a ->].
           ++ rewrite lookup_insert_ne by done. apply Hlast.
        -- intros g r p. destruct (decide (g = gid)) as [->|Hne].
           ++ rewrite !lookup_insert_eq. intros [= <-] [= <-] Ht.
              destruct Hok as [[Hn _]|[_ Hk]]; [|done].
              destruct (Hn r0 (Hrec _ _ Hr0) Ht0) as [_ Hbad]. congruence.
           ++ rewrite !lookup_insert_ne by done. apply Hdone.
      * destruct Hh as [-> [ex ->]]. split.
        -- intros g p. destruct (decide (g = gid)) as [->|Hne].
           ++ rewrite lookup_insert_eq. by intros [= <-].
           ++ rewrite lookup_insert_ne by done. apply Hlast.
        -- intros g r p Hr. destruct (decide (g = gid)) as [->|Hne]; [congruence|].
           rewrite lookup_insert_ne by done. by apply Hdone.
    + pose proof (handle_nonwrite e c (sys_store x) Hw) as Hh.
      destruct (handle e c (sys_store x)) as [[reply s'] ev] eqn:Hhandle.
      injection Hstep as <-. cbn [fst snd sys_store sys_tasks sys_issued] in *. subst s'.
      split.
      * intros g p. destruct (decide (g = gid)) as [->|Hne].
        -- rewrite lookup_insert_eq. by intros [= <-].
        -- rewrite lookup_insert_ne by done. apply Hlast.
      * intros g r p Hr. destruct (decide (g = gid)) as [->|Hne].
        -- intros _ Ht. destruct (Hdone _ _ _ Hr Hp Ht) as [a Ha]. discriminate.
        -- rewrite lookup_insert_ne by done. by apply Hdone.
Qed.

Lemma reachable_done cfg x : reachable cfg x -> sys_done x.
Proof.
  intros [ops Hrun]. revert Hrun. generalize sys_done_init. generalize sys_init.
  induction ops as [|op ops IH]; simpl; intros x0 Hd Hrun.
  - by injection Hrun as <-.
  - destruct (sys_step cfg op x0) as [x1|] eqn:Hstep; [|discriminate].
    eapply IH; [|exact Hrun]. by eapply sys_step_done.
Qed.

(** X23: the terminal write is the last thing a task does.  In every state
    the service can reach, the task of a record that is completed or failed
    has returned: it sends no further request, does not sleep and writes
    nothing more. *)
Theorem terminal_record_task_returned (cfg : Config) (x : Sys) (gid : string)
    (r : pydict) :
  reachable cfg x ->
  sys_store x !! gid = Some r -> terminal r = true ->
  sys_tasks x !! gid = Some (Ret tt).
Proof.
  intros Hreach Hr Ht. destruct (reachable_done _ _ Hreach) as (_ & _ & Hdone).
  destruct (reachable_live _ _ Hreach) as (_ & Hdom & _).
  assert (Hin : gid ∈ dom (sys_tasks x)) by (apply Hdom, elem_of_dom; eauto).
  apply elem_of_dom in Hin as [p Hp].
  destruct (Hdone _ _ _ Hr Hp Ht) as [[] ->]. exact Hp.
Qed.

(** [terminal_record_task_returned] for the completed generation "g". *)
Lemma terminal_record_task_returned_witness :
  sys_tasks x_done !! "g" = Some (Ret tt).
Proof.
  apply (terminal_record_task_returned cfg_none x_done "g" record_g).
  - apply x_done_reachable.
  - vm_compute; reflexivity.
  - vm_compute; reflexivity.
Defined.

(** X24: the duration and the style of a request, once validated, are never
    used: the task of a generation is the same coroutine, and so every run
    of it sends the same requests and leaves the same store, for two requests
    with the same prompt. *)
Theorem duration_and_style_are_ignored (cfg : Config) (gid : string)
    (pd pd' : VideoPrompt) :
  prompt pd = prompt pd' ->
  process_video_generation cfg gid pd = process_video_generation cfg gid pd'
  /\ forall env w,
       run env (process_video_generation cfg gid pd) w
       = run env (process_video_generation cfg gid pd') w.
Proof.
  intros Hp.
  assert (H : process_video_generation cfg gid pd = process_video_generation cfg gid pd').
  { destruct pd as [p d s], pd' as [p' d' s']. simpl in Hp. subst p'. reflexivity. }
  split; [exact H|]. intros env w. by rewrite H.
Qed.

(** [duration_and_style_are_ignored] for 7 seconds, cinematic and 10
    seconds, anime. *)
Lemma duration_and_style_are_ignored_witness :
  process_video_generation cfg_lr "g" pd_cat
  = process_video_generation cfg_lr "g" pd_cat_long
  /\ forall env w,
       run env (process_video_generation cfg_lr "g" pd_cat) w
       = run env (process_video_generation cfg_lr "g" pd_cat_long) w.
Proof.
  apply (duration_and_style_are_ignored cfg_lr "g" pd_cat pd_cat_long). reflexivity.
Defined.

(** ** The keyword rule again *)

Lemma append_cons_r a c s : (a +:+ String c "") +:+ s = a +:+ String c s.
Proof.
  induction a as [|c' a IH]; [reflexivity|].
  change (String c' ((a +:+ String c "") +:+ s) = String c' (a +:+ String c s)).
  by rewrite IH.
Qed.

Lemma mentions_street_tree text : mentions "street" text -> mentions "tree" text.
Proof.
  intros (a & b & H). exists (a +:+ "s"), ("t" +:+ b). rewrite H.
  by rewrite append_cons_r.
Qed.

(** X25: the keyword "street" never selects the city video.  It contains
    "tree", a keyword of the nature category, which is tried before the city
    category: a prompt that mentions "street" gets the cat, the ocean or the
    nature video, the nature video when no cat or ocean keyword occurs in it,
    and never the city video. *)
Theorem street_selects_nature (text : string) :
  mentions "street" text ->
  mentions "tree" text
  /\ mock_video_url text <> city_url
  /\ (none_of cat_words text -> none_of ocean_words text ->
      mock_video_url text = nature_url).
Proof.
  intros Hstreet. pose proof (mentions_street_tree _ Hstreet) as Htree.
  assert (Hnature : any_word_in nature_words (PyStr.lower text) = true).
  { apply (any_word_in_some nature_words "tree"); [|done].
    unfold nature_words. in_list. }
  split; [done|]. split.
  - unfold mock_video_url.
    change ["cat"; "kitten"; "pet"] with cat_words.
    change ["ocean"; "wave"; "water"; "sea"] with ocean_words.
    change ["nature"; "forest"; "tree"; "landscape"] with nature_words.
    rewrite Hnature.
    destruct (any_word_in cat_words _); [discriminate|].
    destruct (any_word_in ocean_words _); discriminate.
  - intros Hcat Hocean. unfold mock_video_url.
    change ["cat"; "kitten"; "pet"] with cat_words.
    change ["ocean"; "wave"; "water"; "sea"] with ocean_words.
    change ["nature"; "forest"; "tree"; "landscape"] with nature_words.
    by rewrite (any_word_in_none cat_words), (any_word_in_none ocean_words), Hnature.
Qed.

(** [street_selects_nature] for the prompt "a dog in the street". *)
Lemma street_selects_nature_witness :
  mentions "tree" "a dog in the street"
  /\ mock_video_url "a dog in the street" <> city_url
  /\ (none_of cat_words "a dog in the street" ->
      none_of ocean_words "a dog in the street" ->
      mock_video_url "a dog in the street" = nature_url).
Proof.
  apply (street_selects_nature "a dog in the street").
  exists "a dog in the ", "". reflexivity.
Defined.
